(** * manifold_twins: a shallow embedding of [ManifoldTwinsAnalysis]

    The definitions below follow [manifold_twins.py].  Python values are
    modelled as follows.

    - A method that can raise returns a [res]: [Ok v] for a normal return,
      [Raise e] for an exception that leaves the method.
    - A one-dimensional numpy array is a [list]; boolean-mask indexing,
      [np.delete] and masked assignment are written out with numpy's length
      checks.
    - A float64 is a [spec_float] (IEEE 754 binary64 without NaN payload),
      with the arithmetic of the standard library's [SpecFloat].
    - The instance dictionary of the analysis object is a [gmap] from
      attribute names to values; reading an attribute that was never assigned
      raises [AttributeError].
    - External collaborators (the george Gaussian process, the Stan
      optimizer, md5, Python's [str]) are section variables. *)

From Stdlib Require Import ZArith Lia Bool.
From Stdlib Require Import Floats.SpecFloat.
From stdpp Require Import base option list gmap strings pretty.

Local Open Scope string_scope.
Local Open Scope list_scope.
Local Open Scope Z_scope.

(** ** Exceptions and results *)

(** The exceptions that the modelled code can raise.  [ConfigError] is the
    plain [Exception] raised for an odd number of phase coefficients. *)
Inductive exn : Type :=
| ConfigError (msg : string)
| ManifoldTwinsException (msg : string)
| AttributeError (attr : string)
| NameError (name : string)
| KeyError (key : string)
| IndexError
| ValueError
| TypeError
| OverflowError
| UnicodeEncodeError.

Inductive res (A : Type) : Type :=
| Ok (a : A)
| Raise (e : exn).
Arguments Ok {A} a.
Arguments Raise {A} e.

Definition bind {A B : Type} (m : res A) (k : A -> res B) : res B :=
  match m with
  | Ok a => k a
  | Raise e => Raise e
  end.

(** [res] is a monad; this gives stdpp's [x ← m; k] notation. *)
#[global] Instance res_ret : MRet res := fun A a => Ok a.
#[global] Instance res_bind : MBind res := fun A B k m => bind m k.

(** [for a in l: out.append(f a)], stopping at the first exception. *)
Fixpoint for_each {A B : Type} (f : A -> res B) (l : list A) : res (list B) :=
  match l with
  | [] => Ok []
  | a :: l' => b ← f a; bs ← for_each f l'; Ok (b :: bs)
  end.

(** ** numpy arrays as lists *)

Module Np.

(** [a[mask]] once the lengths are known to agree. *)
Fixpoint compress {A : Type} (mask : list bool) (a : list A) : list A :=
  match mask, a with
  | true :: mask', v :: a' => v :: compress mask' a'
  | false :: mask', _ :: a' => compress mask' a'
  | _, _ => []
  end.

(** [a[mask]] for a boolean array [mask]: numpy raises IndexError when the
    mask and the indexed axis differ in length. *)
Definition mask_index {A : Type} (mask : list bool) (a : list A) : res (list A) :=
  if Nat.eqb (length mask) (length a) then Ok (compress mask a)
  else Raise IndexError.

(** [~mask]. *)
Definition invert (mask : list bool) : list bool := map negb mask.

(** [np.sum(mask)]: the number of selected positions. *)
Definition count_true (mask : list bool) : nat := length (filter (eq true) mask).

(** The positions of [a] selected by [mask] receive the successive values
    of [vals]; the other positions keep their value. *)
Fixpoint scatter {A : Type} (mask : list bool) (vals : list A) (a : list A)
  : list A :=
  match mask, a with
  | true :: mask', old :: a' =>
      match vals with
      | v :: vals' => v :: scatter mask' vals' a'
      | [] => old :: scatter mask' [] a'
      end
  | false :: mask', old :: a' => old :: scatter mask' vals a'
  | _, _ => a
  end.

(** [a[mask] = vals].  A mask of the wrong length is an IndexError; a
    one-element [vals] is broadcast to every selected position; any other
    number of values than selected positions is a ValueError. *)
Definition mask_assign {A : Type} (mask : list bool) (vals : list A)
    (a : list A) : res (list A) :=
  if negb (Nat.eqb (length mask) (length a)) then Raise IndexError
  else if Nat.eqb (length vals) (count_true mask) then Ok (scatter mask vals a)
  else match vals with
       | [v] => Ok (scatter mask (replicate (count_true mask) v) a)
       | _ => Raise ValueError
       end.

(** [a[i]] for a non-negative position. *)
Definition item {A : Type} (a : list A) (i : nat) : res A :=
  match a !! i with
  | Some v => Ok v
  | None => Raise IndexError
  end.

(** [np.delete(a, idx, axis=0)] for a non-negative position: a position
    outside the array is an IndexError. *)
Definition delete {A : Type} (a : list A) (idx : nat) : res (list A) :=
  if (idx <? length a)%nat then Ok (base.delete idx a) else Raise IndexError.

End Np.

(** [a == b] on the entries of an array: on floats a NaN equals nothing,
    itself included, and the two zeros are equal. *)
Class NumpyEq (L : Type) : Type := np_eq : L -> L -> bool.

#[global] Instance nat_np_eq : NumpyEq nat := Nat.eqb.
#[global] Instance Z_np_eq : NumpyEq Z := Z.eqb.
#[global] Instance string_np_eq : NumpyEq string := String.eqb.

(** ** Out-of-sample Gaussian-process prediction ([_predict_gp_oos]) *)

Section PredictGpOos.

(** Rows of the embedding, magnitudes, uncertainties, colours, predictions
    and predictive variances; their arithmetic lives inside the Gaussian
    process and is not needed here.  Group labels are compared with [==]. *)
Context {X Y E C P V L : Type} `{NumpyEq L}.

(** [np.zeros] entries of the two output arrays. *)
Variable zeroP : P.
Variable zeroV : V.

(** [self._predict_gp(pred_x, pred_color, cond_x, cond_y, cond_yerr,
    cond_color, hyperparameters, return_var=..., phase=...)] for the fixed
    hyperparameters and phase flag of one call of [_predict_gp_oos].  The
    query is a batch of rows ([np.atleast_2d] makes a single row a batch of
    one); the result holds the predictions and, with [return_var], the
    variances; building the Gaussian process can raise. *)
Variable _predict_gp :
  bool -> list X -> list C -> list X -> list Y -> list E -> list C ->
  res (list P * list V).

(** The [color] argument: a scalar is broadcast over the sample. *)
Inductive color_arg : Type :=
| ColorScalar (c : C)
| ColorArray (cs : list C).

Definition broadcast_color (n : nat) (color : color_arg) : list C :=
  match color with
  | ColorScalar c => replicate n c
  | ColorArray cs => cs
  end.

(** The rows that stay in the conditioning set when [idx] is predicted. *)
Definition held_out_rows {A : Type} (groups : option (list L)) (idx : nat)
    (cond : list A) : res (list A) :=
  match groups with
  | Some g =>
      gi ← Np.item g idx;
      let match_idx := map (fun gj => np_eq gi gj) g in
      Np.mask_index (Np.invert match_idx) cond
  | None => Np.delete cond idx
  end.

(** One turn of the loop over the conditioning sample. *)
Definition oos_step (return_var : bool) (groups : option (list L))
    (cond_x : list X) (cond_y : list Y) (cond_yerr : list E)
    (cond_color : list C) (idx : nat) : res (P * option V) :=
  del_x ← held_out_rows groups idx cond_x;
  del_y ← held_out_rows groups idx cond_y;
  del_yerr ← held_out_rows groups idx cond_yerr;
  del_color ← held_out_rows groups idx cond_color;
  xi ← Np.item cond_x idx;
  ci ← Np.item cond_color idx;
  pred ← _predict_gp return_var [xi] [ci] del_x del_y del_yerr del_color;
  if return_var then
    p ← Np.item (fst pred) 0;
    v ← Np.item (snd pred) 0;
    Ok (p, Some v)
  else
    p ← Np.item (fst pred) 0;
    Ok (p, None).

(** [out = np.zeros(n); out[mask] = inside; out[~mask] = outside]. *)
Definition fill_both {A : Type} (zero : A) (n : nat) (mask : list bool)
    (inside outside : list A) : res (list A) :=
  out ← Np.mask_assign mask inside (replicate n zero);
  Np.mask_assign (Np.invert mask) outside out.

Definition _predict_gp_oos (x : list X) (y : list Y) (yerr : list E)
    (color : color_arg) (condition_mask : option (list bool))
    (return_var : bool) (groups : option (list L))
  : res (list P * option (list V)) :=
  let color := broadcast_color (length x) color in
  '(cond_x, cond_y, cond_yerr, cond_color) ←
      match condition_mask with
      | None => Ok (x, y, yerr, color)
      | Some m =>
          cx ← Np.mask_index m x;
          cy ← Np.mask_index m y;
          ce ← Np.mask_index m yerr;
          cc ← Np.mask_index m color;
          Ok (cx, cy, ce, cc)
      end;
  cond ← for_each (oos_step return_var groups cond_x cond_y cond_yerr cond_color)
                   (seq 0 (length cond_x));
  let cond_preds := map fst cond in
  let cond_vars := omap snd cond in
  match condition_mask with
  | None =>
      Ok (cond_preds, if return_var then Some cond_vars else None)
  | Some m =>
      other_x ← Np.mask_index (Np.invert m) x;
      other_color ← Np.mask_index (Np.invert m) color;
      other ← _predict_gp return_var other_x other_color
                cond_x cond_y cond_yerr cond_color;
      all_vars ←
        (if return_var
         then fill_both zeroV (length x) m cond_vars (snd other)
         else Ok (replicate (length x) zeroV));
      all_preds ← fill_both zeroP (length x) m cond_preds (fst other);
      Ok (all_preds, if return_var then Some all_vars else None)
  end.

End PredictGpOos.

(** ** The claims' vocabulary for [_predict_gp_oos] *)

(** The rows of [a] at the positions that satisfy [keep], in their order. *)
Fixpoint rows_from {A : Type} (keep : nat -> bool) (j : nat) (a : list A)
  : list A :=
  match a with
  | [] => []
  | v :: a' =>
      if keep j then v :: rows_from keep (S j) a' else rows_from keep (S j) a'
  end.

Definition rows_where {A : Type} (keep : nat -> bool) (a : list A) : list A :=
  rows_from keep 0 a.

(** The positions that a boolean mask selects, in increasing order. *)
Fixpoint positions_from (j : nat) (mask : list bool) : list nat :=
  match mask with
  | [] => []
  | b :: mask' =>
      if b then j :: positions_from (S j) mask' else positions_from (S j) mask'
  end.

Definition positions (mask : list bool) : list nat := positions_from 0 mask.

(** The conditioning subset as a mask: everything when no mask is given. *)
Definition effective_mask (n : nat) (condition_mask : option (list bool))
  : list bool :=
  match condition_mask with
  | Some m => m
  | None => replicate n true
  end.

(** The [r]-th prediction of a call of [_predict_gp], if it returned one,
    and its [r]-th variance. *)
Definition prediction {P V : Type} (r : nat) (out : res (list P * list V))
  : option P :=
  match out with
  | Ok (ps, _) => ps !! r
  | Raise _ => None
  end.

Definition variance {P V : Type} (r : nat) (out : res (list P * list V))
  : option V :=
  match out with
  | Ok (_, vs) => vs !! r
  | Raise _ => None
  end.

(** The predictions and the variances that a call of [_predict_gp]
    returned. *)
Definition predictions {P V : Type} (out : res (list P * list V)) : list P :=
  match out with
  | Ok (ps, _) => ps
  | Raise _ => []
  end.

Definition variances {P V : Type} (out : res (list P * list V)) : list V :=
  match out with
  | Ok (_, vs) => vs
  | Raise _ => []
  end.

(** Which rows of the conditioning subset stay when its row [i] is
    predicted: without labels every row but [i]; with labels every row whose
    label is not [==] to the label of [i]. *)
Definition stays {L : Type} `{NumpyEq L} (groups : option (list L))
    (i j : nat) : bool :=
  match groups with
  | None => negb (Nat.eqb j i)
  | Some g =>
      match g !! i, g !! j with
      | Some gi, Some gj => negb (np_eq gi gj)
      | _, _ => false
      end
  end.

(** No label is a NaN: every label is [==] to itself. *)
Definition self_equal {L : Type} `{NumpyEq L} (groups : option (list L))
  : Prop :=
  forall g l, groups = Some g -> l ∈ g -> np_eq l l = true.

(** A toy predictor for running [_predict_gp_oos]: every query row is
    predicted as the sum of the conditioning magnitudes, with variance 0. *)
Definition toy_gp (return_var : bool) (qx qc cx cy ce cc : list Z)
  : res (list Z * list Z) :=
  Ok (map (fun _ => foldr Z.add 0 cy) qx, map (fun _ => 0) qx).


(** ** float64 *)

Module F64.

Definition prec : Z := 53.
Definition emax : Z := 1024.

Definition nan : spec_float := S754_nan.
Definition of_Z (z : Z) : spec_float := binary_normalize prec emax z 0 false.
Definition zero : spec_float := of_Z 0.
Definition one : spec_float := of_Z 1.

Definition mul : spec_float -> spec_float -> spec_float := SFmul prec emax.
Definition div : spec_float -> spec_float -> spec_float := SFdiv prec emax.
Definition add : spec_float -> spec_float -> spec_float := SFadd prec emax.
Definition sub : spec_float -> spec_float -> spec_float := SFsub prec emax.
Definition abs : spec_float -> spec_float := SFabs.

(** [a == b], [a < b], [a <= b], [a > b], [a >= b]: all false on NaN. *)
Definition eqb : spec_float -> spec_float -> bool := SFeqb.
Definition ltb : spec_float -> spec_float -> bool := SFltb.
Definition leb : spec_float -> spec_float -> bool := SFleb.
Definition gtb (a b : spec_float) : bool := SFltb b a.
Definition geb (a b : spec_float) : bool := SFleb b a.

Definition is_nan (a : spec_float) : bool :=
  match a with
  | S754_nan => true
  | _ => false
  end.

(** [a != 0] as numpy's nonzero test reads it (NaN counts as nonzero). *)
Definition nonzero (a : spec_float) : bool := negb (eqb a zero).

(** [int(np.floor(a))]: Python refuses to convert NaN (ValueError) and an
    infinity (OverflowError). *)
Definition floor (a : spec_float) : res Z :=
  match a with
  | S754_zero _ => Ok 0
  | S754_nan => Raise ValueError
  | S754_infinity _ => Raise OverflowError
  | S754_finite s m e =>
      let sm := if s then Z.neg m else Z.pos m in
      Ok (if 0 <=? e then sm * 2 ^ e else sm `div` 2 ^ (- e))
  end.

End F64.

#[global] Instance float_np_eq : NumpyEq spec_float := F64.eqb.

(** ** The analysis object *)

(** A configuration number: Python [int] or [float]. *)
Inductive pynum : Type :=
| PyInt (z : Z)
| PyFloat (f : spec_float).

Definition to_float (v : pynum) : spec_float :=
  match v with
  | PyInt z => F64.of_Z z
  | PyFloat f => f
  end.

(** [self.settings]: the recognised options. *)
Record settings : Type := Settings {
  idr : string;
  phase_range : pynum;
  bin_velocity : pynum;
  bin_min_wavelength : pynum;
  bin_max_wavelength : pynum;
  s2n_cut_min_wavelength : pynum;
  s2n_cut_max_wavelength : pynum;
  s2n_cut_threshold : pynum;
  maximum_num_phase_coefficients : Z;
  rbtl_fiducial_rv : pynum;
  mask_uncertainty_fraction : pynum;
  isomap_num_neighbors : Z;
  isomap_num_components : Z;
  blinded : bool;
  verbosity : Z
}.

(** A target with the metadata the modelled methods read, and a binned
    spectrum with its owning target and its phase. *)
Record target : Type := Target {
  target_name : string;
  idr_subset : string
}.

Record spectrum : Type := Spectrum {
  spectrum_target : string;
  spectrum_phase : spec_float
}.

(** An array object.  Arrays are mutable and shared: they live in a heap
    and values refer to them by location. *)
Inductive ndarray : Type :=
| Floats (a : list spec_float)
| Floats2 (a : list (list spec_float))
| Bools (a : list bool)
| Ints (a : list Z).

Definition loc : Type := nat.

(** A Stan result: an ordered dictionary from names to arrays. *)
Definition stan_result : Type := list (string * loc).

Inductive value : Type :=
| VBool (b : bool)
| VInt (z : Z)
| VFloat (f : spec_float)
| VStr (s : string)
| VArr (l : loc)
| VDict (d : stan_result)
| VTargets (ts : list target)
| VSpectra (ss : list spectrum)
| VObj (tag : string).

(** An entry of the [data] dictionary handed to the optimizer. *)
Inductive stan_value : Type :=
| SInt (z : Z)
| SArr (a : ndarray).

Definition stan_data : Type := list (string * stan_value).

(** The analysis object and what surrounds it: the instance dictionary
    (every attribute but [settings]), the heap of arrays, the on-disk result
    cache, and the optimizer calls made so far (model path and data). *)
Record world : Type := World {
  self_settings : settings;
  attrs : gmap string value;
  heap : list ndarray;
  cache : gmap string (list (string * ndarray));
  optimizer_calls : list (string * stan_data)
}.

Definition with_attrs (f : gmap string value -> gmap string value) (w : world)
  : world :=
  World (self_settings w) (f (attrs w)) (heap w) (cache w) (optimizer_calls w).

Definition with_heap (f : list ndarray -> list ndarray) (w : world) : world :=
  World (self_settings w) (attrs w) (f (heap w)) (cache w) (optimizer_calls w).

Definition with_cache
    (f : gmap string (list (string * ndarray)) ->
         gmap string (list (string * ndarray))) (w : world) : world :=
  World (self_settings w) (attrs w) (heap w) (f (cache w)) (optimizer_calls w).

Definition with_optimizer_calls
    (f : list (string * stan_data) -> list (string * stan_data)) (w : world)
  : world :=
  World (self_settings w) (attrs w) (heap w) (cache w) (f (optimizer_calls w)).

(** A method: it runs on a world and returns or raises, leaving a world. *)
Definition M (A : Type) : Type := world -> res A * world.

#[global] Instance M_ret : MRet M := fun A a w => (Ok a, w).
#[global] Instance M_bind : MBind M := fun A B k m w =>
  match m w with
  | (Ok a, w') => k a w'
  | (Raise e, w') => (Raise e, w')
  end.

Definition raise {A : Type} (e : exn) : M A := fun w => (Raise e, w).

Definition lift {A : Type} (r : res A) : M A := fun w => (r, w).

(** [self.settings[key]]. *)
Definition setting {A : Type} (key : settings -> A) : M A :=
  fun w => (Ok (key (self_settings w)), w).

(** [self.name]. *)
Definition getattr (name : string) : M value := fun w =>
  match attrs w !! name with
  | Some v => (Ok v, w)
  | None => (Raise (AttributeError name), w)
  end.

(** [self.name = v]. *)
Definition setattr (name : string) (v : value) : M unit := fun w =>
  (Ok tt, with_attrs (insert name v) w).

(** A new array object. *)
Definition alloc (a : ndarray) : M loc := fun w =>
  (Ok (length (heap w)), with_heap (fun h => h ++ [a]) w).

Definition deref (l : loc) : M ndarray := fun w =>
  match heap w !! l with
  | Some a => (Ok a, w)
  | None => (Raise TypeError, w)
  end.

(** An in-place update of the array at [l]. *)
Definition store (l : loc) (a : ndarray) : M unit := fun w =>
  (Ok tt, with_heap (fun h => <[l:=a]> h) w).

(** Values of the shape a statement needs; anything else is a TypeError. *)
Definition as_arr (v : value) : M loc :=
  match v with
  | VArr l => mret l
  | _ => raise TypeError
  end.

Definition as_str (v : value) : M string :=
  match v with
  | VStr s => mret s
  | _ => raise TypeError
  end.

Definition as_dict (v : value) : M stan_result :=
  match v with
  | VDict d => mret d
  | _ => raise TypeError
  end.

Definition as_targets (v : value) : M (list target) :=
  match v with
  | VTargets ts => mret ts
  | _ => raise TypeError
  end.

Definition as_spectra (v : value) : M (list spectrum) :=
  match v with
  | VSpectra ss => mret ss
  | _ => raise TypeError
  end.

Definition as_floats (a : ndarray) : M (list spec_float) :=
  match a with
  | Floats a => mret a
  | _ => raise TypeError
  end.

Definition as_bools (a : ndarray) : M (list bool) :=
  match a with
  | Bools a => mret a
  | _ => raise TypeError
  end.

Definition as_floats2 (a : ndarray) : M (list (list spec_float)) :=
  match a with
  | Floats2 a => mret a
  | _ => raise TypeError
  end.

(** [self.name] read as an array: the object and its current content. *)
Definition getarr (name : string) : M ndarray :=
  v ← getattr name; l ← as_arr v; deref l.

(** [len(a)]: the length of the first axis. *)
Definition array_len (a : ndarray) : Z :=
  match a with
  | Floats a => Z.of_nat (length a)
  | Floats2 a => Z.of_nat (length a)
  | Bools a => Z.of_nat (length a)
  | Ints a => Z.of_nat (length a)
  end.

(** [result[key]]. *)
Fixpoint assoc {A : Type} (key : string) (d : list (string * A)) : option A :=
  match d with
  | [] => None
  | (k, v) :: d' => if String.eqb k key then Some v else assoc key d'
  end.

Definition dict_get (d : stan_result) (key : string) : M loc :=
  match assoc key d with
  | Some l => mret l
  | None => raise (KeyError key)
  end.

(** The arrays of a result taken out of, and put into, the heap. *)
Fixpoint freeze_result (d : stan_result) : M (list (string * ndarray)) :=
  match d with
  | [] => mret []
  | (k, l) :: d' => a ← deref l; r ← freeze_result d'; mret ((k, a) :: r)
  end.

Fixpoint thaw_result (d : list (string * ndarray)) : M stan_result :=
  match d with
  | [] => mret []
  | (k, a) :: d' => l ← alloc a; r ← thaw_result d'; mret ((k, l) :: r)
  end.

(** Modelled from the spec: [utils.load_stan_result] and
    [utils.save_stan_result] are not among the sources.  The cache is a
    store from hashes to serialized results with the two operations
    [load(hash) -> result | missing] and [save(hash, result)]; a load builds
    new array objects from the stored content. *)
Definition load_stan_result (hash : string) : M (option stan_result) := fun w =>
  match cache w !! hash with
  | None => (Ok None, w)
  | Some stored =>
      match thaw_result stored w with
      | (Ok r, w') => (Ok (Some r), w')
      | (Raise e, w') => (Raise e, w')
      end
  end.

Definition write_cache (hash : string) (stored : list (string * ndarray))
  : M unit :=
  fun w => (Ok tt, with_cache (insert hash stored) w).

Definition save_stan_result (hash : string) (result : stan_result) : M unit :=
  stored ← freeze_result result; write_cache hash stored.

(** ** External collaborators *)

(** What the analysis calls and does not define: md5 over the ASCII
    encoding with its hex digest, Python's [str] on a configuration number,
    [utils.load_stan_model] (the model's hash; the model itself is named by
    its path), [model.optimizing] with its data, the reddening law, numpy's
    [log], [log10] and [std], the george Gaussian process (built from the
    hyperparameters on the conditioning rows and their uncertainties,
    conditioned on the magnitudes, predicting mean and variance at the query
    rows) and scipy's [minimize] (for the likelihood fit of [fit_gp], given
    its data, and for an objective evaluated by the analysis). *)
Class Externals : Type := {
  md5 : string -> string;
  py_str : pynum -> string;
  load_stan_model : string -> string;
  optimizing : string -> stan_data -> res (list (string * ndarray));
  fitzpatrick99 : ndarray -> spec_float -> pynum -> ndarray;
  np_log : spec_float -> spec_float;
  np_log10 : spec_float -> spec_float;
  np_std : list spec_float -> spec_float;
  george_predict :
    list spec_float -> bool -> list (list spec_float) -> list spec_float ->
    list spec_float -> list (list spec_float) ->
    res (list spec_float * list spec_float);
  minimize_likelihood :
    list (list spec_float) -> list spec_float -> list spec_float ->
    list spec_float -> list spec_float -> res (list spec_float);
  minimize :
    (list spec_float -> res spec_float) -> list spec_float ->
    res (list spec_float)
}.

(** ** [__init__]: selection of the spectra and the centre mask *)

(** A sequence of statements that threads a state and stops at the first
    exception. *)
Fixpoint fold_res {A S : Type} (f : S -> A -> res S) (s : S) (l : list A)
  : res S :=
  match l with
  | [] => Ok s
  | a :: l' => s' ← f s a; fold_res f s' l'
  end.

(** [np.argmin] on floats: the first position of the least value; a NaN
    counts as least and the first NaN is returned. *)
Fixpoint argmin_from (best : spec_float) (best_i i : nat) (l : list spec_float)
  : nat :=
  match l with
  | [] => best_i
  | v :: l' =>
      if F64.is_nan best then best_i
      else if negb (F64.geb v best) then argmin_from v i (S i) l'
      else argmin_from best best_i (S i) l'
  end.

Definition argmin (l : list spec_float) : res nat :=
  match l with
  | [] => Raise ValueError
  | v :: l' => Ok (argmin_from v 0 1 l')
  end.

Section SelectSpectra.

(** The idrtools objects: a supernova with its spectra and its SALT2 fit,
    and a spectrum with its phase (read after the reference time was moved
    to the fitted time of maximum) and its signal-to-noise in a window. *)
Context {SN SP : Type}.
Variable sn_spectra : SN -> list SP.
Variable salt_t0_err : SN -> spec_float.
Variable get_spectra_in_range : SN -> spec_float -> spec_float -> list SP.
Variable phase_of : SP -> spec_float.
Variable get_signal_to_noise : SP -> pynum -> pynum -> spec_float.

Variable cfg : settings.

(** [self._check_spectrum(spectrum)]. *)
Definition _check_spectrum (sp : SP) : bool :=
  let s2n_start :=
    get_signal_to_noise sp (s2n_cut_min_wavelength cfg)
      (s2n_cut_max_wavelength cfg) in
  if F64.ltb s2n_start (to_float (s2n_cut_threshold cfg)) then false else true.

(** What the loop over the targets accumulates; [unusable] are the spectra
    whose [usable] flag the loop cleared. *)
Record selection : Type := Selection {
  all_raw_spec : list SP;
  center_mask : list bool;
  unusable : list SP;
  attrition_enough_spectra : Z;
  attrition_salt_daymax : Z;
  attrition_range : Z;
  attrition_usable : Z
}.

Definition selection_start : selection := Selection [] [] [] 0 0 0 0.

(** The spectra of [range_spectra] that pass the check, and the ones that
    fail it. *)
Definition used_spectra (range_spectra : list SP) : list SP :=
  filter (fun sp => _check_spectrum sp = true) range_spectra.

Definition rejected_spectra (range_spectra : list SP) : list SP :=
  filter (fun sp => _check_spectrum sp = false) range_spectra.

(** [target_center_mask]: all False but for the spectrum closest to phase
    zero. *)
Definition target_center_mask (used_phases : list spec_float)
  : res (list bool) :=
  k ← argmin (map F64.abs used_phases);
  Ok (<[k:=true]> (replicate (length used_phases) false)).

(** One turn of [for supernova in self.dataset.targets]. *)
Definition select_target (st : selection) (sn : SN) : res selection :=
  if (length (sn_spectra sn) <? 5)%nat then Ok st
  else
    let enough := attrition_enough_spectra st + 1 in
    let daymax_err := salt_t0_err sn in
    if F64.gtb daymax_err F64.one then
      Ok (Selection (all_raw_spec st) (center_mask st) (unusable st) enough
            (attrition_salt_daymax st) (attrition_range st)
            (attrition_usable st))
    else
      let daymax := attrition_salt_daymax st + 1 in
      let range_spectra :=
        get_spectra_in_range sn (SFopp (to_float (phase_range cfg)))
          (to_float (phase_range cfg)) in
      let in_range :=
        if (0 <? length range_spectra)%nat then attrition_range st + 1
        else attrition_range st in
      let used := used_spectra range_spectra in
      let used_phases := map phase_of used in
      let raw := all_raw_spec st ++ used in
      let bad := unusable st ++ rejected_spectra range_spectra in
      if (0 <? length used_phases)%nat then
        tcm ← target_center_mask used_phases;
        Ok (Selection raw (center_mask st ++ tcm) bad enough daymax in_range
              (attrition_usable st + 1))
      else
        Ok (Selection raw (center_mask st) bad enough daymax in_range
              (attrition_usable st)).

Definition select_spectra (targets : list SN) : res selection :=
  fold_res select_target selection_start targets.

End SelectSpectra.

(** [self.train_mask]. *)
Definition build_train_mask (targets : list target) : list bool :=
  map (fun t => negb (String.eqb (idr_subset t) "validation")) targets.

(** ** The cache keys *)

Section Hashes.
Context `{Externals}.

(** [hash_info] of [__init__] and [self.dataset_hash]. *)
Definition dataset_hash_info (cfg : settings) : string :=
  idr cfg
  +:+ ";" +:+ py_str (phase_range cfg)
  +:+ ";" +:+ py_str (bin_velocity cfg)
  +:+ ";" +:+ py_str (bin_min_wavelength cfg)
  +:+ ";" +:+ py_str (bin_max_wavelength cfg)
  +:+ ";" +:+ py_str (s2n_cut_min_wavelength cfg)
  +:+ ";" +:+ py_str (s2n_cut_max_wavelength cfg)
  +:+ ";" +:+ py_str (s2n_cut_threshold cfg).

(** [text.encode("ascii")]: a character outside ASCII is a
    UnicodeEncodeError. *)
Definition ascii_encode (text : string) : res string :=
  if forallb (fun c => (Ascii.nat_of_ascii c <? 128)%nat)
       (String.list_ascii_of_string text)
  then Ok text else Raise UnicodeEncodeError.

Definition dataset_hash (cfg : settings) : res string :=
  encoded ← ascii_encode (dataset_hash_info cfg);
  Ok (md5 encoded).

(** md5 gives the two texts different digests unless they are equal. *)
Definition no_collision (a b : string) : Prop := md5 a = md5 b -> a = b.

(** [hash_info] of [model_maximum_spectra] and [self.maximum_hash]. *)
Definition maximum_hash_info (dataset_hash model_hash : string) (cfg : settings)
  : string :=
  dataset_hash
  +:+ ";" +:+ model_hash
  +:+ ";" +:+ py_str (PyInt (maximum_num_phase_coefficients cfg)).

Definition maximum_hash (dataset_hash model_hash : string) (cfg : settings)
  : string :=
  md5 (maximum_hash_info dataset_hash model_hash cfg).

(** [hash_info] of [read_between_the_lines] and [self.rbtl_hash]. *)
Definition rbtl_hash (maximum_hash model_hash : string) (cfg : settings)
  : string :=
  md5 (maximum_hash +:+ ";" +:+ model_hash
       +:+ ";" +:+ py_str (rbtl_fiducial_rv cfg)).

End Hashes.

(** ** [model_maximum_spectra] *)

(** [a[i] = v] for a possibly negative position: a negative position counts
    from the end, a position outside the array is an IndexError. *)
Definition np_setitem {A : Type} (a : list A) (i : Z) (v : A) : res (list A) :=
  let n := Z.of_nat (length a) in
  let k := if i <? 0 then i + n else i in
  if (0 <=? k) && (k <? n) then Ok (<[Z.to_nat k:=v]> a) else Raise IndexError.

(** The column that turn [j] of the inner loop writes. *)
Definition phase_bin (n : Z) (phase : spec_float) (j : Z) : Z :=
  if F64.gtb phase F64.zero then n `div` 2 + j else n `div` 2 - 1 - j.

(** [phase_scale], [full_bins] and [remainder] of one spectrum. *)
Definition phase_scale (n : Z) (range : pynum) (phase : spec_float)
  : spec_float :=
  F64.abs (F64.mul (F64.div (F64.of_Z n) (F64.of_Z 2))
                   (F64.div phase (to_float range))).

Definition full_bins (n : Z) (range : pynum) (phase : spec_float) : res Z :=
  F64.floor (phase_scale n range phase).

Definition remainder (n : Z) (range : pynum) (phase : spec_float) (fb : Z)
  : spec_float :=
  F64.sub (phase_scale n range phase) (F64.of_Z fb).

(** The inner loop [for j in range(full_bins + 1)] on the row of one
    spectrum. *)
Definition fill_phase_row (n : Z) (phase : spec_float) (fb : Z)
    (rem : spec_float) (row : list spec_float) : res (list spec_float) :=
  fold_res
    (fun row j =>
       let weight := if j =? fb then rem else F64.one in
       np_setitem row (phase_bin n phase j) weight)
    row (seqZ 0 (fb + 1)).

(** The row of [phase_coefficients] of a spectrum at [phase]. *)
Definition phase_coefficient_row (n : Z) (range : pynum) (phase : spec_float)
    (row : list spec_float) : res (list spec_float) :=
  fb ← full_bins n range phase;
  fill_phase_row n phase fb (remainder n range phase fb) row.

(** [np.zeros((num_spectra, n))]: a negative dimension is a ValueError. *)
Definition np_zeros2 (num_spectra n : Z) : res (list (list spec_float)) :=
  if (num_spectra <? 0) || (n <? 0) then Raise ValueError
  else Ok (replicate (Z.to_nat num_spectra) (replicate (Z.to_nat n) F64.zero)).

(** The loop [for i, phase in enumerate(self.salt_phases)] on the matrix. *)
Definition fill_phase_coefficients (n : Z) (range : pynum)
    (salt_phases : list spec_float) (m : list (list spec_float))
  : res (list (list spec_float)) :=
  fold_res
    (fun m '(i, phase) =>
       fb ← full_bins n range phase;
       row ← Np.item m i;
       row' ← fill_phase_row n phase fb (remainder n range phase fb) row;
       Ok (<[i:=row']> m))
    m (imap (fun i phase => (i, phase)) salt_phases).

(** [spectra_targets.count(i.target)] for every spectrum. *)
Definition spectra_target_counts (spectra : list spectrum) : list Z :=
  let spectra_targets := map spectrum_target spectra in
  map (fun sp =>
         Z.of_nat (length (filter (fun t => t = spectrum_target sp)
                                  spectra_targets)))
      spectra.

Section ModelMaximumSpectra.
Context `{Externals}.

Definition odd_message : string :=
  "ERROR: Must have an even number of phase coefficients.".

Definition maximum_model_path : string :=
  "./stan_models/phase_interpolation_analytic.stan".

(** Runs the optimizer of the model at [path]: the call is recorded, and
    the arrays of the result become new array objects. *)
Definition run_optimizing (path : string) (data : stan_data) : M stan_result :=
  (fun w => (Ok tt, with_optimizer_calls (fun l => l ++ [(path, data)]) w)) ;;
  values ← lift (optimizing path data);
  thaw_result values.

Definition model_maximum_spectra (use_cache : bool) : M unit :=
  let model_hash := load_stan_model maximum_model_path in
  dh ← getattr "dataset_hash"; dh ← as_str dh;
  cfg ← setting id;
  let mh := maximum_hash dh model_hash cfg in
  setattr "maximum_hash" (VStr mh) ;;
  cached ←
    (if use_cache then load_stan_result mh else mret None);
  match cached with
  | Some cache_result =>
      setattr "maximum_result" (VDict cache_result) ;;
      flux ← dict_get cache_result "maximum_flux";
      setattr "maximum_flux" (VArr flux) ;;
      fluxerr ← dict_get cache_result "maximum_fluxerr";
      setattr "maximum_fluxerr" (VArr fluxerr)
  | None =>
      targets ← getattr "targets"; targets ← as_targets targets;
      let num_targets := Z.of_nat (length targets) in
      flux ← getarr "flux";
      let num_spectra := array_len flux in
      wave ← getarr "wave";
      let num_wave := array_len wave in
      let num_phase_coefficients := maximum_num_phase_coefficients cfg in
      if negb (num_phase_coefficients `mod` 2 =? 0) then
        raise (ConfigError odd_message)
      else
        spectra ← getattr "spectra"; spectra ← as_spectra spectra;
        let counts := spectra_target_counts spectra in
        zeros ← lift (np_zeros2 num_spectra num_phase_coefficients);
        salt_phases ← getarr "salt_phases"; salt_phases ← as_floats salt_phases;
        phase_coefficients ←
          lift (fill_phase_coefficients num_phase_coefficients
                  (phase_range cfg) salt_phases zeros);
        measured_flux ← getarr "flux";
        measured_fluxerr ← getarr "fluxerr";
        target_map ← getarr "target_map";
        target_map ←
          match target_map with
          | Ints a => mret (map (fun t => t + 1) a)
          | _ => raise TypeError
          end;
        center ← getarr "center_mask"; center ← as_bools center;
        salt_x1 ← getarr "salt_x1";
        let stan_data :=
          [("num_targets", SInt num_targets);
           ("num_spectra", SInt num_spectra);
           ("num_wave", SInt num_wave);
           ("measured_flux", SArr measured_flux);
           ("measured_fluxerr", SArr measured_fluxerr);
           ("phases", SArr (Floats (map spectrum_phase spectra)));
           ("phase_coefficients", SArr (Floats2 phase_coefficients));
           ("num_phase_coefficients", SInt num_phase_coefficients);
           ("spectra_target_counts", SArr (Ints counts));
           ("target_map", SArr (Ints target_map));
           ("maximum_map",
            SArr (Ints (map (fun k => Z.of_nat k + 1) (positions center))));
           ("salt_x1", SArr salt_x1)] in
        result ← run_optimizing maximum_model_path stan_data;
        setattr "maximum_result" (VDict result) ;;
        flux ← dict_get result "maximum_flux";
        setattr "maximum_flux" (VArr flux) ;;
        fluxerr ← dict_get result "maximum_fluxerr";
        setattr "maximum_fluxerr" (VArr fluxerr) ;;
        save_stan_result mh result
  end.

End ModelMaximumSpectra.

(** ** [read_between_the_lines] and [_parse_rbtl_result] *)

(** [a[mask] = v] for a scalar [v]. *)
Definition mask_fill {A : Type} (mask : list bool) (v : A) (a : list A)
  : res (list A) :=
  if Nat.eqb (length mask) (length a)
  then Ok (Np.scatter mask (replicate (Np.count_true mask) v) a)
  else Raise IndexError.

(** Element by element on two axes of equal length; an axis of length one
    is stretched to the other; any other pair of lengths is a ValueError. *)
Fixpoint zip_res {A B C : Type} (f : A -> B -> res C) (a : list A) (b : list B)
  : res (list C) :=
  match a, b with
  | x :: a', y :: b' => c ← f x y; cs ← zip_res f a' b'; Ok (c :: cs)
  | _, _ => Ok []
  end.

Definition broadcast {A B C : Type} (f : A -> B -> res C) (a : list A)
    (b : list B) : res (list C) :=
  if Nat.eqb (length a) (length b) then zip_res f a b
  else match a, b with
       | [x], _ => for_each (f x) b
       | _, [y] => for_each (fun x => f x y) a
       | _, _ => Raise ValueError
       end.

(** [a / b] on float arrays of one or two axes.  Division by zero gives an
    infinity or NaN, as numpy does. *)
Definition np_divide (a b : ndarray) : res ndarray :=
  let row := broadcast (fun x y => Ok (F64.div x y)) in
  match a, b with
  | Floats a, Floats b => r ← row a b; Ok (Floats r)
  | Floats2 a, Floats2 b => r ← broadcast row a b; Ok (Floats2 r)
  | Floats2 a, Floats b => r ← broadcast row a [b]; Ok (Floats2 r)
  | Floats a, Floats2 b => r ← broadcast row [a] b; Ok (Floats2 r)
  | _, _ => Raise TypeError
  end.

Section ReadBetweenTheLines.
Context `{Externals}.

Definition rbtl_model_path : string := "./stan_models/read_between_the_lines.stan".

(** [self.rbtl_mags[~self.train_mask] = np.nan]: an update in place of the
    array object that [self.rbtl_mags] names. *)
Definition discard_validation_magnitudes : M unit :=
  mags ← getattr "rbtl_mags"; mags ← as_arr mags;
  train_mask ← getarr "train_mask"; train_mask ← as_bools train_mask;
  content ← deref mags; content ← as_floats content;
  blind ← lift (mask_fill (Np.invert train_mask) F64.nan content);
  store mags (Floats blind).

Definition _parse_rbtl_result (result : stan_result) : M unit :=
  setattr "rbtl_result" (VDict result) ;;
  colors ← dict_get result "colors";
  setattr "rbtl_colors" (VArr colors) ;;
  magnitudes ← dict_get result "magnitudes";
  setattr "rbtl_mags" (VArr magnitudes) ;;
  mean_flux ← dict_get result "mean_flux";
  setattr "mean_flux" (VArr mean_flux) ;;
  is_blinded ← setting blinded;
  (if (is_blinded : bool) then discard_validation_magnitudes else mret tt) ;;
  maximum_flux ← getarr "maximum_flux";
  scales ← dict_get result "model_scales"; scales ← deref scales;
  scale_flux ← lift (np_divide maximum_flux scales);
  scale_flux ← alloc scale_flux;
  setattr "scale_flux" (VArr scale_flux) ;;
  maximum_fluxerr ← getarr "maximum_fluxerr";
  scales ← dict_get result "model_scales"; scales ← deref scales;
  scale_fluxerr ← lift (np_divide maximum_fluxerr scales);
  scale_fluxerr ← alloc scale_fluxerr;
  setattr "scale_fluxerr" (VArr scale_fluxerr).

Definition read_between_the_lines (use_cache : bool) : M unit :=
  cfg ← setting id;
  wave ← getarr "wave";
  color_law ← alloc (fitzpatrick99 wave F64.one (rbtl_fiducial_rv cfg));
  setattr "rbtl_color_law" (VArr color_law) ;;
  let model_hash := load_stan_model rbtl_model_path in
  mh ← getattr "maximum_hash"; mh ← as_str mh;
  let rh := rbtl_hash mh model_hash cfg in
  setattr "rbtl_hash" (VStr rh) ;;
  cached ← (if use_cache then load_stan_result rh else mret None);
  match cached with
  | Some cache_result => _parse_rbtl_result cache_result
  | None =>
      targets ← getattr "targets"; targets ← as_targets targets;
      let num_targets := Z.of_nat (length targets) in
      wave ← getarr "wave";
      let num_wave := array_len wave in
      maximum_flux ← getarr "maximum_flux";
      maximum_fluxerr ← getarr "maximum_fluxerr";
      color_law ← getarr "rbtl_color_law";
      let stan_data :=
        [("num_targets", SInt num_targets);
         ("num_wave", SInt num_wave);
         ("maximum_flux", SArr maximum_flux);
         ("maximum_fluxerr", SArr maximum_fluxerr);
         ("color_law", SArr color_law)] in
      result ← run_optimizing rbtl_model_path stan_data;
      save_stan_result rh result ;;
      _parse_rbtl_result result
  end.

End ReadBetweenTheLines.

(** ** Names of the module *)

(** The names bound at module level: the imports of lines 1-16 and the two
    classes. *)
Definition module_globals : list string :=
  ["Table"; "md5"; "Dataset"; "math"; "plt"; "Axes3D"; "minimize"; "Isomap";
   "extinction"; "np"; "os"; "sys"; "tqdm"; "default_settings"; "utils";
   "specind"; "ManifoldTwinsException"; "ManifoldTwinsAnalysis";
   "__name__"; "__doc__"; "__file__"; "__package__"; "__loader__";
   "__spec__"; "__builtins__"; "__cached__"].

(** Python's built-in functions and constants. *)
Definition builtin_names : list string :=
  ["abs"; "all"; "any"; "ascii"; "bin"; "bool"; "breakpoint"; "bytearray";
   "bytes"; "callable"; "chr"; "classmethod"; "compile"; "complex";
   "delattr"; "dict"; "dir"; "divmod"; "enumerate"; "eval"; "exec"; "filter";
   "float"; "format"; "frozenset"; "getattr"; "globals"; "hasattr"; "hash";
   "help"; "hex"; "id"; "input"; "int"; "isinstance"; "issubclass"; "iter";
   "len"; "list"; "locals"; "map"; "max"; "memoryview"; "min"; "next";
   "object"; "oct"; "open"; "ord"; "pow"; "print"; "property"; "range";
   "repr"; "reversed"; "round"; "set"; "setattr"; "slice"; "sorted";
   "staticmethod"; "str"; "sum"; "super"; "tuple"; "type"; "vars"; "zip";
   "__import__"; "True"; "False"; "None"; "Ellipsis"; "NotImplemented";
   "Exception"; "KeyError"; "ModuleNotFoundError"; "NameError";
   "AttributeError"; "IndexError"; "ValueError"; "TypeError"].

(** An unqualified name that the function does not assign: the module's
    globals, then the built-ins, then NameError. *)
Definition global_name (name : string) : M value :=
  if bool_decide (name ∈ module_globals ++ builtin_names)
  then mret (VObj name)
  else raise (NameError name).

(** What a method does whose statement [undefined_name(...)] follows the
    statements [before]: if [before] returns, NameError; if it raises, its
    exception. *)
Definition stops_at (name : string) {B : Type} (before : M B) (w : world)
  : res unit * world :=
  match before w with
  | (Ok _, w1) => (Raise (NameError name), w1)
  | (Raise e, w1) => (Raise e, w1)
  end.

(** ** [get_mags] and the Gaussian-process fits *)

(** [a & b] on boolean arrays. *)
Definition np_and (a b : ndarray) : res (list bool) :=
  match a, b with
  | Bools a, Bools b => broadcast (fun x y => Ok (x && y)) a b
  | _, _ => Raise TypeError
  end.

Section GpMethods.
Context `{Externals}.

(** [self.a & self.b]. *)
Definition attr_and (a b : string) : M (list bool) :=
  x ← getattr a; y ← getattr b;
  x ← as_arr x; x ← deref x; y ← as_arr y; y ← deref y;
  lift (np_and x y).

Definition get_peculiar_velocity_uncertainty (peculiar_velocity : pynum)
  : M (list spec_float) :=
  let factor := F64.div (F64.of_Z 5) (np_log (F64.of_Z 10)) in
  let velocity := F64.div (to_float peculiar_velocity) (F64.of_Z 300000) in
  redshifts ← getarr "redshifts"; redshifts ← as_floats redshifts;
  mret (map (fun z => F64.mul factor (F64.div velocity z)) redshifts).

(** The five arrays that [get_mags] returns. *)
Record mags_selection : Type := MagsSelection {
  use_embedding : list (list spec_float);
  use_mags : list spec_float;
  use_colors : list spec_float;
  use_pec_vel_dispersion : list spec_float;
  use_mask : list bool
}.

Definition get_mags (kind : string) (full : bool) (peculiar_velocity : pynum)
  : M mags_selection :=
  '(mags, colors, mask) ←
    (if String.eqb kind "rbtl" then
       mags ← getattr "rbtl_mags";
       colors ← getattr "rbtl_colors";
       mask ← (if full then attr_and "mag_mask" "interp_mask"
               else attr_and "good_mag_mask" "interp_mask");
       mret (mags, colors, mask)
     else if String.eqb kind "salt" || String.eqb kind "salt_raw" then
       mags ← (if String.eqb kind "salt" then getattr "salt_hr"
               else getattr "salt_hr_raw");
       colors ← getattr "salt_colors";
       mask ← (if full then attr_and "salt_mask" "interp_mask"
               else attr_and "good_salt_mask" "interp_mask");
       mret (mags, colors, mask)
     else raise (ManifoldTwinsException ("Unknown kind " +:+ kind +:+ "!")));
  pec_vel_dispersion ← get_peculiar_velocity_uncertainty peculiar_velocity;
  mags ← as_arr mags; mags ← deref mags; mags ← as_floats mags;
  use_mags ← lift (Np.mask_index mask mags);
  colors ← as_arr colors; colors ← deref colors; colors ← as_floats colors;
  use_colors ← lift (Np.mask_index mask colors);
  embedding ← getarr "embedding"; embedding ← as_floats2 embedding;
  use_embedding ← lift (Np.mask_index mask embedding);
  use_pec ← lift (Np.mask_index mask pec_vel_dispersion);
  mret (MagsSelection use_embedding use_mags use_colors use_pec mask).

Definition default_peculiar_velocity : pynum := PyInt 300.

(** [_build_gp]: the hyperparameters it indexes, and the colour slope that
    it returns beside the Gaussian process. *)
Definition _build_gp (hyperparameters : list spec_float) (phase : bool)
  : res spec_float :=
  _ ← Np.item hyperparameters 1;
  _ ← Np.item hyperparameters 2;
  _ ← Np.item hyperparameters 3;
  _ ← (if phase then Np.item hyperparameters 4 else Ok F64.zero);
  Np.item hyperparameters 0.

(** [_predict_gp] with a colour for the query rows. *)
Definition _predict_gp (hyperparameters : list spec_float) (phase : bool)
    (return_var : bool) (pred_x : list (list spec_float))
    (pred_color : list spec_float) (cond_x : list (list spec_float))
    (cond_y cond_yerr cond_color : list spec_float)
  : res (list spec_float * list spec_float) :=
  color_slope ← _build_gp hyperparameters phase;
  use_cond_y ←
    broadcast (fun y c => Ok (F64.sub y (F64.mul color_slope c)))
      cond_y cond_color;
  '(mean, var) ← george_predict hyperparameters phase cond_x cond_yerr
                    use_cond_y pred_x;
  pred ← broadcast (fun p c => Ok (F64.add p (F64.mul c color_slope)))
           mean pred_color;
  Ok (pred, var).

(** [self._predict_gp_oos] of the object, without group labels. *)
Definition predict_gp_oos_self (hyperparameters : list spec_float)
    (phase return_var : bool) (sel : mags_selection)
    (condition_mask : option (list bool))
  : res (list spec_float * option (list spec_float)) :=
  _predict_gp_oos F64.zero F64.zero (_predict_gp hyperparameters phase)
    (use_embedding sel) (use_mags sel) (use_pec_vel_dispersion sel)
    (ColorArray (use_colors sel)) condition_mask return_var
    (@None (list nat)).

Definition _calculate_gp_residuals (hyperparameters : list spec_float)
    (kind : string) (phase : bool) : M (list spec_float) :=
  sel ← get_mags kind false default_peculiar_velocity;
  '(preds, _) ← lift (predict_gp_oos_self hyperparameters phase false sel None);
  lift (broadcast (fun m p => Ok (F64.sub m p)) (use_mags sel) preds).

Definition _calculate_gp_dispersion (hyperparameters : list spec_float)
    (kind : string) (phase : bool) : M spec_float :=
  residuals ← _calculate_gp_residuals hyperparameters kind phase;
  mret (np_std residuals).

(** [self.gp_hyperparameters = x] and its later reading. *)
Definition set_gp_hyperparameters (x : list spec_float) : M unit :=
  l ← alloc (Floats x); setattr "gp_hyperparameters" (VArr l).

Definition get_gp_hyperparameters : M (list spec_float) :=
  x ← getarr "gp_hyperparameters"; as_floats x.

(** What the corrected-magnitude assignment is given: the full selection
    and the out-of-sample predictions on it. *)
Definition corr_mags_args : Type :=
  (mags_selection * (list spec_float * option (list spec_float)))%type.

(** [fit_gp] up to the corrected-magnitude assignment (lines 728-757). *)
Definition fit_gp_until_corr_mags (kind : string)
    (start_hyperparameters : list spec_float) : M corr_mags_args :=
  good ← get_mags kind false default_peculiar_velocity;
  x ← lift (minimize_likelihood (use_embedding good)
              (use_pec_vel_dispersion good) (use_mags good) (use_colors good)
              start_hyperparameters);
  set_gp_hyperparameters x ;;
  full ← get_mags kind true default_peculiar_velocity;
  condition_mask ← lift (Np.mask_index (use_mask full) (use_mask good));
  hyperparameters ← get_gp_hyperparameters;
  preds ← lift (predict_gp_oos_self hyperparameters false true full
                  (Some condition_mask));
  mret (full, preds).

(** [fit_gp].  The assignment of line 759 starts by evaluating the name
    [fill_mask]; [rest] is the call itself and what follows it. *)
Definition fit_gp {A : Type} (kind : string)
    (start_hyperparameters : list spec_float)
    (rest : value -> corr_mags_args -> M A) : M A :=
  args ← fit_gp_until_corr_mags kind start_hyperparameters;
  fill_mask ← global_name "fill_mask";
  rest fill_mask args.

(** [minimize(to_min, start)] for an objective that reads the object. *)
Definition minimize_objective (to_min : list spec_float -> M spec_float)
    (start : list spec_float) : M (list spec_float) :=
  fun w => (minimize (fun x => fst (to_min x w)) start, w).

(** [apply_gp_standardization] up to the corrected-magnitude assignment
    (lines 811-839).  scipy's [minimize] evaluates its objective at the
    starting point first, and an exception raised there leaves it. *)
Definition apply_gp_standardization_until_corr_mags
    (hyperparameters : option (list spec_float)) (phase : bool)
    (kind : string) : M corr_mags_args :=
  x ←
    match hyperparameters with
    | None =>
        let start :=
          [F64.div (F64.of_Z 1) (F64.of_Z 10);
           F64.div (F64.of_Z 3) (F64.of_Z 10); F64.of_Z 5] in
        _calculate_gp_dispersion start kind phase ;;
        minimize_objective
          (fun x => _calculate_gp_dispersion x kind phase) start
    | Some x => mret x
    end;
  set_gp_hyperparameters x ;;
  good ← get_mags kind false default_peculiar_velocity;
  full ← get_mags kind true default_peculiar_velocity;
  condition_mask ← lift (Np.mask_index (use_mask full) (use_mask good));
  hyperparameters ← get_gp_hyperparameters;
  preds ← lift (predict_gp_oos_self hyperparameters phase false full
                  (Some condition_mask));
  mret (full, preds).

Definition apply_gp_standardization {A : Type}
    (hyperparameters : option (list spec_float)) (phase : bool)
    (kind : string) (rest : value -> corr_mags_args -> M A) : M A :=
  args ← apply_gp_standardization_until_corr_mags hyperparameters phase kind;
  fill_mask ← global_name "fill_mask";
  rest fill_mask args.

(** [_evaluate_salt_hubble_residuals] up to the magnitude uncertainty
    (lines 1252-1253): [mb] and [x0_err]. *)
Definition salt_residuals_until_mb_err
  : M (list spec_float * list spec_float) :=
  salt_fits ← getattr "salt_fits"; salt_fits ← as_dict salt_fits;
  x0 ← dict_get salt_fits "x0"; x0 ← deref x0; x0 ← as_floats x0;
  let mb :=
    map (fun v => F64.mul (F64.div (F64.of_Z (-5)) (F64.of_Z 2)) (np_log10 v))
        x0 in
  salt_fits ← getattr "salt_fits"; salt_fits ← as_dict salt_fits;
  x0_err ← dict_get salt_fits "x0_err"; x0_err ← deref x0_err;
  x0_err ← as_floats x0_err;
  mret (mb, x0_err).

(** [_evaluate_salt_hubble_residuals].  Line 1254 starts by evaluating the
    name [frac_to_mag]; [rest] is the call and what follows it. *)
Definition _evaluate_salt_hubble_residuals {A : Type}
    (rest : value -> list spec_float * list spec_float -> M A) : M A :=
  args ← salt_residuals_until_mb_err;
  frac_to_mag ← global_name "frac_to_mag";
  rest frac_to_mag args.

End GpMethods.

(** ** The attributes that the methods assign *)

(** For every method of the class that assigns an instance attribute, the
    attributes it assigns ([self.name = ...] and [self.name += ...]). *)
Definition assigned_by : list (string * list string) :=
  [("__init__",
    ["settings"; "dataset"; "attrition_enough_spectra";
     "attrition_salt_daymax"; "attrition_range"; "attrition_usable"; "wave";
     "flux"; "fluxerr"; "raw_spectra"; "spectra"; "center_mask";
     "helio_redshifts"; "redshifts"; "redshift_errs"; "targets";
     "target_map"; "salt_fits"; "salt_x1"; "salt_colors"; "salt_phases";
     "train_mask"; "dataset_hash"]);
   ("model_maximum_spectra",
    ["maximum_hash"; "maximum_result"; "maximum_flux"; "maximum_fluxerr"]);
   ("read_between_the_lines", ["rbtl_color_law"; "rbtl_hash"]);
   ("_parse_rbtl_result",
    ["rbtl_result"; "rbtl_colors"; "rbtl_mags"; "mean_flux"; "scale_flux";
     "scale_fluxerr"]);
   ("build_masks",
    ["maximum_uncertainty_fraction"; "uncertainty_mask";
     "redshift_color_mask"]);
   ("generate_embedding", ["isomap"; "isomap_diffs"; "embedding"]);
   ("calculate_spectral_indicators", ["spectral_indicators"]);
   ("fit_gp",
    ["gp_hyperparameters"; "corr_mags"; "corr_vars";
     "gp_hyperparameter_covariance"]);
   ("apply_gp_standardization", ["gp_hyperparameters"; "corr_mags"]);
   ("load_host_data", ["host_mask"; "host_data"]);
   ("plot_twin_pairings", ["twins_rms"; "twins_nmad"]);
   ("calculate_salt_hubble_residuals",
    ["salt_mask"; "good_salt_mask"; "salt_MB"; "salt_alpha"; "salt_beta";
     "salt_intrinsic_dispersion"; "salt_wrms"; "salt_hr";
     "salt_hr_uncertainties"; "salt_hr_raw_uncertainties"; "salt_hr_raw"])].

Definition assignable (name : string) : Prop :=
  exists method names, (method, names) ∈ assigned_by /\ name ∈ names.

(** The instance dictionaries that calls of the methods can produce from a
    new object, in any order and number, each call running to its end or to
    an exception: one assignment of a method at a time. *)
Inductive reachable : gmap string value -> Prop :=
| reachable_new : reachable ∅
| reachable_assign (a : gmap string value) (name : string) (v : value) :
    reachable a -> assignable name -> reachable (<[name:=v]> a).

(** ** The parameters of the cache keys *)

(** The configuration parameters that enter [hash_info] of [__init__] and
    of [model_maximum_spectra]. *)
Inductive hash_parameter : Type :=
| P_idr
| P_phase_range
| P_bin_velocity
| P_bin_min_wavelength
| P_bin_max_wavelength
| P_s2n_cut_min_wavelength
| P_s2n_cut_max_wavelength
| P_s2n_cut_threshold
| P_maximum_num_phase_coefficients.

#[global] Instance hash_parameter_eq_dec : EqDecision hash_parameter.
Proof. solve_decision. Defined.

Inductive config_value : Type :=
| CStr (s : string)
| CNum (v : pynum)
| CInt (z : Z).

Definition param_value (p : hash_parameter) (cfg : settings) : config_value :=
  match p with
  | P_idr => CStr (idr cfg)
  | P_phase_range => CNum (phase_range cfg)
  | P_bin_velocity => CNum (bin_velocity cfg)
  | P_bin_min_wavelength => CNum (bin_min_wavelength cfg)
  | P_bin_max_wavelength => CNum (bin_max_wavelength cfg)
  | P_s2n_cut_min_wavelength => CNum (s2n_cut_min_wavelength cfg)
  | P_s2n_cut_max_wavelength => CNum (s2n_cut_max_wavelength cfg)
  | P_s2n_cut_threshold => CNum (s2n_cut_threshold cfg)
  | P_maximum_num_phase_coefficients =>
      CInt (maximum_num_phase_coefficients cfg)
  end.

(** Two configurations that differ in the value of [p] and agree on every
    other parameter of the hashes. *)
Definition differ_only_at (p : hash_parameter) (c1 c2 : settings) : Prop :=
  param_value p c1 <> param_value p c2
  /\ forall q, q <> p -> param_value q c1 = param_value q c2.

(** ** The order of absolute values *)

(** An absolute value that is no NaN, placed in the order of the floats:
    zero, then the finite values by exponent and mantissa, then infinity. *)
Definition magnitude_key (x : spec_float) : Z * Z * Z :=
  match x with
  | S754_zero _ => (0, 0, 0)
  | S754_finite _ m e => (1, e, Z.pos m)
  | S754_infinity _ => (2, 0, 0)
  | S754_nan => (3, 0, 0)
  end.

Definition key_le (a b : Z * Z * Z) : Prop :=
  let '(c1, e1, m1) := a in
  let '(c2, e2, m2) := b in
  c1 < c2 \/ (c1 = c2 /\ (e1 < e2 \/ (e1 = e2 /\ m1 <= m2))).

(** The block of the centre mask for [n] used spectra with the centre at
    [k]. *)
Definition one_hot (n k : nat) : list bool := <[k:=true]> (replicate n false).

(** ** The rows of the phase-coefficient matrix *)

(** [np.count_nonzero(row)]. *)
Definition count_nonzero (row : list spec_float) : nat :=
  length (filter (fun v => F64.nonzero v = true) row).

(** How far column [c] lies from the centre, on the side of the phase:
    the turn of the inner loop that writes it. *)
Definition column_offset (n : Z) (phase : spec_float) (c : nat) : Z :=
  if F64.gtb phase F64.zero then Z.of_nat c - n `div` 2
  else n `div` 2 - 1 - Z.of_nat c.

(** The entry at offset [j]: 1.0 in the [fb] columns next to the centre,
    the remainder in the following one, 0.0 elsewhere. *)
Definition weight_at (fb : Z) (rem : spec_float) (j : Z) : spec_float :=
  if j <? 0 then F64.zero
  else if j <? fb then F64.one
  else if j =? fb then rem
  else F64.zero.

(** 3.75, a phase inside the range [-5, 5]. *)
Definition phase_3_75 : spec_float := F64.div (F64.of_Z 15) (F64.of_Z 4).

(** ** A toy instance for running the methods *)

(** Stand-ins for the external collaborators: the identity for md5, a
    readable [str], a Stan optimizer that returns constant arrays, a
    Gaussian process that predicts zero. *)
#[global] Instance spec_float_eq_dec : EqDecision spec_float.
Proof. solve_decision. Defined.

#[global] Instance spec_float_countable : Countable spec_float.
Proof.
  refine (inj_countable'
    (fun f => match f with
              | S754_zero s => inl (inl s)
              | S754_infinity s => inl (inr s)
              | S754_nan => inr (inl tt)
              | S754_finite s m e => inr (inr (s, m, e))
              end)
    (fun x => match x with
              | inl (inl s) => S754_zero s
              | inl (inr s) => S754_infinity s
              | inr (inl _) => S754_nan
              | inr (inr (s, m, e)) => S754_finite s m e
              end) _); by intros [].
Defined.

#[global] Instance pynum_eq_dec : EqDecision pynum.
Proof. solve_decision. Defined.

#[global] Instance pynum_countable : Countable pynum.
Proof.
  refine (inj_countable'
    (fun v => match v with PyInt z => inl z | PyFloat f => inr f end)
    (fun x => match x with inl z => PyInt z | inr f => PyFloat f end) _);
    by intros [].
Defined.

(** An injective stand-in for [str]: the decimal digits of a code of the
    number. *)
Definition injective_str (v : pynum) : string := pretty (encode v).

(** A readable stand-in for [str]: decimal digits for an integer, mantissa
    and exponent for a float. *)
Definition toy_str (v : pynum) : string :=
  match v with
  | PyInt z => pretty z
  | PyFloat (S754_finite s m e) =>
      (if s then "-" else "") +:+ pretty (Z.pos m) +:+ "p" +:+ pretty e
  | PyFloat (S754_zero s) => if s then "-0.0" else "0.0"
  | PyFloat (S754_infinity s) => if s then "-inf" else "inf"
  | PyFloat S754_nan => "nan"
  end.

Definition toy_optimizing (path : string) (data : stan_data)
  : res (list (string * ndarray)) :=
  Ok [("maximum_flux", Floats2 [[F64.one; F64.one]; [F64.one; F64.one]]);
      ("maximum_fluxerr", Floats2 [[F64.one; F64.one]; [F64.one; F64.one]]);
      ("colors", Floats [F64.zero; F64.zero]);
      ("magnitudes", Floats [F64.one; F64.of_Z 2]);
      ("mean_flux", Floats [F64.one; F64.one]);
      ("model_scales", Floats2 [[F64.one; F64.one]; [F64.of_Z 2; F64.of_Z 2]]);
      ("fractional_dispersion", Floats [F64.one; F64.one])].

#[global] Instance toy_externals : Externals := {
  md5 := fun s => s;
  py_str := toy_str;
  load_stan_model := fun path => "model";
  optimizing := toy_optimizing;
  fitzpatrick99 := fun wave a rv => wave;
  np_log := fun x => x;
  np_log10 := fun x => x;
  np_std := fun l => F64.zero;
  george_predict := fun hyper phase cx ce cy qx =>
    Ok (map (fun _ => F64.zero) qx, map (fun _ => F64.zero) qx);
  minimize_likelihood := fun x e y c start => Ok start;
  minimize := fun f start => Ok start
}.

(** The same collaborators with the injective [str]. *)
Definition injective_externals : Externals := {|
  md5 := fun s => s;
  py_str := injective_str;
  load_stan_model := fun path => "model";
  optimizing := toy_optimizing;
  fitzpatrick99 := fun wave a rv => wave;
  np_log := fun x => x;
  np_log10 := fun x => x;
  np_std := fun l => F64.zero;
  george_predict := fun hyper phase cx ce cy qx =>
    Ok (map (fun _ => F64.zero) qx, map (fun _ => F64.zero) qx);
  minimize_likelihood := fun x e y c start => Ok start;
  minimize := fun f start => Ok start
|}.

Definition toy_settings (n : Z) (is_blinded : bool) : settings :=
  Settings "IDR" (PyFloat (F64.of_Z 5)) (PyInt 1000) (PyInt 3300) (PyInt 8600)
    (PyInt 3300) (PyInt 3800) (PyInt 100) n (PyFloat (F64.div (F64.of_Z 14) (F64.of_Z 5)))
    (PyFloat (F64.div (F64.of_Z 1) (F64.of_Z 10))) 10 3 is_blinded 1.

(** An object as [__init__] leaves it: two targets, the second in the
    validation set, with two spectra each on a grid of two wavelengths. *)
Definition toy_targets : list target :=
  [Target "SN1" "training"; Target "SN2" "validation"].

Definition toy_heap : list ndarray :=
  [Floats [F64.of_Z 4000; F64.of_Z 5000];
   Floats2 [[F64.one; F64.one]; [F64.one; F64.one];
            [F64.one; F64.one]; [F64.one; F64.one]];
   Floats2 [[F64.one; F64.one]; [F64.one; F64.one];
            [F64.one; F64.one]; [F64.one; F64.one]];
   Floats [F64.of_Z (-1); F64.of_Z 3; F64.of_Z 0; F64.of_Z 2];
   Ints [0; 0; 1; 1];
   Bools [true; false; true; false];
   Floats [F64.zero; F64.one];
   Bools (build_train_mask toy_targets);
   Floats [F64.div (F64.of_Z 1) (F64.of_Z 20); F64.div (F64.of_Z 1) (F64.of_Z 20)]].

Definition toy_attrs : gmap string value :=
  list_to_map
    [("wave", VArr 0%nat); ("flux", VArr 1%nat); ("fluxerr", VArr 2%nat);
     ("salt_phases", VArr 3%nat); ("target_map", VArr 4%nat);
     ("center_mask", VArr 5%nat); ("salt_x1", VArr 6%nat);
     ("train_mask", VArr 7%nat); ("redshifts", VArr 8%nat);
     ("targets", VTargets toy_targets);
     ("spectra",
      VSpectra [Spectrum "SN1" (F64.of_Z (-1)); Spectrum "SN1" (F64.of_Z 3);
                Spectrum "SN2" (F64.of_Z 0); Spectrum "SN2" (F64.of_Z 2)]);
     ("dataset_hash", VStr "dataset")].

Definition toy_world (n : Z) (is_blinded : bool) : world :=
  World (toy_settings n is_blinded) toy_attrs toy_heap ∅ [].

(** An object on which the masks that no method assigns were assigned from
    outside, with an embedding, magnitudes and colours for three targets,
    and a table of SALT2 fits. *)
Definition toy_gp_heap : list ndarray :=
  [Floats [F64.one; F64.of_Z 2; F64.of_Z 3];
   Floats [F64.zero; F64.zero; F64.zero];
   Floats2 [[F64.zero]; [F64.one]; [F64.of_Z 2]];
   Floats [F64.one; F64.one; F64.one];
   Bools [true; true; true];
   Bools [true; true; false];
   Bools [true; true; true];
   Floats [F64.one; F64.one; F64.one];
   Floats [F64.one; F64.one; F64.one]].

Definition toy_gp_attrs : gmap string value :=
  list_to_map
    [("rbtl_mags", VArr 0%nat); ("rbtl_colors", VArr 1%nat);
     ("embedding", VArr 2%nat); ("redshifts", VArr 3%nat);
     ("mag_mask", VArr 4%nat); ("good_mag_mask", VArr 5%nat);
     ("interp_mask", VArr 6%nat);
     ("salt_fits", VDict [("x0", 7%nat); ("x0_err", 8%nat)])].

Definition toy_gp_world : world :=
  World (toy_settings 4 false) toy_gp_attrs toy_gp_heap ∅ [].

Definition toy_hyperparameters : list spec_float :=
  [F64.zero; F64.one; F64.one; F64.one].

(** The toy object with an odd number of phase coefficients and a cache
    that already holds an entry under its maximum hash. *)
Definition toy_cached_world : world :=
  with_cache
    (insert (maximum_hash "dataset" "model" (toy_settings 3 true))
       [("maximum_flux", Floats2 [[F64.one; F64.one]; [F64.one; F64.one]]);
        ("maximum_fluxerr", Floats2 [[F64.one; F64.one]; [F64.one; F64.one]])])
    (toy_world 3 true).

(** The content of the array that an attribute names. *)
Definition attr_array (name : string) (w : world) : option ndarray :=
  match attrs w !! name with
  | Some (VArr l) => heap w !! l
  | _ => None
  end.

(** The result [r] names, in the heap [h], arrays with the content
    [stored], under the same keys. *)
Definition holds (h : list ndarray) (r : stan_result)
    (stored : list (string * ndarray)) : Prop :=
  Forall2 (fun kl ka => fst kl = fst ka /\ h !! snd kl = Some (snd ka)) r stored.

(** The object is blinded and its [train_mask] is the array at [lt] with
    content [tm]. *)
Definition blinded_with_train_mask (lt : loc) (tm : list bool) (w : world)
  : Prop :=
  blinded (self_settings w) = true
  /\ attrs w !! "train_mask" = Some (VArr lt)
  /\ heap w !! lt = Some (Bools tm).

(** The toy object after the maximum-light stage. *)
Definition toy_maximum_world : world :=
  snd (model_maximum_spectra true (toy_world 4 true)).

(** A toy supernova for the selection loop: its spectra are pairs of a
    phase and a signal-to-noise, its time of maximum is known to 0.5 days. *)
Definition toy_supernova : list (spec_float * spec_float) :=
  map (fun p => (F64.of_Z p, F64.of_Z 200)) [-10; -4; 1; 3; 10; 12].

Definition toy_in_range (sn : list (spec_float * spec_float))
    (lo hi : spec_float) : list (spec_float * spec_float) :=
  filter (fun sp => F64.leb lo (fst sp) && F64.leb (fst sp) hi = true) sn.

(** ** What a method leaves of the object *)

(** The method leaves the world as it found it, whether it returns or
    raises. *)
Definition read_only {A : Type} (m : M A) : Prop := forall w, snd (m w) = w.

(** The method leaves the instance dictionary as it found it. *)
Definition keeps_attrs {A : Type} (m : M A) : Prop :=
  forall w, attrs (snd (m w)) = attrs w.

(** The method assigns no attribute outside [names], whether it returns or
    raises. *)
Definition assigns_only (names : list string) {A : Type} (m : M A) : Prop :=
  forall w name, name ∉ names -> attrs (snd (m w)) !! name = attrs w !! name.

(** The attributes that [assigned_by] lists for a method. *)
Definition assigned_names (method : string) : list string :=
  default [] (assoc method assigned_by).
(** * Proofs *)

Section NpFacts.
Context {A : Type}.
Implicit Types (mask : list bool) (a vals : list A).

Lemma rows_from_ext (f g : nat -> bool) j a :
  (forall k, (j <= k < j + length a)%nat -> f k = g k) ->
  rows_from f j a = rows_from g j a.
Proof.
  revert j. induction a as [|v a IH]; intros j Hfg; simpl in *; [done|].
  rewrite (Hfg j) by lia. rewrite (IH (S j)); [done|].
  intros k Hk. apply Hfg. lia.
Qed.

Lemma compress_rows_from mask a j :
  length mask = length a ->
  Np.compress mask a
  = rows_from (fun k => default false (mask !! (k - j)%nat)) j a.
Proof.
  revert a j. induction mask as [|b mask IH]; intros [|v a] j Hlen;
    simpl in *; try done.
  replace (j - j)%nat with 0%nat by lia. simpl.
  rewrite (rows_from_ext _ (fun k => default false (mask !! (k - S j)%nat)) (S j)).
  - rewrite <- IH by lia. by destruct b.
  - intros k Hk. replace (k - j)%nat with (S (k - S j)) by lia. done.
Qed.

Lemma compress_all_true a : Np.compress (replicate (length a) true) a = a.
Proof. induction a as [|v a IH]; simpl; [done|]. by rewrite IH. Qed.

Lemma positions_from_all_true j n i k :
  positions_from j (replicate n true) !! i = Some k -> k = (j + i)%nat.
Proof.
  revert j i. induction n as [|n IH]; intros j i Hpos; simpl in *; [done|].
  destruct i as [|i]; simpl in Hpos; [injection Hpos as <-; lia|].
  apply IH in Hpos. lia.
Qed.

Lemma positions_from_none_false j n :
  positions_from j (Np.invert (replicate n true)) = [].
Proof. revert j. induction n as [|n IH]; intros j; simpl; [done|]. apply IH. Qed.

Lemma compress_rows_where mask a :
  length mask = length a ->
  Np.compress mask a = rows_where (fun k => default false (mask !! k)) a.
Proof.
  intros Hlen. unfold rows_where. rewrite (compress_rows_from mask a 0 Hlen).
  apply rows_from_ext. intros k _. by rewrite Nat.sub_0_r.
Qed.

Lemma delete_rows_from (i j : nat) a :
  delete i a = rows_from (fun k => negb (Nat.eqb k (j + i))) j a.
Proof.
  revert i j. induction a as [|v a IH]; intros i j; simpl; [by destruct i|].
  destruct i as [|i]; simpl.
  - rewrite Nat.add_0_r, Nat.eqb_refl. simpl.
    rewrite (rows_from_ext _ (fun _ => true) (S j)).
    + clear. generalize (S j). induction a as [|w a IH]; intros k; simpl; [done|].
      by rewrite <- IH.
    + intros k Hk. apply negb_true_iff, Nat.eqb_neq. lia.
  - destruct (Nat.eqb_spec j (j + S i)) as [?|_]; [lia|]. simpl.
    f_equal. rewrite (IH i (S j)). apply rows_from_ext.
    intros k _. by replace (S j + i)%nat with (j + S i)%nat by lia.
Qed.

Lemma delete_rows_where (i : nat) a :
  delete i a = rows_where (fun k => negb (Nat.eqb k i)) a.
Proof. apply (delete_rows_from i 0). Qed.

Lemma count_true_cons b mask :
  Np.count_true (b :: mask)
  = if b then S (Np.count_true mask) else Np.count_true mask.
Proof.
  unfold Np.count_true. rewrite filter_cons.
  destruct b; case_decide; simpl; congruence.
Qed.

Lemma length_compress mask a :
  length mask = length a -> length (Np.compress mask a) = Np.count_true mask.
Proof.
  revert a. induction mask as [|b mask IH]; intros [|v a] Hlen;
    simpl in *; try done.
  rewrite count_true_cons. destruct b; simpl; rewrite IH by lia; done.
Qed.

Lemma length_positions_from j mask :
  length (positions_from j mask) = Np.count_true mask.
Proof.
  revert j. induction mask as [|b mask IH]; intros j; simpl; [done|].
  rewrite count_true_cons. destruct b; simpl; by rewrite IH.
Qed.

(** The [i]-th selected row is the row at the [i]-th selected position. *)
Lemma compress_positions_from mask a j i k :
  length mask = length a ->
  positions_from j mask !! i = Some k ->
  (j <= k)%nat /\ mask !! (k - j)%nat = Some true
  /\ Np.compress mask a !! i = a !! (k - j)%nat.
Proof.
  revert a j i. induction mask as [|b mask IH]; intros [|v a] j i Hlen Hpos;
    simpl in *; try done.
  destruct b.
  - destruct i as [|i]; simpl in Hpos.
    + injection Hpos as <-. by rewrite Nat.sub_diag.
    + destruct (IH a (S j) i ltac:(lia) Hpos) as (Hle & Hm & Hc).
      replace (k - j)%nat with (S (k - S j)) by lia. simpl. split; [lia|done].
  - destruct (IH a (S j) i ltac:(lia) Hpos) as (Hle & Hm & Hc).
    replace (k - j)%nat with (S (k - S j)) by lia. simpl. split; [lia|done].
Qed.

Lemma compress_positions mask a i k :
  length mask = length a ->
  positions mask !! i = Some k ->
  mask !! k = Some true /\ Np.compress mask a !! i = a !! k.
Proof.
  intros Hlen Hpos.
  destruct (compress_positions_from mask a 0 i k Hlen Hpos) as (_ & Hm & Hc).
  by rewrite Nat.sub_0_r in Hm, Hc.
Qed.

(** Masked assignment: a selected position receives its value, the others
    keep theirs. *)
Lemma scatter_selected mask vals a j i k :
  length mask = length a ->
  length vals = Np.count_true mask ->
  positions_from j mask !! i = Some k ->
  Np.scatter mask vals a !! (k - j)%nat = vals !! i.
Proof.
  revert vals a j i. induction mask as [|b mask IH];
    intros vals [|old a] j i Hlen Hvals Hpos; simpl in *; try done.
  rewrite count_true_cons in Hvals.
  destruct (compress_positions_from (b :: mask) (old :: a) j i k) as (Hle & _);
    [simpl; lia|done|].
  destruct b.
  - destruct vals as [|v vals]; [done|]. simpl in Hvals.
    destruct i as [|i]; simpl in Hpos.
    + injection Hpos as <-. by rewrite Nat.sub_diag.
    + destruct (compress_positions_from mask a (S j) i k) as (Hle' & _);
        [lia|done|].
      replace (k - j)%nat with (S (k - S j)) by lia. simpl.
      apply IH; [lia|lia|done].
  - destruct (compress_positions_from mask a (S j) i k) as (Hle' & _);
      [lia|done|].
    replace (k - j)%nat with (S (k - S j)) by lia. simpl.
    apply IH; [lia|lia|done].
Qed.

Lemma scatter_unselected mask vals a k :
  mask !! k = Some false ->
  Np.scatter mask vals a !! k = a !! k.
Proof.
  revert vals a k. induction mask as [|[] mask IH]; intros vals [|old a] k Hk;
    simpl in *; try done.
  - destruct k as [|k]; [done|]. simpl in Hk.
    destruct vals as [|v vals]; simpl; by apply IH.
  - destruct k as [|k]; [done|]. simpl in Hk. simpl. by apply IH.
Qed.

Lemma length_scatter mask vals a :
  length (Np.scatter mask vals a) = length a.
Proof.
  revert vals a. induction mask as [|[] mask IH]; intros vals [|old a];
    simpl; try done.
  - destruct vals; simpl; by rewrite IH.
  - by rewrite IH.
Qed.

Lemma mask_assign_exact mask vals a :
  length mask = length a ->
  length vals = Np.count_true mask ->
  Np.mask_assign mask vals a = Ok (Np.scatter mask vals a).
Proof.
  intros Hm Hv. unfold Np.mask_assign.
  rewrite Hm, Hv, !Nat.eqb_refl. done.
Qed.

Lemma mask_index_exact mask a :
  length mask = length a ->
  Np.mask_index mask a = Ok (Np.compress mask a).
Proof. intros Hm. unfold Np.mask_index. by rewrite Hm, Nat.eqb_refl. Qed.

End NpFacts.

Lemma for_each_total {A B : Type} (f : A -> res B) (g : A -> B) (l : list A) :
  (forall a, a ∈ l -> f a = Ok (g a)) ->
  for_each f l = Ok (map g l).
Proof.
  induction l as [|a l IH]; intros Hf; simpl; [done|].
  rewrite (Hf a) by left. simpl.
  rewrite IH; [done|]. intros b Hb. apply Hf. by right.
Qed.

Lemma for_each_Forall2 {A B : Type} (f : A -> res B) (R : A -> B -> Prop)
    (l : list A) :
  (forall a, a ∈ l -> exists b, f a = Ok b /\ R a b) ->
  exists bs, for_each f l = Ok bs /\ Forall2 R l bs.
Proof.
  induction l as [|a l IH]; intros Hf; simpl.
  - exists []. by split.
  - destruct (Hf a) as (b & Hb & HR); [by left|].
    destruct IH as (bs & Hbs & HRs); [intros c Hc; apply Hf; by right|].
    exists (b :: bs). rewrite Hb, Hbs. split; [done|]. by constructor.
Qed.

Lemma invert_lookup (mask : list bool) k b :
  mask !! k = Some b -> Np.invert mask !! k = Some (negb b).
Proof. intros Hk. unfold Np.invert. by rewrite list_lookup_fmap, Hk. Qed.

Lemma length_invert (mask : list bool) : length (Np.invert mask) = length mask.
Proof. unfold Np.invert. by rewrite length_map. Qed.

Lemma fill_both_spec {A : Type} (zero : A) n (mask : list bool)
    (inside outside : list A) :
  length mask = n ->
  length inside = Np.count_true mask ->
  length outside = Np.count_true (Np.invert mask) ->
  exists out,
    fill_both zero n mask inside outside = Ok out
    /\ length out = n
    /\ (forall i k, positions mask !! i = Some k -> out !! k = inside !! i)
    /\ (forall r k, positions (Np.invert mask) !! r = Some k ->
                   out !! k = outside !! r).
Proof.
  intros Hm Hin Hout. unfold fill_both.
  rewrite mask_assign_exact by (rewrite ?length_replicate; done).
  cbn [mbind res_bind bind].
  rewrite mask_assign_exact
    by (rewrite ?length_invert, ?length_scatter, ?length_replicate; done).
  eexists. split; [done|]. split; [|split].
  - by rewrite !length_scatter, length_replicate.
  - intros i k Hpos.
    destruct (compress_positions mask mask i k eq_refl Hpos) as [Hk _].
    rewrite scatter_unselected by (by apply (invert_lookup mask k true)).
    rewrite <- (scatter_selected mask inside (replicate n zero) 0 i k);
      rewrite ?length_replicate, ?Nat.sub_0_r; done.
  - intros r k Hpos.
    rewrite <- (scatter_selected (Np.invert mask) outside
                 (Np.scatter mask inside (replicate n zero)) 0 r k);
      rewrite ?length_invert, ?length_scatter, ?length_replicate, ?Nat.sub_0_r;
      done.
Qed.

Lemma for_each_inv {A B : Type} (f : A -> res B) (l : list A) (bs : list B) :
  for_each f l = Ok bs ->
  length bs = length l
  /\ forall i a, l !! i = Some a -> exists b, bs !! i = Some b /\ f a = Ok b.
Proof.
  revert bs. induction l as [|a l IH]; intros bs Hrun; simpl in Hrun.
  - injection Hrun as <-. by split.
  - destruct (f a) as [b|e] eqn:Hb; [|done]. simpl in Hrun.
    destruct (for_each f l) as [bs'|e] eqn:Hbs; [|done]. simpl in Hrun.
    injection Hrun as <-. destruct (IH bs' eq_refl) as [Hlen Hall].
    split; [simpl; by rewrite Hlen|].
    intros [|i] a' Ha'; simpl in *.
    + injection Ha' as <-. by exists b.
    + by apply Hall.
Qed.

(** What a masked assignment that returned has written. *)
Lemma mask_assign_inv {A : Type} (mask : list bool) (vals a out : list A) :
  Np.mask_assign mask vals a = Ok out ->
  length mask = length a
  /\ exists vals',
       out = Np.scatter mask vals' a
       /\ length vals' = Np.count_true mask
       /\ (forall i v, vals' !! i = Some v -> v ∈ vals)
       /\ (length vals = Np.count_true mask -> vals' = vals).
Proof.
  unfold Np.mask_assign. intros Hrun.
  destruct (Nat.eqb_spec (length mask) (length a)) as [Hm|]; [|done].
  split; [done|]. simpl in Hrun.
  destruct (Nat.eqb_spec (length vals) (Np.count_true mask)) as [Hv|Hv].
  - injection Hrun as <-. exists vals. split; [done|]. split; [done|].
    split; [|done]. intros i v Hi. by eapply list_elem_of_lookup_2.
  - destruct vals as [|v [|? ?]]; try done. injection Hrun as <-.
    exists (replicate (Np.count_true mask) v). split; [done|].
    split; [by rewrite length_replicate|]. split; [|done].
    intros i v' Hi. apply lookup_replicate in Hi as [-> _]. left.
Qed.

Lemma fill_both_inv {A : Type} (zero : A) n (mask : list bool)
    (inside outside out : list A) :
  length mask = n ->
  length inside = Np.count_true mask ->
  fill_both zero n mask inside outside = Ok out ->
  length out = n
  /\ (forall i k, positions mask !! i = Some k -> out !! k = inside !! i)
  /\ (forall r k, positions (Np.invert mask) !! r = Some k ->
        exists v, out !! k = Some v /\ v ∈ outside
          /\ (length outside = Np.count_true (Np.invert mask) ->
              outside !! r = Some v)).
Proof.
  intros Hm Hin Hrun. unfold fill_both in Hrun.
  rewrite mask_assign_exact in Hrun by (rewrite ?length_replicate; done).
  cbn [mbind res_bind bind] in Hrun.
  apply mask_assign_inv in Hrun as (_ & vals' & -> & Hlen & Hfrom & Hsame).
  split; [by rewrite !length_scatter, length_replicate|]. split.
  - intros i k Hpos.
    destruct (compress_positions mask mask i k eq_refl Hpos) as [Hk _].
    rewrite scatter_unselected by (by apply (invert_lookup mask k true)).
    rewrite <- (scatter_selected mask inside (replicate n zero) 0 i k);
      rewrite ?length_replicate, ?Nat.sub_0_r; done.
  - intros r k Hpos.
    assert (Hr : (r < length vals')%nat).
    { rewrite Hlen, <- (length_positions_from 0). by eapply lookup_lt_Some. }
    destruct (lookup_lt_is_Some_2 vals' r Hr) as [v Hv].
    exists v. split; [|split].
    + rewrite <- Hv.
      rewrite <- (scatter_selected (Np.invert mask) vals'
                   (Np.scatter mask inside (replicate n zero)) 0 r k);
        rewrite ?length_invert, ?length_scatter, ?length_replicate,
          ?Nat.sub_0_r; done.
    + by eapply Hfrom.
    + intros Hout. by rewrite <- (Hsame Hout).
Qed.

(** The variances of a loop whose every turn returned one. *)
Lemma omap_snd_all {A B : Type} (l : list (A * option B)) :
  Forall (fun b => is_Some (snd b)) l ->
  length (omap snd l) = length l
  /\ forall i b, l !! i = Some b -> omap snd l !! i = snd b.
Proof.
  induction 1 as [|[a ob] l [v Hv] _ [IHlen IH]]; [done|].
  simpl in Hv. subst ob. split; [simpl; f_equal; exact IHlen|].
  intros [|i] b Hb; simpl in *; [by injection Hb as <-|by apply IH].
Qed.

Section PredictGpOosFacts.
Context {X Y E C P V L : Type} `{NumpyEq L}.
Variable zeroP : P.
Variable zeroV : V.
Variable _predict_gp :
  bool -> list X -> list C -> list X -> list Y -> list E -> list C ->
  res (list P * list V).

Lemma stays_self (groups : option (list L)) i :
  self_equal groups ->
  (forall g, groups = Some g -> is_Some (g !! i)) ->
  stays groups i i = false.
Proof.
  intros Hself Hi. destruct groups as [g|]; simpl.
  - destruct (Hi g eq_refl) as [gi Hgi]. rewrite Hgi.
    rewrite (Hself g gi eq_refl); [done|]. by eapply list_elem_of_lookup_2.
  - by rewrite Nat.eqb_refl.
Qed.

(** The rows that a turn keeps, when it got so far. *)
Lemma held_out_rows_inv {A : Type} (groups : option (list L)) idx
    (cond d : list A) :
  held_out_rows groups idx cond = Ok d ->
  d = rows_where (stays groups idx) cond
  /\ forall g, groups = Some g -> is_Some (g !! idx).
Proof.
  intros Hrun. destruct groups as [g|]; simpl in Hrun.
  - unfold Np.item in Hrun. destruct (g !! idx) as [gi|] eqn:Hgi; [|done].
    cbn [mbind res_bind bind] in Hrun. unfold Np.mask_index in Hrun.
    destruct (Nat.eqb_spec
                (length (Np.invert (map (fun gj => np_eq gi gj) g)))
                (length cond)) as [Hlen|]; [|done].
    injection Hrun as <-. split; [|intros g' [= <-]; by eexists].
    rewrite compress_rows_where by done.
    apply rows_from_ext. intros k [_ Hk]. simpl in Hk.
    rewrite length_invert, length_map in Hlen.
    destruct (lookup_lt_is_Some_2 g k) as [gk Hgk]; [lia|].
    unfold Np.invert. rewrite !list_lookup_fmap, Hgk. simpl.
    by rewrite Hgi, Hgk.
  - unfold Np.delete in Hrun.
    destruct (idx <? length cond)%nat; [|done]. injection Hrun as <-.
    split; [by rewrite delete_rows_where|done].
Qed.

Lemma held_out_rows_spec {A : Type} (groups : option (list L)) idx (cond : list A) :
  (idx < length cond)%nat ->
  (forall g, groups = Some g -> length g = length cond) ->
  held_out_rows groups idx cond = Ok (rows_where (stays groups idx) cond).
Proof.
  intros Hidx Hg.
  destruct (held_out_rows groups idx cond) as [d|e] eqn:Hrun.
  - by apply held_out_rows_inv in Hrun as [-> _].
  - exfalso. destruct groups as [g|]; simpl in Hrun.
    + specialize (Hg g eq_refl).
      destruct (lookup_lt_is_Some_2 g idx) as [gi Hgi]; [lia|].
      unfold Np.item in Hrun. rewrite Hgi in Hrun.
      cbn [mbind res_bind bind] in Hrun.
      by rewrite mask_index_exact in Hrun
        by (rewrite length_invert, length_map; done).
    + unfold Np.delete in Hrun.
      by replace (idx <? length cond)%nat with true in Hrun
        by (symmetry; apply Nat.ltb_lt; lia).
Qed.

(** What one turn of the loop over the conditioning sample appends. *)
Lemma oos_step_inv return_var (groups : option (list L))
    (cond_x : list X) (cond_y : list Y) (cond_yerr : list E)
    (cond_color : list C) idx p ov :
  oos_step _predict_gp return_var groups cond_x cond_y cond_yerr cond_color idx
  = Ok (p, ov) ->
  exists xi ci,
    cond_x !! idx = Some xi /\ cond_color !! idx = Some ci
    /\ (forall g, groups = Some g -> is_Some (g !! idx))
    /\ prediction 0 (_predict_gp return_var [xi] [ci]
                       (rows_where (stays groups idx) cond_x)
                       (rows_where (stays groups idx) cond_y)
                       (rows_where (stays groups idx) cond_yerr)
                       (rows_where (stays groups idx) cond_color)) = Some p
    /\ (if return_var
        then exists v,
               ov = Some v
               /\ variance 0 (_predict_gp return_var [xi] [ci]
                                (rows_where (stays groups idx) cond_x)
                                (rows_where (stays groups idx) cond_y)
                                (rows_where (stays groups idx) cond_yerr)
                                (rows_where (stays groups idx) cond_color))
                  = Some v
        else ov = None).
Proof.
  unfold oos_step. intros Hrun.
  destruct (held_out_rows groups idx cond_x) as [dx|e] eqn:Hdx; [|done].
  destruct (held_out_rows groups idx cond_y) as [dy|e] eqn:Hdy; [|done].
  destruct (held_out_rows groups idx cond_yerr) as [de|e] eqn:Hde; [|done].
  destruct (held_out_rows groups idx cond_color) as [dc|e] eqn:Hdc; [|done].
  cbn [mbind res_bind bind] in Hrun.
  apply held_out_rows_inv in Hdx as [-> Hg].
  apply held_out_rows_inv in Hdy as [-> _].
  apply held_out_rows_inv in Hde as [-> _].
  apply held_out_rows_inv in Hdc as [-> _].
  unfold Np.item in Hrun.
  destruct (cond_x !! idx) as [xi|] eqn:Hxi; [|done].
  destruct (cond_color !! idx) as [ci|] eqn:Hci; [|done].
  cbn [mbind res_bind bind] in Hrun.
  exists xi, ci. split; [done|]. split; [done|]. split; [done|].
  destruct (_predict_gp return_var [xi] [ci] _ _ _ _) as [[ps vs]|e]; [|done].
  cbn [mbind res_bind bind fst snd prediction variance] in *.
  destruct return_var.
  - destruct (ps !! 0%nat) as [p0|]; [|done].
    destruct (vs !! 0%nat) as [v0|]; [|done].
    cbn [mbind res_bind bind] in Hrun. injection Hrun as <- <-.
    split; [done|]. by exists v0.
  - destruct (ps !! 0%nat) as [p0|]; [|done].
    cbn [mbind res_bind bind] in Hrun. by injection Hrun as <- <-.
Qed.

(** The loop over the conditioning sample, when it returned. *)
Lemma oos_loop_inv return_var (groups : option (list L))
    (cond_x : list X) (cond_y : list Y) (cond_yerr : list E)
    (cond_color : list C) (cond : list (P * option V)) :
  for_each (oos_step _predict_gp return_var groups cond_x cond_y cond_yerr
              cond_color) (seq 0 (length cond_x)) = Ok cond ->
  length (map fst cond) = length cond_x
  /\ (return_var = true -> length (omap snd cond) = length cond_x)
  /\ forall i, (i < length cond_x)%nat ->
       exists xi ci p,
         cond_x !! i = Some xi /\ cond_color !! i = Some ci
         /\ map fst cond !! i = Some p
         /\ (forall g, groups = Some g -> is_Some (g !! i))
         /\ prediction 0 (_predict_gp return_var [xi] [ci]
                            (rows_where (stays groups i) cond_x)
                            (rows_where (stays groups i) cond_y)
                            (rows_where (stays groups i) cond_yerr)
                            (rows_where (stays groups i) cond_color)) = Some p
         /\ (return_var = true ->
             exists v,
               omap snd cond !! i = Some v
               /\ variance 0 (_predict_gp return_var [xi] [ci]
                                (rows_where (stays groups i) cond_x)
                                (rows_where (stays groups i) cond_y)
                                (rows_where (stays groups i) cond_yerr)
                                (rows_where (stays groups i) cond_color))
                  = Some v).
Proof.
  intros Hrun. apply for_each_inv in Hrun as [Hlen Hall].
  rewrite length_seq in Hlen.
  assert (Hturn : forall i b, cond !! i = Some b ->
            oos_step _predict_gp return_var groups cond_x cond_y cond_yerr
              cond_color i = Ok b).
  { intros i b Hb.
    assert (Hi : (i < length cond_x)%nat)
      by (rewrite <- Hlen; by eapply lookup_lt_Some).
    destruct (Hall i i) as (b' & Hb' & Hstep); [by apply lookup_seq|].
    congruence. }
  assert (Hsome : return_var = true ->
            Forall (fun b : P * option V => is_Some (snd b)) cond).
  { intros ->. apply Forall_lookup. intros i [p ov] Hb.
    apply Hturn, oos_step_inv in Hb
      as (xi & ci & _ & _ & _ & _ & v & -> & _). by eexists. }
  split; [by rewrite length_map|]. split.
  - intros Hrv. destruct (omap_snd_all cond (Hsome Hrv)) as [Hl _]. lia.
  - intros i Hi.
    destruct (lookup_lt_is_Some_2 cond i) as [[p ov] Hb]; [lia|].
    destruct (oos_step_inv _ _ _ _ _ _ _ _ _ (Hturn i _ Hb))
      as (xi & ci & Hxi & Hci & Hg & Hp & Hv).
    exists xi, ci, p. split; [done|]. split; [done|].
    split; [by rewrite list_lookup_fmap, Hb|]. split; [done|].
    split; [done|]. intros Hrv. subst return_var.
    destruct Hv as (v & -> & Hv). exists v. split; [|done].
    destruct (omap_snd_all cond (Hsome eq_refl)) as [_ Hl].
    by rewrite (Hl i _ Hb).
Qed.

(** What a call that returned has computed. *)
Lemma predict_gp_oos_inv
    (x : list X) (y : list Y) (yerr : list E) (color : color_arg)
    (condition_mask : option (list bool)) (return_var : bool)
    (groups : option (list L)) (preds : list P) (vars : option (list V)) :
  let n := length x in
  let colors := broadcast_color n color in
  let mask := effective_mask n condition_mask in
  let cond_x := Np.compress mask x in
  let cond_y := Np.compress mask y in
  let cond_yerr := Np.compress mask yerr in
  let cond_color := Np.compress mask colors in
  let batch :=
    _predict_gp return_var (Np.compress (Np.invert mask) x)
      (Np.compress (Np.invert mask) colors)
      cond_x cond_y cond_yerr cond_color in
  length y = n -> length yerr = n -> length colors = n -> length mask = n ->
  self_equal groups ->
  _predict_gp_oos zeroP zeroV _predict_gp x y yerr color condition_mask
    return_var groups = Ok (preds, vars) ->
  length preds = n
  /\ (forall i k,
        positions mask !! i = Some k ->
        stays groups i i = false
        /\ exists xk ck p,
             x !! k = Some xk /\ colors !! k = Some ck
             /\ preds !! k = Some p
             /\ prediction 0 (_predict_gp return_var [xk] [ck]
                                (rows_where (stays groups i) cond_x)
                                (rows_where (stays groups i) cond_y)
                                (rows_where (stays groups i) cond_yerr)
                                (rows_where (stays groups i) cond_color))
                = Some p
             /\ (return_var = true ->
                 exists vs v,
                   vars = Some vs /\ vs !! k = Some v
                   /\ variance 0 (_predict_gp return_var [xk] [ck]
                                    (rows_where (stays groups i) cond_x)
                                    (rows_where (stays groups i) cond_y)
                                    (rows_where (stays groups i) cond_yerr)
                                    (rows_where (stays groups i) cond_color))
                      = Some v))
  /\ (forall r k,
        positions (Np.invert mask) !! r = Some k ->
        exists p,
          preds !! k = Some p
          /\ p ∈ predictions batch
          /\ (length (predictions batch) = Np.count_true (Np.invert mask) ->
              prediction r batch = Some p)).
Proof.
  intros n colors mask cond_x cond_y cond_yerr cond_color batch
    Hy He Hc Hm Hself Hrun.
  assert (Hcx : length cond_x = Np.count_true mask)
    by (apply length_compress; lia).
  unfold _predict_gp_oos in Hrun. fold n in Hrun. fold colors in Hrun.
  (* The conditioning rows. *)
  assert (Hcond :
    match condition_mask with
    | None => Ok (x, y, yerr, colors)
    | Some m =>
        cx ← Np.mask_index m x; cy ← Np.mask_index m y;
        ce ← Np.mask_index m yerr; cc ← Np.mask_index m colors;
        Ok (cx, cy, ce, cc)
    end = Ok (cond_x, cond_y, cond_yerr, cond_color)).
  { subst cond_x cond_y cond_yerr cond_color mask.
    destruct condition_mask as [m|]; cbn [effective_mask] in *.
    - by rewrite !mask_index_exact by lia.
    - rewrite <- Hy at 2. rewrite <- He at 2. rewrite <- Hc at 2.
      unfold n. by rewrite !compress_all_true. }
  rewrite Hcond in Hrun. cbn [mbind res_bind bind] in Hrun.
  destruct (for_each _ (seq 0 (length cond_x))) as [cond|e] eqn:Hloop;
    [|done].
  cbn [mbind res_bind bind] in Hrun.
  destruct (oos_loop_inv _ _ _ _ _ _ _ Hloop) as (Hlp & Hlv & Hturn).
  (* The i-th conditioning row lies at position k of the sample. *)
  assert (Hrow : forall i k,
            positions mask !! i = Some k ->
            (i < length cond_x)%nat
            /\ cond_x !! i = x !! k /\ cond_color !! i = colors !! k).
  { intros i k Hpos.
    destruct (compress_positions mask x i k ltac:(lia) Hpos) as [_ Hxi].
    destruct (compress_positions mask colors i k ltac:(lia) Hpos) as [_ Hci].
    split; [|done]. rewrite Hcx, <- (length_positions_from 0).
    by eapply lookup_lt_Some. }
  destruct condition_mask as [m|]; subst mask; cbn [effective_mask] in *.
  - (* A conditioning mask was given. *)
    rewrite !mask_index_exact in Hrun by (rewrite ?length_invert; lia).
    cbn [mbind res_bind bind] in Hrun. fold batch in Hrun.
    destruct batch as [[ops ovs]|e] eqn:Hbatch; [|done].
    cbn [mbind res_bind bind fst snd] in Hrun.
    destruct (if return_var then _ else _) as [all_vars|e] eqn:Hvars; [|done].
    cbn [mbind res_bind bind] in Hrun.
    destruct (fill_both zeroP n m (map fst cond) ops) as [all_preds|e]
      eqn:Hfill; [|done].
    cbn [mbind res_bind bind] in Hrun. injection Hrun as <- <-.
    destruct (fill_both_inv zeroP n m (map fst cond) ops all_preds)
      as (Hlen & Hin & Hout); [lia|lia|done|].
    split; [done|]. split.
    + intros i k Hpos. destruct (Hrow i k Hpos) as (Hi & Hxi & Hci).
      destruct (Hturn i Hi)
        as (xi & ci & p & Hx & Hcc & Hp & Hg & Hpred & Hvar).
      split; [by apply stays_self|].
      exists xi, ci, p. split; [congruence|]. split; [congruence|].
      split; [by rewrite (Hin i k Hpos)|]. split; [done|].
      intros Hrv. destruct (Hvar Hrv) as (v & Hv & Hvv). subst return_var.
      destruct (fill_both_inv zeroV n m (omap snd cond) ovs all_vars)
        as (_ & Hvin & _); [lia|rewrite Hlv by done; lia|done|].
      exists all_vars, v. split; [done|]. split; [|done].
      by rewrite (Hvin i k Hpos).
    + intros r k Hpos. cbn [predictions prediction].
      destruct (Hout r k Hpos) as (v & Hv & Hfrom & Hat).
      exists v. split; [done|]. split; [done|].
      intros Hlenb. by apply Hat.
  - (* No mask: the whole sample is the conditioning subset. *)
    assert (Hx : cond_x = x) by apply compress_all_true.
    injection Hrun as <- <-.
    split; [by rewrite Hlp, Hx|]. split.
    + intros i k Hpos. destruct (Hrow i k Hpos) as (Hi & Hxi & Hci).
      apply positions_from_all_true in Hpos as ->. simpl.
      destruct (Hturn i Hi)
        as (xi & ci & p & Hxx & Hcc & Hp & Hg & Hpred & Hvar).
      split; [by apply stays_self|].
      exists xi, ci, p. split; [congruence|]. split; [congruence|].
      split; [done|]. split; [done|].
      intros Hrv. destruct (Hvar Hrv) as (v & Hv & Hvv). subst return_var.
      by exists (omap snd cond), v.
    + intros r k Hpos. unfold positions in Hpos.
      by rewrite positions_from_none_false in Hpos.
Qed.

(** The call returns when the arrays have one length, the labels have the
    length of the conditioning subset and the Gaussian process gives one
    prediction and one variance for every query row. *)
Lemma predict_gp_oos_returns
    (x : list X) (y : list Y) (yerr : list E) (color : color_arg)
    (condition_mask : option (list bool)) (return_var : bool)
    (groups : option (list L)) :
  let n := length x in
  let colors := broadcast_color n color in
  let mask := effective_mask n condition_mask in
  (forall rv qx qc cx cy ce cc,
     exists ps vs,
       _predict_gp rv qx qc cx cy ce cc = Ok (ps, vs)
       /\ length ps = length qx /\ length vs = length qx) ->
  length y = n -> length yerr = n -> length colors = n -> length mask = n ->
  (forall g, groups = Some g -> length g = Np.count_true mask) ->
  exists preds vars,
    _predict_gp_oos zeroP zeroV _predict_gp x y yerr color condition_mask
      return_var groups = Ok (preds, vars).
Proof.
  intros n colors mask Hgp Hy He Hc Hm Hg.
  set (cond_x := Np.compress mask x). set (cond_y := Np.compress mask y).
  set (cond_yerr := Np.compress mask yerr).
  set (cond_color := Np.compress mask colors).
  assert (Hcx : length cond_x = Np.count_true mask)
    by (apply length_compress; lia).
  assert (Hcy : length cond_y = Np.count_true mask)
    by (apply length_compress; lia).
  assert (Hce : length cond_yerr = Np.count_true mask)
    by (apply length_compress; lia).
  assert (Hcc : length cond_color = Np.count_true mask)
    by (apply length_compress; lia).
  destruct (for_each_Forall2
    (oos_step _predict_gp return_var groups cond_x cond_y cond_yerr cond_color)
    (fun i (b : P * option V) => return_var = true -> is_Some (snd b))
    (seq 0 (length cond_x))) as (cond & Hloop & HR).
  { intros i Hi. apply elem_of_seq in Hi.
    destruct (lookup_lt_is_Some_2 cond_x i) as [xi Hxi]; [lia|].
    destruct (lookup_lt_is_Some_2 cond_color i) as [ci Hci]; [lia|].
    unfold oos_step.
    rewrite !held_out_rows_spec
      by (rewrite ?Hcx, ?Hcy, ?Hce, ?Hcc; first [lia | done]).
    unfold Np.item. rewrite Hxi. cbn [mbind res_bind bind].
    rewrite Hci. cbn [mbind res_bind bind].
    destruct (Hgp return_var [xi] [ci]
                (rows_where (stays groups i) cond_x)
                (rows_where (stays groups i) cond_y)
                (rows_where (stays groups i) cond_yerr)
                (rows_where (stays groups i) cond_color))
      as (ps & vs & -> & Hp & Hv).
    cbn [mbind res_bind bind fst snd].
    destruct ps as [|p ps]; [done|]. destruct vs as [|v vs]; [done|].
    destruct return_var; simpl; eexists; (split; [done|]); [by eexists|done]. }
  pose proof (Forall2_length _ _ _ HR) as Hlen. rewrite length_seq in Hlen.
  assert (Hlv : return_var = true -> length (omap snd cond) = length cond).
  { intros Hrv. apply omap_snd_all, Forall_lookup. intros i b Hb.
    destruct (Forall2_lookup_r _ _ _ i b HR Hb) as (j & _ & Hsome).
    by apply Hsome. }
  unfold _predict_gp_oos. fold n. fold colors.
  destruct condition_mask as [m|]; subst mask; cbn [effective_mask] in *.
  - rewrite !mask_index_exact by (rewrite ?length_invert; lia).
    cbn [mbind res_bind bind].
    fold cond_x cond_y cond_yerr cond_color. rewrite Hloop.
    cbn [mbind res_bind bind].
    destruct (Hgp return_var
                (Np.compress (Np.invert m) x) (Np.compress (Np.invert m) colors)
                cond_x cond_y cond_yerr cond_color)
      as (ops & ovs & Hother & Hop & Hov).
    rewrite Hother. cbn [mbind res_bind bind fst snd].
    rewrite length_compress in Hop, Hov by (rewrite length_invert; lia).
    destruct (fill_both_spec zeroP n m (map fst cond) ops)
      as (preds & Hfill & _); [lia|rewrite length_map; lia|done|].
    assert (Hvars : exists vars,
              (if return_var
               then fill_both zeroV n m (omap snd cond) ovs
               else Ok (replicate n zeroV)) = Ok vars).
    { destruct return_var; [|by eexists].
      destruct (fill_both_spec zeroV n m (omap snd cond) ovs)
        as (vars & Hv & _); [lia|rewrite Hlv by done; lia|done|].
      by exists vars. }
    destruct Hvars as (vars & ->). cbn [mbind res_bind bind].
    rewrite Hfill. cbn [mbind res_bind bind]. by eexists _, _.
  - assert (Hx : cond_x = x) by apply compress_all_true.
    assert (Hyy : cond_y = y)
      by (unfold cond_y; rewrite <- Hy; apply compress_all_true).
    assert (Hee : cond_yerr = yerr)
      by (unfold cond_yerr; rewrite <- He; apply compress_all_true).
    assert (Hccc : cond_color = colors)
      by (unfold cond_color; rewrite <- Hc; apply compress_all_true).
    cbn [mbind res_bind bind].
    rewrite Hx, Hyy, Hee, Hccc in Hloop. rewrite Hloop.
    cbn [mbind res_bind bind]. by eexists _, _.
Qed.

(** C1, as the code has it.  The sample's arrays have one length and the
    group labels, if any, are equal to themselves (no NaN).  The call
    returns whenever the labels have the length of the conditioning subset
    and the Gaussian process returns one prediction and one variance for
    every query row.  Whenever the call returns, whatever the Gaussian
    process is: the prediction at a point of the conditioning subset is the
    first prediction of a Gaussian process queried at that point and
    conditioned on the other rows of the subset only, without labels every
    row but the point's own, with labels every row whose label is not
    equal to the point's, never the point's own row; with [return_var]
    its variance comes from the same call.  A point outside the subset
    takes its prediction from the single batch call conditioned on the
    whole subset, at its place in the batch when that call gave one
    prediction for every query row. *)
Theorem predict_gp_oos_no_self_prediction
    (x : list X) (y : list Y) (yerr : list E) (color : color_arg)
    (condition_mask : option (list bool)) (return_var : bool)
    (groups : option (list L)) :
  let n := length x in
  let colors := broadcast_color n color in
  let mask := effective_mask n condition_mask in
  let cond_x := Np.compress mask x in
  let cond_y := Np.compress mask y in
  let cond_yerr := Np.compress mask yerr in
  let cond_color := Np.compress mask colors in
  let batch :=
    _predict_gp return_var (Np.compress (Np.invert mask) x)
      (Np.compress (Np.invert mask) colors)
      cond_x cond_y cond_yerr cond_color in
  let run :=
    _predict_gp_oos zeroP zeroV _predict_gp x y yerr color condition_mask
      return_var groups in
  length y = n -> length yerr = n -> length colors = n -> length mask = n ->
  self_equal groups ->
  ((forall g, groups = Some g -> length g = length cond_x) ->
   (forall rv qx qc cx cy ce cc,
      exists ps vs,
        _predict_gp rv qx qc cx cy ce cc = Ok (ps, vs)
        /\ length ps = length qx /\ length vs = length qx) ->
   exists preds vars, run = Ok (preds, vars))
  /\ forall preds vars,
       run = Ok (preds, vars) ->
       length preds = n
       /\ (forall i k,
             positions mask !! i = Some k ->
             stays groups i i = false
             /\ exists xk ck p,
                  x !! k = Some xk /\ colors !! k = Some ck
                  /\ preds !! k = Some p
                  /\ prediction 0 (_predict_gp return_var [xk] [ck]
                                     (rows_where (stays groups i) cond_x)
                                     (rows_where (stays groups i) cond_y)
                                     (rows_where (stays groups i) cond_yerr)
                                     (rows_where (stays groups i) cond_color))
                     = Some p
                  /\ (return_var = true ->
                      exists vs v,
                        vars = Some vs /\ vs !! k = Some v
                        /\ variance 0
                             (_predict_gp return_var [xk] [ck]
                                (rows_where (stays groups i) cond_x)
                                (rows_where (stays groups i) cond_y)
                                (rows_where (stays groups i) cond_yerr)
                                (rows_where (stays groups i) cond_color))
                           = Some v))
       /\ (forall r k,
             positions (Np.invert mask) !! r = Some k ->
             exists p,
               preds !! k = Some p
               /\ p ∈ predictions batch
               /\ (length (predictions batch)
                   = Np.count_true (Np.invert mask) ->
                   prediction r batch = Some p)).
Proof.
  intros n colors mask cond_x cond_y cond_yerr cond_color batch run
    Hy He Hc Hm Hself.
  split.
  - intros Hg Hgp.
    apply predict_gp_oos_returns; try done.
    intros g Hgg. rewrite (Hg g Hgg). apply length_compress. exact Hm.
  - intros preds vars Hrun.
    by apply (predict_gp_oos_inv x y yerr color condition_mask return_var
                groups preds vars Hy He Hc Hm Hself Hrun).
Qed.

End PredictGpOosFacts.

Lemma toy_gp_returns rv qx qc cx cy ce cc :
  exists ps vs,
    toy_gp rv qx qc cx cy ce cc = Ok (ps, vs)
    /\ length ps = length qx /\ length vs = length qx.
Proof. eexists _, _. split; [done|]. by rewrite !length_map. Qed.

(** Two groups of duplicated points: leaving one point out and leaving its
    group out condition on different rows. *)
Example oos_leave_one_out :
  _predict_gp_oos 0 0 toy_gp [1; 1; 2; 2] [10; 20; 30; 40] [0; 0; 0; 0]
    (ColorScalar 0) None false (@None (list nat))
  = Ok ([90; 80; 70; 60], None).
Proof. reflexivity. Qed.

Example oos_leave_group_out :
  _predict_gp_oos 0 0 toy_gp [1; 1; 2; 2] [10; 20; 30; 40] [0; 0; 0; 0]
    (ColorScalar 0) None false (Some [7; 7; 8; 8]%nat)
  = Ok ([70; 70; 30; 30], None).
Proof. reflexivity. Qed.

(** With a conditioning mask the points outside it are predicted from the
    whole conditioning subset. *)
Example oos_with_mask :
  _predict_gp_oos 0 0 toy_gp [1; 1; 2; 2; 5] [10; 20; 30; 40; 50]
    [0; 0; 0; 0; 0] (ColorScalar 0) (Some [true; true; false; true; false])
    true (Some [7; 7; 8]%nat)
  = Ok ([40; 40; 70; 30; 70], Some [0; 0; 0; 0; 0]).
Proof. reflexivity. Qed.

(** The labels are read at positions of the conditioning subset: labels
    given for the whole sample do not fit a strict subset. *)
Example oos_labels_of_whole_sample :
  _predict_gp_oos 0 0 toy_gp [1; 1; 2; 2; 5] [10; 20; 30; 40; 50]
    [0; 0; 0; 0; 0] (ColorScalar 0) (Some [true; true; false; true; false])
    true (Some [7; 7; 8; 8; 9]%nat)
  = Raise IndexError.
Proof. reflexivity. Qed.

(** Without labels the arrays are cut one row at a time: an array shorter
    than the embedding stops the loop. *)
Example oos_short_magnitudes :
  _predict_gp_oos 0 0 toy_gp [1; 1; 2] [10; 20] [0; 0; 0]
    (ColorScalar 0) None false (@None (list nat))
  = Raise IndexError.
Proof. reflexivity. Qed.

(** C1 as stated fails for labels that are NaN: a NaN is equal to no
    label, itself included, so the rows labelled NaN stay in the
    conditioning set of their own prediction. *)
Lemma oos_nan_label_keeps_own_row :
  let labels := Some [F64.nan; F64.nan; F64.one; F64.one] in
  _predict_gp_oos 0 0 toy_gp [1; 1; 2; 2] [10; 20; 30; 40] [0; 0; 0; 0]
    (ColorScalar 0) None false labels
  = Ok ([100; 100; 30; 30], None)
  /\ held_out_rows labels 0 [10; 20; 30; 40] = Ok [10; 20; 30; 40]
  /\ stays labels 0 0 = true
  /\ toy_gp false [1] [0] [1; 1; 2; 2] [10; 20; 30; 40] [0; 0; 0; 0]
       [0; 0; 0; 0] = Ok ([100], [0]).
Proof. by vm_compute. Qed.

(** The predictor of the analysis itself, with stand-ins for george: it
    raises when the hyperparameters are too few, and the call raises with
    it. *)
Example oos_with_predict_gp :
  let x := [[F64.zero]; [F64.one]; [F64.of_Z 2]] in
  let y := [F64.one; F64.of_Z 2; F64.of_Z 3] in
  let one := [F64.one; F64.one; F64.one] in
  let zero := [F64.zero; F64.zero; F64.zero] in
  _predict_gp_oos F64.zero F64.zero (_predict_gp toy_hyperparameters false)
    x y one (ColorArray zero) (Some [true; true; false]) true
    (Some [7; 7]%nat)
  = Ok (zero, Some zero)
  /\ _predict_gp_oos F64.zero F64.zero
       (_predict_gp [F64.zero; F64.one; F64.one] false)
       x y one (ColorArray zero) (Some [true; true; false]) true
       (Some [7; 7]%nat)
     = Raise IndexError.
Proof. by vm_compute. Qed.

Lemma predict_gp_oos_no_self_prediction_witness :
  let x := [[F64.zero]; [F64.one]; [F64.of_Z 2]] in
  let y := [F64.one; F64.of_Z 2; F64.of_Z 3] in
  let one := [F64.one; F64.one; F64.one] in
  let zero := [F64.zero; F64.zero; F64.zero] in
  let mask := [true; true; false] in
  let groups := Some [7; 7]%nat in
  (length y = length x /\ length one = length x /\ length zero = length x
   /\ length mask = length x
   /\ self_equal groups
   /\ _predict_gp_oos F64.zero F64.zero
        (_predict_gp toy_hyperparameters false) x y one (ColorArray zero)
        (Some mask) true groups
      = Ok (zero, Some zero))
  /\ length zero = length x
  /\ stays groups 0 0 = false.
Proof.
  intros x y one zero mask groups.
  assert (Hself : self_equal groups).
  { intros g l [= <-] _. apply Nat.eqb_refl. }
  assert (Hrun : _predict_gp_oos F64.zero F64.zero
                   (_predict_gp toy_hyperparameters false) x y one
                   (ColorArray zero) (Some mask) true groups
                 = Ok (zero, Some zero))
    by (by vm_compute).
  split.
  - exact (conj eq_refl (conj eq_refl (conj eq_refl (conj eq_refl
             (conj Hself Hrun))))).
  - destruct (predict_gp_oos_no_self_prediction F64.zero F64.zero
                (_predict_gp toy_hyperparameters false) x y one
                (ColorArray zero) (Some mask) true groups
                eq_refl eq_refl eq_refl eq_refl Hself)
      as (_ & Hsound).
    destruct (Hsound zero (Some zero) Hrun) as (Hlen & Hin & _).
    split; [exact Hlen|]. exact (proj1 (Hin 0%nat 0%nat eq_refl)).
Defined.

(** ** Running methods *)

Lemma bind_Ok {A B : Type} (m : M A) (k : A -> M B) w a w1 :
  m w = (Ok a, w1) -> (m ≫= k) w = k a w1.
Proof. intros Hm. unfold mbind, M_bind. by rewrite Hm. Qed.

Lemma bind_Raise {A B : Type} (m : M A) (k : A -> M B) w e w1 :
  m w = (Raise e, w1) -> (m ≫= k) w = (Raise e, w1).
Proof. intros Hm. unfold mbind, M_bind. by rewrite Hm. Qed.

Lemma bind_inv {A B : Type} (m : M A) (k : A -> M B) w b w2 :
  (m ≫= k) w = (Ok b, w2) ->
  exists a w1, m w = (Ok a, w1) /\ k a w1 = (Ok b, w2).
Proof.
  unfold mbind, M_bind. destruct (m w) as [[a|e] w1]; intros Hk; [|done].
  by exists a, w1.
Qed.

Lemma getattr_None name w :
  attrs w !! name = None -> getattr name w = (Raise (AttributeError name), w).
Proof. intros Hn. unfold getattr. by rewrite Hn. Qed.

Lemma getattr_cases name w :
  getattr name w = (Raise (AttributeError name), w)
  \/ exists v, getattr name w = (Ok v, w).
Proof. unfold getattr. destruct (attrs w !! name); eauto. Qed.

Lemma getattr_Ok name w v :
  attrs w !! name = Some v -> getattr name w = (Ok v, w).
Proof. intros Hn. unfold getattr. by rewrite Hn. Qed.

Lemma getarr_Ok name w l a :
  attrs w !! name = Some (VArr l) -> heap w !! l = Some a ->
  getarr name w = (Ok a, w).
Proof.
  intros Hn Hl. unfold getarr.
  rewrite (bind_Ok _ _ _ _ _ (getattr_Ok _ _ _ Hn)).
  rewrite (bind_Ok (as_arr (VArr l)) _ w l w eq_refl).
  unfold deref. by rewrite Hl.
Qed.

(** ** Results in the heap and in the cache *)

Lemma with_heap_with_heap f g w :
  with_heap f (with_heap g w) = with_heap (fun h => f (g h)) w.
Proof. by destruct w. Qed.

Lemma thaw_result_spec stored w :
  exists r,
    thaw_result stored w = (Ok r, with_heap (fun h => h ++ map snd stored) w)
    /\ holds (heap w ++ map snd stored) r stored.
Proof.
  revert w. induction stored as [|[k a] stored IH]; intros w.
  - exists []. split; [|constructor].
    destruct w. unfold with_heap. simpl. by rewrite app_nil_r.
  - destruct (IH (with_heap (fun h => h ++ [a]) w)) as (r & Hr & Hholds).
    exists ((k, length (heap w)) :: r). split.
    + simpl. unfold mbind, M_bind, alloc. rewrite Hr.
      rewrite with_heap_with_heap. simpl. unfold mret, M_ret.
      f_equal. destruct w. unfold with_heap. simpl.
      by rewrite <- app_assoc.
    + simpl in Hholds. rewrite <- app_assoc in Hholds. simpl in Hholds.
      constructor; [|done]. split; [done|]. simpl.
      rewrite lookup_app_r by lia. by rewrite Nat.sub_diag.
Qed.

Lemma holds_app h t r stored : holds h r stored -> holds (h ++ t) r stored.
Proof.
  intros Hh. eapply Forall2_impl; [exact Hh|].
  intros [k l] [k' a] [Hk Hl]. split; [done|]. simpl in *.
  by apply lookup_app_l_Some.
Qed.

Lemma freeze_holds w r stored :
  holds (heap w) r stored -> freeze_result r w = (Ok stored, w).
Proof.
  induction 1 as [|[k l] [k' a] r stored [Hk Hl] _ IH]; [done|].
  simpl in *. subst k'. unfold mbind, M_bind, deref. rewrite Hl, IH. done.
Qed.

Lemma freeze_world_snd r w : snd (freeze_result r w) = w.
Proof.
  induction r as [|[k l] r IH]; simpl; [done|].
  unfold mbind, M_bind, deref. destruct (heap w !! l); [|done].
  destruct (freeze_result r w) as [[s|e] w1]; simpl in *; by subst.
Qed.

Lemma freeze_world r w x w' : freeze_result r w = (x, w') -> w' = w.
Proof. intros Hrun. by rewrite <- (freeze_world_snd r w), Hrun. Qed.

Lemma holds_assoc_result h r stored key l :
  holds h r stored -> assoc key r = Some l ->
  exists a, assoc key stored = Some a /\ h !! l = Some a.
Proof.
  induction 1 as [|[k l'] [k' a] r stored [Hk Hl] _ IH]; [done|].
  simpl in *. subst k'. destruct (String.eqb k key); [|done].
  intros [= <-]. by exists a.
Qed.

Lemma holds_assoc_stored h r stored key a :
  holds h r stored -> assoc key stored = Some a ->
  exists l, assoc key r = Some l /\ h !! l = Some a.
Proof.
  induction 1 as [|[k l] [k' a'] r stored [Hk Hl] _ IH]; [done|].
  simpl in *. subst k'. destruct (String.eqb k key); [|done].
  intros [= <-]. by exists l.
Qed.

(** What a statement that returned tells about the world before it. *)
Lemma getattr_inv name w v w' :
  getattr name w = (Ok v, w') -> w' = w /\ attrs w !! name = Some v.
Proof. unfold getattr. destruct (attrs w !! name); naive_solver. Qed.

Lemma deref_inv l w a w' :
  deref l w = (Ok a, w') -> w' = w /\ heap w !! l = Some a.
Proof. unfold deref. destruct (heap w !! l); naive_solver. Qed.

Lemma lift_inv {A : Type} (r : res A) w a w' :
  lift r w = (Ok a, w') -> r = Ok a /\ w' = w.
Proof. unfold lift. naive_solver. Qed.

Lemma as_arr_inv v w l w' : as_arr v w = (Ok l, w') -> v = VArr l /\ w' = w.
Proof. destruct v; unfold as_arr, raise, mret, M_ret; naive_solver. Qed.

Lemma as_str_inv v w s w' : as_str v w = (Ok s, w') -> v = VStr s /\ w' = w.
Proof. destruct v; unfold as_str, raise, mret, M_ret; naive_solver. Qed.

Lemma as_floats_inv a w l w' :
  as_floats a w = (Ok l, w') -> a = Floats l /\ w' = w.
Proof. destruct a; unfold as_floats, raise, mret, M_ret; naive_solver. Qed.

Lemma as_bools_inv a w l w' :
  as_bools a w = (Ok l, w') -> a = Bools l /\ w' = w.
Proof. destruct a; unfold as_bools, raise, mret, M_ret; naive_solver. Qed.

Lemma as_floats2_inv a w l w' :
  as_floats2 a w = (Ok l, w') -> a = Floats2 l /\ w' = w.
Proof. destruct a; unfold as_floats2, raise, mret, M_ret; naive_solver. Qed.

Lemma as_targets_inv v w ts w' :
  as_targets v w = (Ok ts, w') -> v = VTargets ts /\ w' = w.
Proof. destruct v; unfold as_targets, raise, mret, M_ret; naive_solver. Qed.

Lemma as_spectra_inv v w ss w' :
  as_spectra v w = (Ok ss, w') -> v = VSpectra ss /\ w' = w.
Proof. destruct v; unfold as_spectra, raise, mret, M_ret; naive_solver. Qed.

Lemma as_dict_inv v w d w' :
  as_dict v w = (Ok d, w') -> v = VDict d /\ w' = w.
Proof. destruct v; unfold as_dict, raise, mret, M_ret; naive_solver. Qed.

Lemma dict_get_inv d key w l w' :
  dict_get d key w = (Ok l, w') -> assoc key d = Some l /\ w' = w.
Proof.
  unfold dict_get. destruct (assoc key d); unfold raise, mret, M_ret;
    naive_solver.
Qed.

Lemma dict_get_Ok d key w l :
  assoc key d = Some l -> dict_get d key w = (Ok l, w).
Proof. intros Hk. unfold dict_get. by rewrite Hk. Qed.

Lemma getarr_inv name w a w' :
  getarr name w = (Ok a, w') ->
  w' = w /\ exists l, attrs w !! name = Some (VArr l) /\ heap w !! l = Some a.
Proof.
  unfold getarr. intros Hrun.
  apply bind_inv in Hrun as (v & w1 & Hv & Hrun).
  apply getattr_inv in Hv as [-> Hv].
  apply bind_inv in Hrun as (l & w1 & Hl & Hrun).
  apply as_arr_inv in Hl as [-> ->].
  apply deref_inv in Hrun as [-> Ha]. eauto.
Qed.

Lemma load_stan_result_inv hash w o w' :
  load_stan_result hash w = (Ok o, w') ->
  (cache w !! hash = None /\ o = None /\ w' = w)
  \/ exists stored r,
       cache w !! hash = Some stored /\ o = Some r
       /\ w' = with_heap (fun h => h ++ map snd stored) w
       /\ holds (heap w') r stored.
Proof.
  unfold load_stan_result. destruct (cache w !! hash) as [stored|].
  - destruct (thaw_result_spec stored w) as (r & -> & Hholds).
    intros [= <- <-]. right. by exists stored, r.
  - intros [= <- <-]. by left.
Qed.

Lemma save_stan_result_inv hash r w w' :
  save_stan_result hash r w = (Ok tt, w') ->
  exists stored,
    freeze_result r w = (Ok stored, w)
    /\ w' = with_cache (insert hash stored) w.
Proof.
  unfold save_stan_result. intros Hrun.
  apply bind_inv in Hrun as (stored & w1 & Hfreeze & Hrun).
  pose proof (freeze_world _ _ _ _ Hfreeze) as ->.
  exists stored. split; [done|]. unfold write_cache in Hrun. congruence.
Qed.

Lemma run_optimizing_inv `{Externals} path data w r w' :
  run_optimizing path data w = (Ok r, w') ->
  exists values,
    optimizing path data = Ok values
    /\ w' = with_heap (fun h => h ++ map snd values)
              (with_optimizer_calls (fun l => l ++ [(path, data)]) w)
    /\ holds (heap w') r values.
Proof.
  unfold run_optimizing. intros Hrun.
  apply bind_inv in Hrun as ([] & w1 & Hlog & Hrun).
  injection Hlog as <-.
  apply bind_inv in Hrun as (values & w2 & Hopt & Hrun).
  apply lift_inv in Hopt as [Hopt ->].
  destruct (thaw_result_spec values
              (with_optimizer_calls (fun l => l ++ [(path, data)]) w))
    as (r' & Hthaw & Hholds).
  rewrite Hthaw in Hrun. injection Hrun as <- <-.
  by exists values.
Qed.

(** One statement of a method that returned: the statement that ran, and
    the rest of the method from the world it left.  [step_ro] is for a
    statement that leaves the world as it was. *)
Tactic Notation "step_in" hyp(H) ident(a) ident(Hs) :=
  let w := fresh "w" in
  apply bind_inv in H as (a & w & Hs & H).

Ltac step_ro H :=
  let a := fresh "a" in
  let Hs := fresh "Hs" in
  step_in H a Hs;
  first
    [ apply getattr_inv in Hs as [-> _]
    | apply getarr_inv in Hs as [-> _]
    | apply lift_inv in Hs as [_ ->]
    | apply as_arr_inv in Hs as [_ ->]
    | apply as_str_inv in Hs as [_ ->]
    | apply as_floats_inv in Hs as [_ ->]
    | apply as_bools_inv in Hs as [_ ->]
    | apply dict_get_inv in Hs as [_ ->]
    | apply as_floats2_inv in Hs as [_ ->]
    | apply as_targets_inv in Hs as [_ ->]
    | apply as_spectra_inv in Hs as [_ ->]
    | apply as_dict_inv in Hs as [_ ->]
    | apply deref_inv in Hs as [-> _] ].

(** ** Unknown kinds, unassigned masks and undefined names *)

Section GpMethodFacts.
Context `{Externals}.

(** C8.  A kind other than "rbtl", "salt" and "salt_raw" makes [get_mags]
    raise ManifoldTwinsException whatever the object holds, also when no
    attribute was assigned at all: nothing is read before the exception. *)
Theorem get_mags_unknown_kind (kind : string) (full : bool)
    (peculiar_velocity : pynum) (w : world) :
  kind <> "rbtl" -> kind <> "salt" -> kind <> "salt_raw" ->
  get_mags kind full peculiar_velocity w
  = (Raise (ManifoldTwinsException ("Unknown kind " +:+ kind +:+ "!")), w).
Proof.
  intros Hrbtl Hsalt Hraw. unfold get_mags.
  apply String.eqb_neq in Hrbtl, Hsalt, Hraw.
  rewrite Hrbtl, Hsalt, Hraw. reflexivity.
Qed.

(** No method assigns the three masks that the "rbtl" branch reads, nor
    the mask that every branch reads. *)
Lemma not_assignable (name : string) :
  name ∉ mjoin (snd <$> assigned_by) -> ~ assignable name.
Proof.
  intros Hnot (method & names & Hin & Hname). apply Hnot.
  apply list_elem_of_join. exists names. split; [done|].
  by apply (list_elem_of_fmap_2 snd _ (method, names)).
Qed.

Lemma reachable_unassigned (a : gmap string value) (name : string) :
  ~ assignable name -> reachable a -> a !! name = None.
Proof.
  intros Hname. induction 1 as [|a name' v _ IH Hname']; [done|].
  rewrite lookup_insert_ne; [done|]. by intros ->.
Qed.

Lemma reachable_no_interp_mask a :
  reachable a -> a !! "interp_mask" = None.
Proof.
  apply reachable_unassigned, not_assignable.
  apply (bool_decide_unpack _). by vm_compute.
Qed.

Lemma reachable_no_mag_mask a :
  reachable a -> a !! "mag_mask" = None /\ a !! "good_mag_mask" = None.
Proof.
  intros Ha. split; (eapply reachable_unassigned; [|exact Ha]);
    apply not_assignable; apply (bool_decide_unpack _); by vm_compute.
Qed.

Lemma attr_and_missing (a b : string) w :
  attrs w !! a = None \/ attrs w !! b = None ->
  exists name, attr_and a b w = (Raise (AttributeError name), w).
Proof.
  intros Hmiss. unfold attr_and.
  destruct (getattr_cases a w) as [Ha|[x Ha]].
  { exists a. by apply bind_Raise. }
  rewrite (bind_Ok _ _ _ _ _ Ha).
  destruct Hmiss as [Hmiss|Hmiss].
  { rewrite (getattr_None a w Hmiss) in Ha. done. }
  exists b. apply bind_Raise. by apply getattr_None.
Qed.

(** The three statements that choose magnitudes, colours and mask. *)
Lemma get_mags_raises_at_mask (kind : string) (full : bool)
    (peculiar_velocity : pynum) (w : world) :
  reachable (attrs w) ->
  kind ∈ ["rbtl"; "salt"; "salt_raw"] ->
  exists name,
    get_mags kind full peculiar_velocity w = (Raise (AttributeError name), w).
Proof.
  intros Hreach Hkind.
  pose proof (reachable_no_interp_mask _ Hreach) as Hinterp.
  destruct (reachable_no_mag_mask _ Hreach) as [Hmag Hgood].
  assert (Hmask : forall a, exists name,
            attr_and a "interp_mask" w = (Raise (AttributeError name), w))
    by (intros a; apply attr_and_missing; by right).
  assert (Hstep : forall (mags : M value) (mask : M (list bool)),
            (mags = getattr "rbtl_mags" \/ mags = getattr "salt_hr"
             \/ mags = getattr "salt_hr_raw") ->
            forall colors,
            (exists name, mask w = (Raise (AttributeError name), w)) ->
            exists name,
              (m ← mags; c ← getattr colors; k ← mask;
               mret (m, c, k)) w = (Raise (AttributeError name), w)).
  { intros mags mask Hmags colors [name Hm].
    assert (Hcases : (exists n, mags w = (Raise (AttributeError n), w))
                     \/ exists v, mags w = (Ok v, w)).
    { destruct Hmags as [->|[->| ->]].
      - destruct (getattr_cases "rbtl_mags" w) as [?|?]; [left; eauto|by right].
      - destruct (getattr_cases "salt_hr" w) as [?|?]; [left; eauto|by right].
      - destruct (getattr_cases "salt_hr_raw" w) as [?|?];
          [left; eauto|by right]. }
    destruct Hcases as [[n Hn]|[v Hv]].
    { exists n. by apply bind_Raise. }
    rewrite (bind_Ok _ _ _ _ _ Hv).
    destruct (getattr_cases colors w) as [Hc|[c Hc]].
    { exists colors. by apply bind_Raise. }
    rewrite (bind_Ok _ _ _ _ _ Hc). exists name. by apply bind_Raise. }
  unfold get_mags.
  apply list_elem_of_In in Hkind. simpl in Hkind.
  destruct Hkind as [<-|[<-|[<-|[]]]]; simpl.
  - destruct (Hstep (getattr "rbtl_mags")
                (if full then attr_and "mag_mask" "interp_mask"
                 else attr_and "good_mag_mask" "interp_mask")
                ltac:(by left) "rbtl_colors") as [name Hname].
    { destruct full; apply Hmask. }
    exists name. by apply bind_Raise.
  - destruct (Hstep (getattr "salt_hr")
                (if full then attr_and "salt_mask" "interp_mask"
                 else attr_and "good_salt_mask" "interp_mask")
                ltac:(by right; left) "salt_colors") as [name Hname].
    { destruct full; apply Hmask. }
    exists name. by apply bind_Raise.
  - destruct (Hstep (getattr "salt_hr_raw")
                (if full then attr_and "salt_mask" "interp_mask"
                 else attr_and "good_salt_mask" "interp_mask")
                ltac:(by right; right) "salt_colors") as [name Hname].
    { destruct full; apply Hmask. }
    exists name. by apply bind_Raise.
Qed.

Lemma assignable_gp_hyperparameters : assignable "gp_hyperparameters".
Proof.
  exists "fit_gp", ["gp_hyperparameters"; "corr_mags"; "corr_vars";
                    "gp_hyperparameter_covariance"].
  split; [|by left]. unfold assigned_by. do 7 right. left.
Qed.

(** C9.  On an object that only the methods of the class have assigned
    to, every call of [get_mags] with a valid kind raises AttributeError:
    no method assigns [mag_mask], [good_mag_mask] or [interp_mask].  So
    [fit_gp] and [apply_gp_standardization] raise it too, whatever follows
    their corrected-magnitude assignment. *)
Theorem get_mags_attribute_error (kind : string) (full : bool)
    (peculiar_velocity : pynum) (w : world) :
  reachable (attrs w) ->
  kind ∈ ["rbtl"; "salt"; "salt_raw"] ->
  (~ assignable "mag_mask" /\ ~ assignable "good_mag_mask"
   /\ ~ assignable "interp_mask")
  /\ (exists name,
        get_mags kind full peculiar_velocity w
        = (Raise (AttributeError name), w))
  /\ (forall (A : Type) start (rest : value -> corr_mags_args -> M A),
        exists name,
          fit_gp kind start rest w = (Raise (AttributeError name), w))
  /\ (forall (A : Type) hyperparameters phase
             (rest : value -> corr_mags_args -> M A),
        exists name w',
          apply_gp_standardization hyperparameters phase kind rest w
          = (Raise (AttributeError name), w')).
Proof.
  intros Hreach Hkind. split; [|split; [|split]].
  - repeat split; apply not_assignable; apply (bool_decide_unpack _);
      by vm_compute.
  - by apply get_mags_raises_at_mask.
  - intros A start rest.
    destruct (get_mags_raises_at_mask kind false default_peculiar_velocity w
                Hreach Hkind) as [name Hname].
    exists name. unfold fit_gp, fit_gp_until_corr_mags.
    apply bind_Raise. by apply bind_Raise.
  - intros A [x|] phase rest.
    + (* Fixed hyperparameters: they are stored, then get_mags raises. *)
      set (w1 := with_attrs
                   (insert "gp_hyperparameters" (VArr (length (heap w))))
                   (with_heap (fun h => h ++ [Floats x]) w)).
      assert (Hreach1 : reachable (attrs w1)).
      { simpl. apply reachable_assign; [done|].
        apply assignable_gp_hyperparameters. }
      destruct (get_mags_raises_at_mask kind false default_peculiar_velocity
                  w1 Hreach1 Hkind) as [name Hname].
      exists name, w1.
      unfold apply_gp_standardization,
        apply_gp_standardization_until_corr_mags.
      apply bind_Raise.
      rewrite (bind_Ok (mret x) _ w x w eq_refl).
      rewrite (bind_Ok (set_gp_hyperparameters x) _ w tt w1 eq_refl).
      by apply bind_Raise.
    + (* Fitted hyperparameters: the objective raises at the start. *)
      destruct (get_mags_raises_at_mask kind false default_peculiar_velocity
                  w Hreach Hkind) as [name Hname].
      exists name, w.
      unfold apply_gp_standardization,
        apply_gp_standardization_until_corr_mags.
      apply bind_Raise. apply bind_Raise. apply bind_Raise.
      unfold _calculate_gp_dispersion, _calculate_gp_residuals.
      apply bind_Raise. by apply bind_Raise.
Qed.

(** Neither name is bound in the module or among the built-ins. *)
Lemma global_name_undefined (name : string) w :
  name ∉ module_globals ++ builtin_names ->
  global_name name w = (Raise (NameError name), w).
Proof.
  intros Hname. unfold global_name.
  by rewrite bool_decide_eq_false_2.
Qed.

Lemma fill_mask_undefined w :
  global_name "fill_mask" w = (Raise (NameError "fill_mask"), w).
Proof.
  apply global_name_undefined. apply (bool_decide_unpack _). by vm_compute.
Qed.

Lemma frac_to_mag_undefined w :
  global_name "frac_to_mag" w = (Raise (NameError "frac_to_mag"), w).
Proof.
  apply global_name_undefined. apply (bool_decide_unpack _). by vm_compute.
Qed.

(** C10.  [fit_gp] and [apply_gp_standardization] never return: when the
    statements before the corrected-magnitude assignment return, the
    assignment raises NameError for [fill_mask], a name that neither the
    module nor the built-ins bind.  [_evaluate_salt_hubble_residuals] raises
    NameError for [frac_to_mag] in the same way. *)
Theorem unqualified_names_raise_name_error (w : world) :
(("fill_mask" ∉ module_globals ++ builtin_names)
   /\ ("frac_to_mag" ∉ module_globals ++ builtin_names))
  /\ (forall kind start (rest : value -> corr_mags_args -> M unit),
        fit_gp kind start rest w
        = stops_at "fill_mask" (fit_gp_until_corr_mags kind start) w)
  /\ (forall hyperparameters phase kind
             (rest : value -> corr_mags_args -> M unit),
        apply_gp_standardization hyperparameters phase kind rest w
        = stops_at "fill_mask"
            (apply_gp_standardization_until_corr_mags hyperparameters phase
               kind) w)
  /\ (forall (rest : value -> list spec_float * list spec_float -> M unit),
        _evaluate_salt_hubble_residuals rest w
        = stops_at "frac_to_mag" salt_residuals_until_mb_err w).
Proof.
  split; [|split; [|split]].
  - split; apply (bool_decide_unpack _); by vm_compute.
  - intros kind start rest. unfold fit_gp, stops_at.
    destruct (fit_gp_until_corr_mags kind start w) as [[args|e] w1] eqn:Hrun.
    + rewrite (bind_Ok _ _ _ _ _ Hrun).
      apply bind_Raise, fill_mask_undefined.
    + by apply bind_Raise.
  - intros hyperparameters phase kind rest.
    unfold apply_gp_standardization, stops_at.
    destruct (apply_gp_standardization_until_corr_mags hyperparameters phase
                kind w) as [[args|e] w1] eqn:Hrun.
    + rewrite (bind_Ok _ _ _ _ _ Hrun).
      apply bind_Raise, fill_mask_undefined.
    + by apply bind_Raise.
  - intros rest. unfold _evaluate_salt_hubble_residuals, stops_at.
    destruct (salt_residuals_until_mb_err w) as [[args|e] w1] eqn:Hrun.
    + rewrite (bind_Ok _ _ _ _ _ Hrun).
      apply bind_Raise, frac_to_mag_undefined.
    + by apply bind_Raise.
Qed.

End GpMethodFacts.

Lemma assignable_listed (name : string) :
  name ∈ mjoin (snd <$> assigned_by) -> assignable name.
Proof.
  intros Hin. apply list_elem_of_join in Hin as (names & Hname & Hnames).
  apply list_elem_of_fmap_1 in Hnames as ([method names'] & -> & Hin).
  by exists method, names'.
Qed.

(** The toy object holds only attributes that [__init__] assigns. *)
Lemma toy_world_reachable n is_blinded : reachable (attrs (toy_world n is_blinded)).
Proof.
  unfold toy_world, toy_attrs. simpl.
  repeat (apply reachable_assign;
          [|apply assignable_listed, (bool_decide_unpack _); by vm_compute]).
  apply reachable_new.
Qed.

Lemma get_mags_unknown_kind_witness :
  ("twins" <> "rbtl" /\ "twins" <> "salt" /\ "twins" <> "salt_raw")
  /\ get_mags "twins" true (PyInt 300) (toy_world 4 true)
     = (Raise (ManifoldTwinsException "Unknown kind twins!"), toy_world 4 true).
Proof.
  split; [by repeat split|].
  by apply (get_mags_unknown_kind "twins" true (PyInt 300) (toy_world 4 true)).
Defined.

Lemma get_mags_attribute_error_witness :
  (reachable (attrs (toy_world 4 true))
   /\ "rbtl" ∈ ["rbtl"; "salt"; "salt_raw"])
  /\ exists name,
       get_mags "rbtl" true (PyInt 300) (toy_world 4 true)
       = (Raise (AttributeError name), toy_world 4 true).
Proof.
  assert (Hkind : "rbtl" ∈ ["rbtl"; "salt"; "salt_raw"]) by left.
  split; [split; [apply toy_world_reachable|exact Hkind]|].
  exact (proj1 (proj2 (get_mags_attribute_error "rbtl" true (PyInt 300)
                         (toy_world 4 true) (toy_world_reachable 4 true)
                         Hkind))).
Defined.

(** With the masks assigned from outside the statements before the
    corrected-magnitude assignment return, and the three methods stop at the
    undefined names. *)
Example fit_gp_reaches_fill_mask :
  (exists args w1,
     fit_gp_until_corr_mags "rbtl" toy_hyperparameters toy_gp_world
     = (Ok args, w1))
  /\ fst (fit_gp "rbtl" toy_hyperparameters (fun _ _ => mret tt) toy_gp_world)
     = Raise (NameError "fill_mask")
  /\ fst (apply_gp_standardization (Some toy_hyperparameters) false "rbtl"
            (fun _ _ => mret tt) toy_gp_world)
     = Raise (NameError "fill_mask")
  /\ fst (_evaluate_salt_hubble_residuals (fun _ _ => mret tt) toy_gp_world)
     = Raise (NameError "frac_to_mag").
Proof.
  split; [|by vm_compute].
  destruct (fit_gp_until_corr_mags "rbtl" toy_hyperparameters toy_gp_world)
    as [[args|e] w1] eqn:Hrun; [by eexists _, _|].
  by vm_compute in Hrun.
Qed.

(** ** The maximum-light stage: parity check and cache *)

Section MaximumFacts.
Context `{Externals}.

(** C4, as the code has it.  On an initialised object, an odd number of
    phase coefficients makes [model_maximum_spectra] raise the
    configuration error whenever no cached result is used: the cache is
    off, or holds nothing under the maximum hash.  Only [maximum_hash] was
    assigned by then: no array was allocated, the optimizer was not called
    and the cache was not written. *)
Theorem odd_phase_coefficients_rejected (use_cache : bool) (w : world)
    (dh : string) (ts : list target) (lf lw : loc) :
  maximum_num_phase_coefficients (self_settings w) `mod` 2 <> 0 ->
  attrs w !! "dataset_hash" = Some (VStr dh) ->
  attrs w !! "targets" = Some (VTargets ts) ->
  attrs w !! "flux" = Some (VArr lf) -> is_Some (heap w !! lf) ->
  attrs w !! "wave" = Some (VArr lw) -> is_Some (heap w !! lw) ->
  use_cache = false
  \/ cache w !! maximum_hash dh (load_stan_model maximum_model_path)
                  (self_settings w) = None ->
  model_maximum_spectra use_cache w
  = (Raise (ConfigError odd_message),
     with_attrs
       (insert "maximum_hash"
          (VStr (maximum_hash dh (load_stan_model maximum_model_path)
                   (self_settings w)))) w).
Proof.
  intros Hodd Hdh Hts Hlf [fl Hfl] Hlw [wv Hwv] Hcache.
  apply Z.eqb_neq in Hodd.
  unfold model_maximum_spectra.
  rewrite (bind_Ok (getattr "dataset_hash") _ w (VStr dh) w)
    by (unfold getattr; by rewrite Hdh).
  rewrite (bind_Ok (as_str (VStr dh)) _ w dh w eq_refl).
  rewrite (bind_Ok (setting id) _ w (self_settings w) w eq_refl).
  set (mh := maximum_hash dh _ _).
  set (w1 := with_attrs (insert "maximum_hash" (VStr mh)) w).
  rewrite (bind_Ok (setattr "maximum_hash" (VStr mh)) _ w tt w1 eq_refl).
  assert (Hload : (if use_cache then load_stan_result mh else mret None) w1
                  = (Ok None, w1)).
  { destruct Hcache as [->|Hmiss]; [done|].
    destruct use_cache; [|done].
    unfold load_stan_result, w1, with_attrs. cbn [cache]. unfold mh.
    by rewrite Hmiss. }
  rewrite (bind_Ok _ _ w1 None w1 Hload).
  rewrite (bind_Ok (getattr "targets") _ w1 (VTargets ts) w1)
    by (apply getattr_Ok; cbn; by rewrite lookup_insert_ne).
  rewrite (bind_Ok (as_targets (VTargets ts)) _ w1 ts w1 eq_refl).
  rewrite (bind_Ok (getarr "flux") _ w1 fl w1)
    by (apply (getarr_Ok _ _ lf); cbn; [by rewrite lookup_insert_ne|done]).
  rewrite (bind_Ok (getarr "wave") _ w1 wv w1)
    by (apply (getarr_Ok _ _ lw); cbn; [by rewrite lookup_insert_ne|done]).
  cbn [negb]. by rewrite Hodd.
Qed.

(** A call that finds a cached result returns its arrays and neither
    optimizes nor writes the cache. *)
Lemma model_maximum_spectra_cached (w : world) (dh : string)
    (stored : list (string * ndarray)) (af ae : ndarray) :
  attrs w !! "dataset_hash" = Some (VStr dh) ->
  cache w !! maximum_hash dh (load_stan_model maximum_model_path)
               (self_settings w) = Some stored ->
  assoc "maximum_flux" stored = Some af ->
  assoc "maximum_fluxerr" stored = Some ae ->
  exists w2,
    model_maximum_spectra true w = (Ok tt, w2)
    /\ optimizer_calls w2 = optimizer_calls w
    /\ cache w2 = cache w
    /\ attr_array "maximum_flux" w2 = Some af
    /\ attr_array "maximum_fluxerr" w2 = Some ae
    /\ attrs w2 !! "dataset_hash" = Some (VStr dh)
    /\ self_settings w2 = self_settings w
    /\ attrs w2 !! "maximum_hash"
       = Some (VStr (maximum_hash dh (load_stan_model maximum_model_path)
                       (self_settings w)))
    /\ exists r,
         attrs w2 !! "maximum_result" = Some (VDict r)
         /\ holds (heap w2) r stored.
Proof.
  intros Hdh Hcache Hf He.
  unfold model_maximum_spectra.
  rewrite (bind_Ok (getattr "dataset_hash") _ w (VStr dh) w)
    by (by apply getattr_Ok).
  rewrite (bind_Ok (as_str (VStr dh)) _ w dh w eq_refl).
  rewrite (bind_Ok (setting id) _ w (self_settings w) w eq_refl).
  set (mh := maximum_hash dh _ _) in *.
  set (w1 := with_attrs (insert "maximum_hash" (VStr mh)) w).
  rewrite (bind_Ok (setattr "maximum_hash" (VStr mh)) _ w tt w1 eq_refl).
  destruct (thaw_result_spec stored w1) as (r & Hthaw & Hholds).
  set (w2 := with_heap (fun h => h ++ map snd stored) w1) in *.
  assert (Hload : load_stan_result mh w1 = (Ok (Some r), w2)).
  { unfold load_stan_result. replace (cache w1) with (cache w) by done.
    by rewrite Hcache, Hthaw. }
  rewrite (bind_Ok _ _ w1 (Some r) w2 Hload).
  destruct (holds_assoc_stored _ _ _ _ _ Hholds Hf) as (lf & Hlf & Hhf).
  destruct (holds_assoc_stored _ _ _ _ _ Hholds He) as (le & Hle & Hhe).
  set (w3 := with_attrs (insert "maximum_result" (VDict r)) w2).
  rewrite (bind_Ok (setattr "maximum_result" (VDict r)) _ w2 tt w3 eq_refl).
  rewrite (bind_Ok _ _ w3 lf w3 (dict_get_Ok r "maximum_flux" w3 lf Hlf)).
  set (w4 := with_attrs (insert "maximum_flux" (VArr lf)) w3).
  rewrite (bind_Ok (setattr "maximum_flux" (VArr lf)) _ w3 tt w4 eq_refl).
  rewrite (bind_Ok _ _ w4 le w4 (dict_get_Ok r "maximum_fluxerr" w4 le Hle)).
  eexists. split; [reflexivity|].
  split; [done|]. split; [done|].
  unfold attr_array. cbn [attrs with_attrs heap w4 w3 w2 w1 with_heap].
  split; [|split; [|split; [|split; [|split]]]].
  - rewrite lookup_insert_ne by done. rewrite lookup_insert_eq. exact Hhf.
  - rewrite lookup_insert_eq. exact Hhe.
  - by rewrite !lookup_insert_ne.
  - done.
  - rewrite !lookup_insert_ne by done. by rewrite lookup_insert_eq.
  - exists r. split; [|exact Hholds].
    rewrite !lookup_insert_ne by done. by rewrite lookup_insert_eq.
Qed.

(** What a call that returned leaves: a cache entry under the maximum hash
    whose flux and uncertainty are the arrays that the object now names. *)
Lemma model_maximum_spectra_post (w w1 : world) :
  model_maximum_spectra true w = (Ok tt, w1) ->
  exists dh stored af ae,
    attrs w1 !! "dataset_hash" = Some (VStr dh)
    /\ cache w1 !! maximum_hash dh (load_stan_model maximum_model_path)
                     (self_settings w1) = Some stored
    /\ assoc "maximum_flux" stored = Some af
    /\ assoc "maximum_fluxerr" stored = Some ae
    /\ attr_array "maximum_flux" w1 = Some af
    /\ attr_array "maximum_fluxerr" w1 = Some ae
    /\ attrs w !! "dataset_hash" = Some (VStr dh)
    /\ self_settings w1 = self_settings w
    /\ ((cache w !! maximum_hash dh (load_stan_model maximum_model_path)
                      (self_settings w) = Some stored
         /\ optimizer_calls w1 = optimizer_calls w
         /\ cache w1 = cache w)
        \/ (cache w !! maximum_hash dh (load_stan_model maximum_model_path)
                         (self_settings w) = None
            /\ (exists data,
                  optimizing maximum_model_path data = Ok stored
                  /\ optimizer_calls w1
                     = optimizer_calls w ++ [(maximum_model_path, data)])
            /\ cache w1
               = <[maximum_hash dh (load_stan_model maximum_model_path)
                     (self_settings w) := stored]> (cache w))).
Proof.
  intros Hrun. pose proof Hrun as Hcall.
  unfold model_maximum_spectra in Hrun.
  step_in Hrun v Hs. apply getattr_inv in Hs as [-> Hdh].
  step_in Hrun dh Hs. apply as_str_inv in Hs as [-> ->].
  step_in Hrun cfg Hs. injection Hs as <- <-.
  set (mh := maximum_hash dh _ _) in *.
  step_in Hrun u Hs. injection Hs as _ <-.
  step_in Hrun cached Hs.
  apply load_stan_result_inv in Hs
    as [(Hmiss & -> & ->)|(stored & r & Hhit & -> & -> & Hholds)].
  - (* Nothing cached: the optimizer ran and its result was saved. *)
    do 4 step_ro Hrun.
    destruct (negb _); [done|].
    do 9 step_ro Hrun.
    step_in Hrun tm Hs.
    match type of Hs with
    | _ ?wa = (_, ?wb) =>
        assert (wb = wa) as ->
          by (match type of Hs with
              | context [match ?x with _ => _ end] =>
                  destruct x; unfold raise, mret, M_ret in Hs; by simplify_eq
              end)
    end.
    clear Hs. do 3 step_ro Hrun.
    step_in Hrun result Hs.
    apply run_optimizing_inv in Hs as (values & Hopt & -> & Hholds).
    step_in Hrun u1 Hs. injection Hs as _ <-.
    step_in Hrun lf Hs. apply dict_get_inv in Hs as [Hlf ->].
    step_in Hrun u2 Hs. injection Hs as _ <-.
    step_in Hrun le Hs. apply dict_get_inv in Hs as [Hle ->].
    step_in Hrun u3 Hs. injection Hs as _ <-.
    apply save_stan_result_inv in Hrun as (stored & Hfreeze & ->).
    rewrite (freeze_holds _ result values) in Hfreeze by exact Hholds.
    injection Hfreeze as <-.
    destruct (holds_assoc_result _ _ _ _ _ Hholds Hlf) as (af & Hf & Hhf).
    destruct (holds_assoc_result _ _ _ _ _ Hholds Hle) as (ae & He & Hhe).
    exists dh, values, af, ae.
    unfold attr_array. cbn [attrs with_attrs with_cache with_heap heap cache
                              with_optimizer_calls self_settings
                              optimizer_calls] in *.
    split; [by rewrite !lookup_insert_ne|].
    split; [by rewrite lookup_insert_eq|]. split; [done|]. split; [done|].
    split; [|split; [|split; [done|split; [done|]]]].
    + rewrite lookup_insert_ne by done. rewrite lookup_insert_eq. exact Hhf.
    + rewrite lookup_insert_eq. exact Hhe.
    + right. split; [exact Hmiss|]. split; [|done].
      eexists. split; [exact Hopt|done].
  - (* A cached result was found. *)
    step_in Hrun u1 Hs. injection Hs as _ <-.
    step_in Hrun lf Hs. apply dict_get_inv in Hs as [Hlf ->].
    step_in Hrun u2 Hs. injection Hs as _ <-.
    step_in Hrun le Hs. apply dict_get_inv in Hs as [Hle ->].
    destruct (holds_assoc_result _ _ _ _ _ Hholds Hlf) as (af & Hf & _).
    destruct (holds_assoc_result _ _ _ _ _ Hholds Hle) as (ae & He & _).
    destruct (model_maximum_spectra_cached w dh stored af ae Hdh Hhit Hf He)
      as (w2 & Hcall2 & Hopt & Hc & Haf & Hae & Hdh2 & Hset & _).
    rewrite Hcall in Hcall2. injection Hcall2 as <-.
    exists dh, stored, af, ae. rewrite Hc, Hset.
    repeat (split; [done|]). by left.
Qed.

(** C5.  A call with [use_cache=True] that returned has either found an
    entry of the cache under the maximum hash, without optimizing, or
    found none, optimized once and saved the optimizer's result under the
    maximum hash.  Either way its [maximum_flux] and [maximum_fluxerr] have
    the content of that entry, and a second call with the same inputs
    returns too, calls no optimizer, leaves the cache as it is and names
    the entry's content: its [maximum_result] is the entry as a whole, its
    [maximum_flux] and [maximum_fluxerr] are the first call's. *)
Theorem model_maximum_spectra_cache_idempotent (w w1 : world) :
  model_maximum_spectra true w = (Ok tt, w1) ->
  exists dh stored flux fluxerr w2 r2,
    let mh :=
      maximum_hash dh (load_stan_model maximum_model_path) (self_settings w) in
    attrs w !! "dataset_hash" = Some (VStr dh)
    /\ ((cache w !! mh = Some stored
         /\ optimizer_calls w1 = optimizer_calls w
         /\ cache w1 = cache w)
        \/ (cache w !! mh = None
            /\ (exists data,
                  optimizing maximum_model_path data = Ok stored
                  /\ optimizer_calls w1
                     = optimizer_calls w ++ [(maximum_model_path, data)])
            /\ cache w1 = <[mh:=stored]> (cache w)))
    /\ cache w1 !! mh = Some stored
    /\ assoc "maximum_flux" stored = Some flux
    /\ assoc "maximum_fluxerr" stored = Some fluxerr
    /\ attr_array "maximum_flux" w1 = Some flux
    /\ attr_array "maximum_fluxerr" w1 = Some fluxerr
    /\ model_maximum_spectra true w1 = (Ok tt, w2)
    /\ optimizer_calls w2 = optimizer_calls w1
    /\ cache w2 = cache w1
    /\ attrs w2 !! "maximum_hash" = Some (VStr mh)
    /\ attrs w2 !! "maximum_result" = Some (VDict r2)
    /\ holds (heap w2) r2 stored
    /\ attr_array "maximum_flux" w2 = Some flux
    /\ attr_array "maximum_fluxerr" w2 = Some fluxerr.
Proof.
  intros Hfirst.
  destruct (model_maximum_spectra_post w w1 Hfirst)
    as (dh & stored & af & ae & Hdh & Hcache & Hf & He & Haf & Hae & Hdh0
        & Hset & Hhow).
  destruct (model_maximum_spectra_cached w1 dh stored af ae Hdh Hcache Hf He)
    as (w2 & Hsecond & Hopt & Hc & Haf2 & Hae2 & _ & _ & Hmh & r2 & Hr2
        & Hholds).
  rewrite Hset in Hcache, Hmh.
  exists dh, stored, af, ae, w2, r2. cbn zeta.
  split; [exact Hdh0|]. split; [exact Hhow|]. split; [exact Hcache|].
  split; [exact Hf|]. split; [exact He|]. split; [exact Haf|].
  split; [exact Hae|]. split; [exact Hsecond|]. split; [exact Hopt|].
  split; [exact Hc|]. split; [exact Hmh|]. split; [exact Hr2|].
  split; [exact Hholds|]. split; [exact Haf2|exact Hae2].
Qed.

End MaximumFacts.

(** C4 as stated fails: with a cache entry under the maximum hash, an odd
    number of phase coefficients yields a result. *)
Lemma odd_phase_coefficients_cached_result :
  maximum_num_phase_coefficients (self_settings toy_cached_world) `mod` 2 = 1
  /\ fst (model_maximum_spectra true toy_cached_world) = Ok tt
  /\ attr_array "maximum_flux" (snd (model_maximum_spectra true toy_cached_world))
     = Some (Floats2 [[F64.one; F64.one]; [F64.one; F64.one]]).
Proof. by vm_compute. Qed.

Lemma odd_phase_coefficients_rejected_witness :
  (maximum_num_phase_coefficients (self_settings (toy_world 3 true)) `mod` 2 <> 0
   /\ cache (toy_world 3 true)
        !! maximum_hash "dataset" (load_stan_model maximum_model_path)
             (self_settings (toy_world 3 true)) = None)
  /\ model_maximum_spectra true (toy_world 3 true)
     = (Raise (ConfigError odd_message),
        with_attrs
          (insert "maximum_hash"
             (VStr (maximum_hash "dataset"
                      (load_stan_model maximum_model_path)
                      (self_settings (toy_world 3 true)))))
          (toy_world 3 true)).
Proof.
  split; [split; [by vm_compute|done]|].
  apply (odd_phase_coefficients_rejected true (toy_world 3 true) "dataset"
           toy_targets 1%nat 0%nat).
  - by vm_compute.
  - reflexivity.
  - reflexivity.
  - reflexivity.
  - by eexists.
  - reflexivity.
  - by eexists.
  - by right.
Defined.

Lemma model_maximum_spectra_cache_idempotent_witness :
  model_maximum_spectra true (toy_world 4 true) = (Ok tt, toy_maximum_world)
  /\ exists stored flux fluxerr w2,
       cache toy_maximum_world
         !! maximum_hash "dataset" (load_stan_model maximum_model_path)
              (toy_settings 4 true) = Some stored
       /\ assoc "maximum_flux" stored = Some flux
       /\ assoc "maximum_fluxerr" stored = Some fluxerr
       /\ model_maximum_spectra true toy_maximum_world = (Ok tt, w2)
       /\ optimizer_calls w2 = optimizer_calls toy_maximum_world
       /\ cache w2 = cache toy_maximum_world
       /\ attr_array "maximum_flux" toy_maximum_world = Some flux
       /\ attr_array "maximum_flux" w2 = Some flux
       /\ attr_array "maximum_fluxerr" toy_maximum_world = Some fluxerr
       /\ attr_array "maximum_fluxerr" w2 = Some fluxerr.
Proof.
  assert (Hfirst : model_maximum_spectra true (toy_world 4 true)
                   = (Ok tt, toy_maximum_world)).
  { unfold toy_maximum_world.
    destruct (model_maximum_spectra true (toy_world 4 true)) as [r w1] eqn:Hrun.
    assert (Hr : fst (model_maximum_spectra true (toy_world 4 true)) = Ok tt)
      by (by vm_compute).
    rewrite Hrun in Hr. simpl in Hr. by subst r. }
  split; [exact Hfirst|].
  destruct (model_maximum_spectra_cache_idempotent (toy_world 4 true)
              toy_maximum_world Hfirst)
    as (dh & stored & flux & fluxerr & w2 & r2 & Hdh & _ & Hc & Hf & He
        & Hf1 & He1 & Hsecond & Hopt & Hcache & _ & _ & _ & Hf2 & He2).
  injection Hdh as <-.
  exists stored, flux, fluxerr, w2.
  exact (conj Hc (conj Hf (conj He (conj Hsecond (conj Hopt (conj Hcache
           (conj Hf1 (conj Hf2 (conj He1 He2))))))))).
Defined.

(** The first call optimizes once; the second does not optimize again. *)
Example second_call_does_not_optimize :
  length (optimizer_calls (toy_world 4 true)) = 0%nat
  /\ length (optimizer_calls toy_maximum_world) = 1%nat
  /\ length (optimizer_calls
               (snd (model_maximum_spectra true toy_maximum_world))) = 1%nat.
Proof. by vm_compute. Qed.

(** ** Blinding of the validation magnitudes *)

(** A NaN fails every comparison. *)
Lemma nan_compares_false (m v : spec_float) :
  F64.is_nan m = true ->
  F64.eqb m v = false /\ F64.eqb v m = false
  /\ F64.ltb m v = false /\ F64.leb m v = false
  /\ F64.gtb m v = false /\ F64.geb m v = false.
Proof. destruct m; try done. intros _. by destruct v. Qed.

Lemma scatter_replicate_selected {A : Type} (mask : list bool) (v : A)
    (a : list A) (i : nat) :
  length mask = length a ->
  mask !! i = Some true ->
  Np.scatter mask (replicate (Np.count_true mask) v) a !! i = Some v.
Proof.
  revert a i. induction mask as [|b mask IH]; intros a i Hlen Hi; [done|].
  destruct a as [|old a]; [done|]. rewrite count_true_cons.
  destruct b, i as [|i]; simpl in *; try done; apply IH; lia || done.
Qed.

Lemma mask_fill_selected {A : Type} (mask : list bool) (v : A) (a out : list A)
    (i : nat) :
  mask_fill mask v a = Ok out ->
  mask !! i = Some true ->
  out !! i = Some v.
Proof.
  unfold mask_fill. destruct (Nat.eqb_spec (length mask) (length a)) as [Hlen|];
    [|done].
  intros [= <-]. by apply scatter_replicate_selected.
Qed.

Lemma mask_fill_length {A : Type} (mask : list bool) (v : A) (a out : list A) :
  mask_fill mask v a = Ok out -> length out = length mask.
Proof.
  unfold mask_fill. destruct (Nat.eqb_spec (length mask) (length a)) as [Hlen|];
    [|done].
  intros [= <-]. by rewrite length_scatter.
Qed.

Lemma blinded_with_heap_app lt tm t w :
  blinded_with_train_mask lt tm w ->
  blinded_with_train_mask lt tm (with_heap (fun h => h ++ t) w).
Proof.
  intros (Hb & Ha & Hh). repeat split; [done|done|].
  simpl. by apply lookup_app_l_Some.
Qed.

Lemma blinded_with_attr lt tm name v w :
  name <> "train_mask" ->
  blinded_with_train_mask lt tm w ->
  blinded_with_train_mask lt tm (with_attrs (insert name v) w).
Proof.
  intros Hname (Hb & Ha & Hh). repeat split; [done| |done].
  simpl. by rewrite lookup_insert_ne.
Qed.

Lemma alloc_inv a w l w' :
  alloc a w = (Ok l, w') ->
  l = length (heap w) /\ w' = with_heap (fun h => h ++ [a]) w.
Proof. unfold alloc. naive_solver. Qed.

Section RbtlFacts.
Context `{Externals}.

(** Parsing a result on a blinded object. *)
Lemma parse_rbtl_result_blinds (result : stan_result) (w w' : world)
    (targets : list target) (lt : loc) :
  blinded_with_train_mask lt (build_train_mask targets) w ->
  _parse_rbtl_result result w = (Ok tt, w') ->
  exists lm mags,
    attrs w' !! "rbtl_mags" = Some (VArr lm)
    /\ attrs w' !! "rbtl_result" = Some (VDict result)
    /\ assoc "magnitudes" result = Some lm
    /\ heap w' !! lm = Some (Floats mags)
    /\ length mags = length targets
    /\ (forall i t,
          targets !! i = Some t -> idr_subset t = "validation" ->
          mags !! i = Some F64.nan)
    /\ cache w' = cache w
    /\ optimizer_calls w' = optimizer_calls w.
Proof.
  intros (Hblind & Hattr & Hheap) Hrun.
  unfold _parse_rbtl_result in Hrun.
  step_in Hrun u0 Hs. injection Hs as _ <-.
  step_ro Hrun.
  step_in Hrun u1 Hs. injection Hs as _ <-.
  step_in Hrun lm Hs. apply dict_get_inv in Hs as [Hlm ->].
  step_in Hrun u2 Hs. injection Hs as _ <-.
  step_ro Hrun.
  step_in Hrun u3 Hs. injection Hs as _ <-.
  step_in Hrun b Hs. injection Hs as <- <-.
  cbn [self_settings with_attrs] in Hrun. rewrite Hblind in Hrun.
  step_in Hrun u4 Hs.
  (* The update in place. *)
  unfold discard_validation_magnitudes in Hs.
  step_in Hs v Hv. apply getattr_inv in Hv as [-> Hv].
  cbn [attrs with_attrs] in Hv.
  rewrite lookup_insert_ne, lookup_insert_eq in Hv by done.
  injection Hv as <-.
  step_in Hs lm' Hv. apply as_arr_inv in Hv as [[= <-] ->].
  step_in Hs tm Hv. apply getarr_inv in Hv as [-> (lt' & Hlt' & Htm)].
  cbn [attrs with_attrs heap] in Hlt', Htm.
  rewrite !lookup_insert_ne in Hlt' by done.
  rewrite Hattr in Hlt'. injection Hlt' as <-.
  rewrite Hheap in Htm. injection Htm as <-.
  step_in Hs tm' Hv. apply as_bools_inv in Hv as [[= <-] ->].
  step_in Hs content Hv. apply deref_inv in Hv as [-> Hcontent].
  step_in Hs mags0 Hv. apply as_floats_inv in Hv as [-> ->].
  step_in Hs blind Hv. apply lift_inv in Hv as [Hfill ->].
  unfold store in Hs. injection Hs as _ <-.
  cbn [heap with_attrs] in Hcontent.
  (* The rest allocates the scaled fluxes. *)
  do 4 step_ro Hrun.
  step_in Hrun l1 Hs. apply alloc_inv in Hs as [_ ->].
  step_in Hrun u5 Hs. injection Hs as _ <-.
  do 4 step_ro Hrun.
  step_in Hrun l2 Hs. apply alloc_inv in Hs as [_ ->].
  injection Hrun as <-.
  exists lm, blind.
  cbn [attrs heap with_attrs with_heap].
  split; [by rewrite !lookup_insert_ne, lookup_insert_eq by done|].
  split; [by rewrite !lookup_insert_ne, lookup_insert_eq by done|].
  split; [done|]. split; [|split; [|split; [|done]]].
  - apply lookup_app_l_Some, lookup_app_l_Some.
    apply list_lookup_insert_eq. by eapply lookup_lt_Some.
  - rewrite (mask_fill_length _ _ _ _ Hfill), length_invert.
    unfold build_train_mask. by rewrite length_map.
  - intros i t Hi Hval.
    apply (mask_fill_selected _ _ _ _ i Hfill).
    apply (invert_lookup _ i false).
    unfold build_train_mask. rewrite list_lookup_fmap, Hi. simpl.
    by rewrite Hval.
Qed.

(** C2, as the code has it.  On a blinded object whose [train_mask] is
    the one [__init__] builds, a call of [read_between_the_lines] that
    returns, from the cache or from the optimizer, leaves NaN at the
    magnitude of every validation target.  The array is the one that both
    [self.rbtl_mags] and [self.rbtl_result["magnitudes"]] name, so no
    attribute of the object keeps the computed value, and a NaN fails every
    comparison.  The overwrite is not the first reader of a computed
    result: a run that found nothing in the cache has called the optimizer
    once and stored its result as it came, under the hash of the stage,
    before the result was parsed. *)
Theorem validation_magnitudes_blinded (use_cache : bool) (w w' : world)
    (targets : list target) (lt : loc) :
  blinded (self_settings w) = true ->
  attrs w !! "train_mask" = Some (VArr lt) ->
  heap w !! lt = Some (Bools (build_train_mask targets)) ->
  read_between_the_lines use_cache w = (Ok tt, w') ->
  exists lm mags result mh,
    attrs w' !! "rbtl_mags" = Some (VArr lm)
    /\ attrs w' !! "rbtl_result" = Some (VDict result)
    /\ assoc "magnitudes" result = Some lm
    /\ heap w' !! lm = Some (Floats mags)
    /\ length mags = length targets
    /\ (forall i t,
          targets !! i = Some t -> idr_subset t = "validation" ->
          mags !! i = Some F64.nan
          /\ forall v,
               F64.eqb F64.nan v = false /\ F64.eqb v F64.nan = false
               /\ F64.ltb F64.nan v = false /\ F64.leb F64.nan v = false
               /\ F64.gtb F64.nan v = false /\ F64.geb F64.nan v = false)
    /\ attrs w !! "maximum_hash" = Some (VStr mh)
    /\ let rh :=
         rbtl_hash mh (load_stan_model rbtl_model_path) (self_settings w) in
       (use_cache = true
        /\ is_Some (cache w !! rh)
        /\ cache w' = cache w
        /\ optimizer_calls w' = optimizer_calls w)
       \/ ((use_cache = false \/ cache w !! rh = None)
           /\ exists data values,
                optimizing rbtl_model_path data = Ok values
                /\ optimizer_calls w'
                   = optimizer_calls w ++ [(rbtl_model_path, data)]
                /\ cache w' = <[rh:=values]> (cache w)).
Proof.
  intros Hblind Hattr Hheap Hrun.
  assert (Hw : blinded_with_train_mask lt (build_train_mask targets) w)
    by done.
  assert (Hparse : forall result w0,
            blinded_with_train_mask lt (build_train_mask targets) w0 ->
            _parse_rbtl_result result w0 = (Ok tt, w') ->
            (exists lm mags result,
               attrs w' !! "rbtl_mags" = Some (VArr lm)
               /\ attrs w' !! "rbtl_result" = Some (VDict result)
               /\ assoc "magnitudes" result = Some lm
               /\ heap w' !! lm = Some (Floats mags)
               /\ length mags = length targets
               /\ forall i t,
                    targets !! i = Some t -> idr_subset t = "validation" ->
                    mags !! i = Some F64.nan
                    /\ forall v,
                         F64.eqb F64.nan v = false /\ F64.eqb v F64.nan = false
                         /\ F64.ltb F64.nan v = false
                         /\ F64.leb F64.nan v = false
                         /\ F64.gtb F64.nan v = false
                         /\ F64.geb F64.nan v = false)
            /\ cache w' = cache w0
            /\ optimizer_calls w' = optimizer_calls w0).
  { intros result w0 Hw0 Hp.
    destruct (parse_rbtl_result_blinds result w0 w' targets lt Hw0 Hp)
      as (lm & mags & H1 & H2 & H3 & H4 & H5 & H6 & H7 & H8).
    split; [|by split].
    exists lm, mags, result. repeat (split; [done|]).
    intros i t Hi Hval. split; [by eapply H6|].
    intros v. by apply nan_compares_false. }
  clear Hblind Hattr Hheap.
  unfold read_between_the_lines in Hrun.
  step_in Hrun cfg Hs. injection Hs as <- <-.
  step_ro Hrun.
  step_in Hrun law Hs. apply alloc_inv in Hs as [_ ->].
  step_in Hrun u0 Hs. injection Hs as _ <-.
  step_in Hrun vmh Hs. apply getattr_inv in Hs as [-> Hmh].
  step_in Hrun mh Hs. apply as_str_inv in Hs as [-> ->].
  cbn [attrs with_attrs with_heap] in Hmh.
  rewrite lookup_insert_ne in Hmh by done.
  step_in Hrun u1 Hs. injection Hs as _ <-.
  step_in Hrun cached Hs.
  match type of Hs with
  | _ ?wa = (_, ?wb) =>
      assert (Hwa : blinded_with_train_mask lt (build_train_mask targets) wa)
        by (repeat apply blinded_with_attr; try done;
            by apply blinded_with_heap_app);
      assert (Hcached :
                ((use_cache = false
                  \/ cache w !! rbtl_hash mh (load_stan_model rbtl_model_path)
                                  (self_settings w) = None)
                 /\ cached = None /\ wb = wa)
                \/ exists r,
                     use_cache = true
                     /\ is_Some (cache w !! rbtl_hash mh
                                   (load_stan_model rbtl_model_path)
                                   (self_settings w))
                     /\ cached = Some r
                     /\ cache wb = cache w
                     /\ optimizer_calls wb = optimizer_calls w
                     /\ blinded_with_train_mask lt (build_train_mask targets)
                          wb)
  end.
  { destruct use_cache.
    - apply load_stan_result_inv in Hs
        as [(Hmiss & -> & ->)|(stored & r & Hhit & -> & -> & _)].
      + left. split; [by right|done].
      + right. exists r. split; [done|]. split; [by eexists|].
        split; [done|]. split; [done|]. split; [done|].
        by apply blinded_with_heap_app.
    - injection Hs as <- <-. left. split; [by left|done]. }
  clear Hs.
  destruct Hcached as [(Hfresh & -> & ->)|(r & -> & Hhit & -> & Hc & Ho & Hw1)].
  - (* Optimized, saved, parsed. *)
    do 6 step_ro Hrun.
    step_in Hrun result Hs.
    apply run_optimizing_inv in Hs as (values & Hopt & -> & Hholds).
    step_in Hrun u2 Hs. destruct u2.
    apply save_stan_result_inv in Hs as (stored & Hfreeze & ->).
    rewrite (freeze_holds _ result values) in Hfreeze by exact Hholds.
    injection Hfreeze as <-.
    apply (blinded_with_heap_app lt _ (map snd values)) in Hwa.
    match type of Hrun with
    | _parse_rbtl_result _ ?w0 = _ =>
        assert (Hw0 : blinded_with_train_mask lt (build_train_mask targets)
                        w0)
          by (destruct Hwa as (Hb & Ha & Hh); by repeat split)
    end.
    destruct (Hparse result _ Hw0 Hrun)
      as ((lm & mags & result' & Hres) & Hcache & Hcalls).
    exists lm, mags, result', mh.
    destruct Hres as (H1 & H2 & H3 & H4 & H5 & H6).
    repeat (split; [done|]). cbn zeta. right. split; [exact Hfresh|].
    eexists _, values. split; [exact Hopt|]. split; [exact Hcalls|].
    exact Hcache.
  - (* A cached result, parsed. *)
    destruct (Hparse r _ Hw1 Hrun)
      as ((lm & mags & result' & Hres) & Hcache & Hcalls).
    exists lm, mags, result', mh.
    destruct Hres as (H1 & H2 & H3 & H4 & H5 & H6).
    repeat (split; [done|]). cbn zeta. left.
    split; [done|]. split; [exact Hhit|]. split; congruence.
Qed.

End RbtlFacts.

(** C2 as stated fails: the magnitude that the optimizer computed for the
    validation target is read when the result is saved, before it is
    overwritten; the cache entry holds 2.0 where the object holds NaN. *)
Lemma blinded_run_saves_computed_magnitude :
  let w1 := snd (read_between_the_lines true toy_maximum_world) in
  blinded (self_settings toy_maximum_world) = true
  /\ map idr_subset toy_targets = ["training"; "validation"]
  /\ fst (read_between_the_lines true toy_maximum_world) = Ok tt
  /\ attr_array "rbtl_mags" w1 = Some (Floats [F64.one; F64.nan])
  /\ (cache w1 !! rbtl_hash (maximum_hash "dataset" "model"
                                (toy_settings 4 true))
                     "model" (toy_settings 4 true)
        ≫= assoc "magnitudes")
     = Some (Floats [F64.one; F64.of_Z 2]).
Proof. by vm_compute. Qed.

Lemma validation_magnitudes_blinded_witness :
  (blinded (self_settings toy_maximum_world) = true
   /\ attrs toy_maximum_world !! "train_mask" = Some (VArr 7%nat)
   /\ heap toy_maximum_world !! 7%nat
      = Some (Bools (build_train_mask toy_targets))
   /\ fst (read_between_the_lines true toy_maximum_world) = Ok tt)
  /\ exists lm mags result,
       attrs (snd (read_between_the_lines true toy_maximum_world))
         !! "rbtl_mags" = Some (VArr lm)
       /\ attrs (snd (read_between_the_lines true toy_maximum_world))
            !! "rbtl_result" = Some (VDict result)
       /\ assoc "magnitudes" result = Some lm
       /\ heap (snd (read_between_the_lines true toy_maximum_world)) !! lm
          = Some (Floats mags)
       /\ mags !! 1%nat = Some F64.nan.
Proof.
  assert (Hb : blinded (self_settings toy_maximum_world) = true)
    by (by vm_compute).
  assert (Ha : attrs toy_maximum_world !! "train_mask" = Some (VArr 7%nat))
    by (by vm_compute).
  assert (Hh : heap toy_maximum_world !! 7%nat
               = Some (Bools (build_train_mask toy_targets)))
    by (by vm_compute).
  assert (Hr : fst (read_between_the_lines true toy_maximum_world) = Ok tt)
    by (by vm_compute).
  split; [exact (conj Hb (conj Ha (conj Hh Hr)))|].
  destruct (read_between_the_lines true toy_maximum_world) as [r w'] eqn:Hrun.
  cbn [fst] in Hr. subst r.
  destruct (validation_magnitudes_blinded true toy_maximum_world w'
              toy_targets 7%nat Hb Ha Hh Hrun)
    as (lm & mags & result & mh & H1 & H2 & H3 & H4 & _ & H6 & _).
  exists lm, mags, result. cbn [snd].
  exact (conj H1 (conj H2 (conj H3 (conj H4
           (proj1 (H6 1%nat (Target "SN2" "validation") eq_refl eq_refl)))))).
Defined.

(** The toy run: the optimizer's magnitudes are 1.0 and 2.0, the second
    target is in the validation set.  The object holds NaN for it after the
    stage, on a fresh run and on a run from the cache; the cache entry, which
    is written before the result is parsed, holds the computed value. *)
Example blinded_run :
  let w1 := snd (read_between_the_lines true toy_maximum_world) in
  let w2 := snd (read_between_the_lines true w1) in
  attr_array "rbtl_mags" w1 = Some (Floats [F64.one; F64.nan])
  /\ attr_array "rbtl_mags" w2 = Some (Floats [F64.one; F64.nan])
  /\ length (optimizer_calls w2) = length (optimizer_calls w1)
  /\ (cache w1 !! rbtl_hash (maximum_hash "dataset" "model"
                                (toy_settings 4 true))
                     "model" (toy_settings 4 true)
        ≫= assoc "magnitudes")
     = Some (Floats [F64.one; F64.of_Z 2]).
Proof. by vm_compute. Qed.

(** ** Sensitivity of the cache keys *)

Lemma string_length_app (a b : string) :
  String.length (a +:+ b) = (String.length a + String.length b)%nat.
Proof. induction a as [|c a IH]; simpl; [done|]. by rewrite IH. Qed.

(** A common suffix cancels. *)
Lemma string_app_inj_r (s a b : string) : a +:+ s = b +:+ s -> a = b.
Proof.
  revert b. induction a as [|c a IH]; intros [|d b] Heq; simpl in *.
  - done.
  - apply (f_equal String.length) in Heq.
    rewrite ?string_length_app in Heq. simpl in Heq.
    rewrite ?string_length_app in Heq. lia.
  - apply (f_equal String.length) in Heq.
    rewrite ?string_length_app in Heq. simpl in Heq.
    rewrite ?string_length_app in Heq. lia.
  - injection Heq as -> Heq. f_equal. by apply IH.
Qed.

Section HashFacts.
Context `{Externals}.

(** Python's [str] gives different texts for different numbers. *)
Hypothesis py_str_inj : forall a b : pynum, py_str a = py_str b -> a = b.

Lemma dataset_hash_inv (cfg : settings) (d : string) :
  dataset_hash cfg = Ok d -> d = md5 (dataset_hash_info cfg).
Proof.
  unfold dataset_hash, ascii_encode.
  destruct (forallb _ _); [|done]. by intros [= <-].
Qed.

(** The text of the dataset hash changes with each of its eight
    parameters. *)
Lemma dataset_hash_info_differs (p : hash_parameter) (c1 c2 : settings) :
  differ_only_at p c1 c2 ->
  p <> P_maximum_num_phase_coefficients ->
  dataset_hash_info c1 <> dataset_hash_info c2.
Proof.
  intros [Hdiff Hsame] Hp Heq. apply Hdiff. clear Hdiff.
  unfold dataset_hash_info in Heq.
  pose proof (Hsame P_idr) as H0.
  pose proof (Hsame P_phase_range) as H1.
  pose proof (Hsame P_bin_velocity) as H2.
  pose proof (Hsame P_bin_min_wavelength) as H3.
  pose proof (Hsame P_bin_max_wavelength) as H4.
  pose proof (Hsame P_s2n_cut_min_wavelength) as H5.
  pose proof (Hsame P_s2n_cut_max_wavelength) as H6.
  pose proof (Hsame P_s2n_cut_threshold) as H7.
  clear Hsame. destruct c1, c2. simpl in *.
  destruct p; try done;
    repeat match goal with
           | Hq : ?q <> ?q' -> _ |- _ =>
               first [ specialize (Hq ltac:(discriminate)); injection Hq as ->
                     | clear Hq ]
           end;
    repeat (apply (inj (String.append _)) in Heq);
    try apply string_app_inj_r in Heq;
    try apply py_str_inj in Heq; by subst.
Qed.

(** The number of phase coefficients is no part of it. *)
Lemma dataset_hash_info_same (c1 c2 : settings) :
  differ_only_at P_maximum_num_phase_coefficients c1 c2 ->
  dataset_hash_info c1 = dataset_hash_info c2.
Proof.
  intros [_ Hsame]. unfold dataset_hash_info.
  pose proof (Hsame P_idr ltac:(done)) as [= ->].
  pose proof (Hsame P_phase_range ltac:(done)) as [= ->].
  pose proof (Hsame P_bin_velocity ltac:(done)) as [= ->].
  pose proof (Hsame P_bin_min_wavelength ltac:(done)) as [= ->].
  pose proof (Hsame P_bin_max_wavelength ltac:(done)) as [= ->].
  pose proof (Hsame P_s2n_cut_min_wavelength ltac:(done)) as [= ->].
  pose proof (Hsame P_s2n_cut_max_wavelength ltac:(done)) as [= ->].
  pose proof (Hsame P_s2n_cut_threshold ltac:(done)) as [= ->].
  done.
Qed.

(** With nothing stored under its maximum hash, a run with the cache
    does what a run without the cache does. *)
Lemma model_maximum_spectra_miss (w : world) (dh : string) :
  attrs w !! "dataset_hash" = Some (VStr dh) ->
  cache w !! maximum_hash dh (load_stan_model maximum_model_path)
               (self_settings w) = None ->
  model_maximum_spectra true w = model_maximum_spectra false w.
Proof.
  intros Hdh Hmiss. unfold model_maximum_spectra.
  rewrite !(bind_Ok (getattr "dataset_hash") _ w (VStr dh) w)
    by (by apply getattr_Ok).
  rewrite !(bind_Ok (as_str (VStr dh)) _ w dh w eq_refl).
  rewrite !(bind_Ok (setting id) _ w (self_settings w) w eq_refl).
  set (mh := maximum_hash dh _ _) in *.
  set (w1 := with_attrs (insert "maximum_hash" (VStr mh)) w).
  rewrite !(bind_Ok (setattr "maximum_hash" (VStr mh)) _ w tt w1 eq_refl).
  assert (Hload : load_stan_result mh w1 = (Ok None, w1)).
  { unfold load_stan_result. replace (cache w1) with (cache w) by done.
    by rewrite Hmiss. }
  rewrite (bind_Ok (load_stan_result mh) _ w1 None w1 Hload).
  by rewrite (bind_Ok (mret None) _ w1 None w1 eq_refl).
Qed.

(** C6, as the code has it.  Two configurations differ in one parameter
    of the hash formulas, both dataset hashes exist, and md5 does not
    collide on the two pairs of hashed texts.  Then the maximum hashes
    differ; the dataset hashes differ for the eight parameters of their
    formula and are equal when only the number of phase coefficients
    differs.  On a cache that holds the first run's entry and nothing
    under the second run's key, the second run does what a run without a
    cache does: when it returns it has optimized once, stored the
    optimizer's result under its own key beside the first run's entry, and
    its [maximum_flux] is the optimizer's. *)
Theorem cache_keys_differ (p : hash_parameter) (c1 c2 : settings)
    (d1 d2 : string) :
  let model_hash := load_stan_model maximum_model_path in
  let k1 := maximum_hash d1 model_hash c1 in
  let k2 := maximum_hash d2 model_hash c2 in
  differ_only_at p c1 c2 ->
  dataset_hash c1 = Ok d1 ->
  dataset_hash c2 = Ok d2 ->
  no_collision (dataset_hash_info c1) (dataset_hash_info c2) ->
  no_collision (maximum_hash_info d1 model_hash c1)
               (maximum_hash_info d2 model_hash c2) ->
  k1 <> k2
  /\ (p <> P_maximum_num_phase_coefficients -> d1 <> d2)
  /\ (p = P_maximum_num_phase_coefficients -> d1 = d2)
  /\ forall (w : world) cache0 stored,
       self_settings w = c2 ->
       attrs w !! "dataset_hash" = Some (VStr d2) ->
       cache w = <[k1:=stored]> cache0 ->
       cache0 !! k2 = None ->
       model_maximum_spectra true w = model_maximum_spectra false w
       /\ forall w',
            model_maximum_spectra true w = (Ok tt, w') ->
            exists data values,
              optimizing maximum_model_path data = Ok values
              /\ optimizer_calls w'
                 = optimizer_calls w ++ [(maximum_model_path, data)]
              /\ cache w' = <[k2:=values]> (<[k1:=stored]> cache0)
              /\ attr_array "maximum_flux" w' = assoc "maximum_flux" values
              /\ attr_array "maximum_fluxerr" w'
                 = assoc "maximum_fluxerr" values.
Proof.
  intros model_hash k1 k2 Hdiff Hd1 Hd2 Hnc Hncm.
  apply dataset_hash_inv in Hd1, Hd2.
  assert (Hdata : p <> P_maximum_num_phase_coefficients -> d1 <> d2).
  { intros Hp Heq. apply (dataset_hash_info_differs p c1 c2 Hdiff Hp).
    apply Hnc. congruence. }
  assert (Hequal : p = P_maximum_num_phase_coefficients -> d1 = d2).
  { intros ->. rewrite Hd1, Hd2. f_equal. by apply dataset_hash_info_same. }
  assert (Hmax : k1 <> k2).
  { intros Heq. apply Hncm in Heq. unfold maximum_hash_info in Heq.
    destruct (decide (p = P_maximum_num_phase_coefficients)) as [Hp|Hp].
    - rewrite (Hequal Hp) in Heq. subst p.
      destruct Hdiff as [Hn _]. apply Hn. simpl.
      repeat (apply (inj (String.append _)) in Heq).
      apply py_str_inj in Heq. by injection Heq as ->.
    - apply (Hdata Hp). destruct Hdiff as [_ Hsame].
      pose proof (Hsame P_maximum_num_phase_coefficients ltac:(done))
        as [= Hn].
      rewrite Hn in Heq. by apply string_app_inj_r in Heq. }
  split; [exact Hmax|]. split; [exact Hdata|]. split; [exact Hequal|].
  intros w cache0 stored Hcfg Hdh Hcache Hfree.
  assert (Hmiss : cache w !! maximum_hash d2
                               (load_stan_model maximum_model_path)
                               (self_settings w) = None).
  { rewrite Hcfg, Hcache. fold model_hash. fold k2.
    by rewrite lookup_insert_ne. }
  split; [by apply (model_maximum_spectra_miss w d2)|].
  intros w' Hrun.
  destruct (model_maximum_spectra_post w w' Hrun)
    as (dh & values & af & ae & _ & _ & Hf & He & Haf & Hae & Hdh' & _
        & Hhow).
  rewrite Hdh in Hdh'. injection Hdh' as <-.
  destruct Hhow as [(Hhit & _)|(_ & (data & Hopt & Hcalls) & Hsaved)];
    [congruence|].
  exists data, values. split; [exact Hopt|]. split; [exact Hcalls|].
  split; [|by rewrite Haf, Hae, Hf, He].
  rewrite Hsaved, Hcfg, Hcache. done.
Qed.

End HashFacts.

Lemma injective_str_inj (a b : pynum) :
  injective_str a = injective_str b -> a = b.
Proof.
  unfold injective_str. intros Heq.
  apply (inj pretty) in Heq. by apply (inj encode) in Heq.
Qed.

(** C6 as stated fails for the ninth parameter: two configurations that
    differ only in the number of phase coefficients have one dataset
    hash. *)
Lemma dataset_hash_ignores_phase_coefficients :
  differ_only_at P_maximum_num_phase_coefficients
    (toy_settings 4 true) (toy_settings 6 true)
  /\ dataset_hash (toy_settings 4 true) = dataset_hash (toy_settings 6 true)
  /\ dataset_hash (toy_settings 4 true)
     = Ok (md5 (dataset_hash_info (toy_settings 4 true))).
Proof.
  split; [|split; by vm_compute].
  split; [discriminate|]. intros [] Hq; try reflexivity. by destruct Hq.
Qed.

(** A name of the dataset outside ASCII: the text cannot be encoded and
    no dataset hash exists. *)
Example dataset_hash_of_non_ascii_idr :
  dataset_hash
    (Settings (String (Ascii.ascii_of_nat 233) "cole") (PyFloat (F64.of_Z 5))
       (PyInt 1000) (PyInt 3300) (PyInt 8600) (PyInt 3300) (PyInt 3800)
       (PyInt 100) 4 (PyFloat F64.one) (PyFloat F64.one) 10 3 true 1)
  = Raise UnicodeEncodeError.
Proof. by vm_compute. Qed.

Lemma cache_keys_differ_witness :
  let c1 := toy_settings 4 true in
  let c2 :=
    Settings "IDR" (PyFloat (F64.of_Z 5)) (PyInt 2000) (PyInt 3300)
      (PyInt 8600) (PyInt 3300) (PyInt 3800) (PyInt 100) 4
      (rbtl_fiducial_rv c1) (mask_uncertainty_fraction c1) 10 3 true 1 in
  let d1 := @dataset_hash_info injective_externals c1 in
  let d2 := @dataset_hash_info injective_externals c2 in
  (differ_only_at P_bin_velocity c1 c2
   /\ @dataset_hash injective_externals c1 = Ok d1
   /\ @dataset_hash injective_externals c2 = Ok d2
   /\ @no_collision injective_externals d1 d2
   /\ @no_collision injective_externals
        (@maximum_hash_info injective_externals d1 "model" c1)
        (@maximum_hash_info injective_externals d2 "model" c2))
  /\ @maximum_hash injective_externals d1 "model" c1
     <> @maximum_hash injective_externals d2 "model" c2.
Proof.
  intros c1 c2 d1 d2.
  assert (Hdiff : differ_only_at P_bin_velocity c1 c2).
  { split; [discriminate|]. intros [] Hq; try reflexivity. by destruct Hq. }
  assert (Hd1 : @dataset_hash injective_externals c1 = Ok d1)
    by (by vm_compute).
  assert (Hd2 : @dataset_hash injective_externals c2 = Ok d2)
    by (by vm_compute).
  assert (Hn1 : @no_collision injective_externals d1 d2)
    by exact (fun Heq => Heq).
  assert (Hn2 : @no_collision injective_externals
                  (@maximum_hash_info injective_externals d1 "model" c1)
                  (@maximum_hash_info injective_externals d2 "model" c2))
    by exact (fun Heq => Heq).
  split; [exact (conj Hdiff (conj Hd1 (conj Hd2 (conj Hn1 Hn2))))|].
  exact (proj1 (@cache_keys_differ injective_externals injective_str_inj
                  P_bin_velocity c1 c2 d1 d2 Hdiff Hd1 Hd2 Hn1 Hn2)).
Defined.

(** ** The centre mask *)

Lemma abs_leb_key (a b : spec_float) :
  F64.is_nan a = false -> F64.is_nan b = false ->
  F64.leb (F64.abs a) (F64.abs b) = true
  <-> key_le (magnitude_key a) (magnitude_key b).
Proof.
  intros Ha Hb. unfold F64.leb, F64.abs, SFleb.
  destruct a as [sa|sa| |sa ma ea], b as [sb|sb| |sb mb eb]; try done;
    simpl; try (split; [intros _; lia|done]); try (split; [done|lia]).
  rewrite Pos.compare_cont_spec. simpl.
  destruct (Z.compare_spec ea eb) as [->|Hlt|Hgt].
  - destruct (Pos.compare_spec ma mb) as [->|Hlt|Hgt]; simpl.
    + split; [intros _; lia|done].
    + split; [intros _; lia|done].
    + split; [done|lia].
  - split; [intros _; lia|done].
  - split; [done|lia].
Qed.

Lemma abs_leb_refl a : F64.is_nan a = false -> F64.leb (F64.abs a) (F64.abs a) = true.
Proof.
  intros Ha. apply abs_leb_key; [done|done|].
  unfold key_le. destruct (magnitude_key a) as [[c e] m]. lia.
Qed.

Lemma abs_leb_trans a b c :
  F64.is_nan a = false -> F64.is_nan b = false -> F64.is_nan c = false ->
  F64.leb (F64.abs a) (F64.abs b) = true ->
  F64.leb (F64.abs b) (F64.abs c) = true ->
  F64.leb (F64.abs a) (F64.abs c) = true.
Proof.
  intros Ha Hb Hc Hab Hbc.
  apply abs_leb_key in Hab; [|done|done]. apply abs_leb_key in Hbc; [|done|done].
  apply abs_leb_key; [done|done|]. unfold key_le in *.
  destruct (magnitude_key a) as [[c1 e1] m1], (magnitude_key b) as [[c2 e2] m2],
    (magnitude_key c) as [[c3 e3] m3]. lia.
Qed.

Lemma abs_leb_total a b :
  F64.is_nan a = false -> F64.is_nan b = false ->
  F64.leb (F64.abs a) (F64.abs b) = false ->
  F64.leb (F64.abs b) (F64.abs a) = true.
Proof.
  intros Ha Hb Hab. apply abs_leb_key; [done|done|].
  assert (Hn : ~ key_le (magnitude_key a) (magnitude_key b)).
  { intros Hk. apply abs_leb_key in Hk; [|done|done]. congruence. }
  unfold key_le in *.
  destruct (magnitude_key a) as [[c1 e1] m1], (magnitude_key b) as [[c2 e2] m2].
  lia.
Qed.

Lemma is_nan_abs a : F64.is_nan (F64.abs a) = F64.is_nan a.
Proof. by destruct a. Qed.

(** [np.argmin] on absolute values without NaN: a position of the list
    whose value is below every other. *)
Lemma argmin_from_abs (pre l : list spec_float) (best : spec_float) (best_i : nat) :
  Forall (fun p => F64.is_nan p = false) (pre ++ l) ->
  pre !! best_i = Some best ->
  (forall p, p ∈ pre -> F64.leb (F64.abs best) (F64.abs p) = true) ->
  exists m,
    (pre ++ l) !! argmin_from (F64.abs best) best_i (length pre) (map F64.abs l)
    = Some m
    /\ forall p, p ∈ pre ++ l -> F64.leb (F64.abs m) (F64.abs p) = true.
Proof.
  revert pre best best_i. induction l as [|v l IH]; intros pre best best_i Hnan Hbest Hmin.
  - simpl. rewrite app_nil_r. by exists best.
  - assert (Hb : F64.is_nan best = false).
    { rewrite Forall_forall in Hnan. apply Hnan.
      apply elem_of_app. left. by eapply list_elem_of_lookup_2. }
    assert (Hv : F64.is_nan v = false).
    { rewrite Forall_forall in Hnan. apply Hnan.
      apply elem_of_app. right. left. }
    simpl. rewrite is_nan_abs, Hb. unfold F64.geb.
    fold (F64.leb (F64.abs best) (F64.abs v)).
    replace (pre ++ v :: l) with ((pre ++ [v]) ++ l) in *
      by (by rewrite <- app_assoc).
    replace (S (length pre)) with (length (pre ++ [v]))
      by (rewrite length_app; simpl; lia).
    destruct (F64.leb (F64.abs best) (F64.abs v)) eqn:Hle; simpl.
    + apply IH; [done|by apply lookup_app_l_Some|].
      intros p Hp. apply elem_of_app in Hp as [Hp|Hp]; [by apply Hmin|].
      apply list_elem_of_singleton in Hp as ->. done.
    + apply IH; [done| |].
      * rewrite lookup_app_r by lia. by rewrite Nat.sub_diag.
      * intros p Hp. apply elem_of_app in Hp as [Hp|Hp].
        -- apply (abs_leb_trans v best p); try done.
           ++ rewrite Forall_forall in Hnan. apply Hnan.
              apply elem_of_app. left. apply elem_of_app. by left.
           ++ by apply abs_leb_total.
           ++ by apply Hmin.
        -- apply list_elem_of_singleton in Hp as ->. by apply abs_leb_refl.
Qed.

Lemma argmin_abs (l : list spec_float) :
  l <> [] ->
  exists k,
    argmin (map F64.abs l) = Ok k
    /\ (k < length l)%nat
    /\ (Forall (fun p => F64.is_nan p = false) l ->
        exists m, l !! k = Some m
          /\ forall p, p ∈ l -> F64.leb (F64.abs m) (F64.abs p) = true).
Proof.
  destruct l as [|v l]; [done|]. intros _. simpl. eexists. split; [done|].
  split.
  - (* The position is in the list whatever the values are. *)
    assert (Hlt : forall (l : list spec_float) best best_i i,
              (best_i < i)%nat ->
              (argmin_from best best_i i l < i + length l)%nat).
    { clear. induction l as [|x l IH]; intros best best_i i Hi; simpl; [lia|].
      destruct (F64.is_nan best); [lia|].
      destruct (negb _).
      - specialize (IH x i (S i) ltac:(lia)). lia.
      - specialize (IH best best_i (S i) ltac:(lia)). lia. }
    specialize (Hlt (map F64.abs l) (F64.abs v) 0%nat 1%nat ltac:(lia)).
    rewrite length_map in Hlt. simpl. lia.
  - intros Hnan.
    destruct (argmin_from_abs [v] l v 0%nat) as (m & Hm & Hmin); try done.
    { intros p Hp. apply list_elem_of_singleton in Hp as ->.
      apply abs_leb_refl. by inversion Hnan. }
    by exists m.
Qed.

Lemma count_true_replicate_false n : Np.count_true (replicate n false) = 0%nat.
Proof. induction n as [|n IH]; [done|]. simpl. by rewrite count_true_cons. Qed.

Lemma count_true_one_hot n k : (k < n)%nat -> Np.count_true (one_hot n k) = 1%nat.
Proof.
  unfold one_hot. revert k. induction n as [|n IH]; intros k Hk; [lia|].
  destruct k as [|k]; simpl; rewrite count_true_cons.
  - by rewrite count_true_replicate_false.
  - apply IH. lia.
Qed.

Section SelectSpectraFacts.
Context {SN SP : Type}.
Variable sn_spectra : SN -> list SP.
Variable salt_t0_err : SN -> spec_float.
Variable get_spectra_in_range : SN -> spec_float -> spec_float -> list SP.
Variable phase_of : SP -> spec_float.
Variable get_signal_to_noise : SP -> pynum -> pynum -> spec_float.
Variable cfg : settings.

Notation loop_turn :=
  (select_target sn_spectra salt_t0_err get_spectra_in_range phase_of
     get_signal_to_noise cfg).
Notation used_of := (used_spectra get_signal_to_noise cfg).

(** C7.  One turn of the loop over the targets always returns.  For a
    target that passes the cuts on the number of spectra and on the
    time-of-maximum uncertainty and has used spectra in the phase range, the
    loop appends the used spectra and a block of the centre mask of the same
    length that holds True exactly once; when no used phase is NaN the
    marked spectrum has the least absolute phase.  For every other target
    the centre mask stays as it was. *)
Theorem center_mask_marks_one_spectrum (st : selection) (sn : SN) :
  let used :=
    used_of
      (get_spectra_in_range sn (SFopp (to_float (phase_range cfg)))
         (to_float (phase_range cfg))) in
  let survives :=
    (length (sn_spectra sn) <? 5)%nat = false
    /\ F64.gtb (salt_t0_err sn) F64.one = false in
  exists st',
    loop_turn st sn = Ok st'
    /\ (survives -> used <> [] ->
        exists k,
          (k < length used)%nat
          /\ center_mask st' = center_mask st ++ one_hot (length used) k
          /\ Np.count_true (one_hot (length used) k) = 1%nat
          /\ all_raw_spec st' = all_raw_spec st ++ used
          /\ (Forall (fun sp => F64.is_nan (phase_of sp) = false) used ->
              exists center,
                used !! k = Some center
                /\ forall sp, sp ∈ used ->
                     F64.leb (F64.abs (phase_of center))
                             (F64.abs (phase_of sp)) = true))
    /\ (~ (survives /\ used <> []) -> center_mask st' = center_mask st).
Proof.
  intros used survives. unfold survives. unfold select_target.
  fold used.
  destruct (length (sn_spectra sn) <? 5)%nat eqn:Hcount.
  { exists st. split; [done|]. split; [by intros [? _]|done]. }
  destruct (F64.gtb (salt_t0_err sn) F64.one) eqn:Herr.
  { eexists. split; [done|]. split; [by intros [_ ?]|done]. }
  rewrite length_map.
  destruct used as [|sp0 used0] eqn:Hused.
  { simpl. eexists. split; [done|]. split; [done|done]. }
  rewrite <- Hused.
  assert (Hne : map phase_of used <> []) by (by rewrite Hused).
  destruct (argmin_abs (map phase_of used) Hne) as (k & Hk & Hlt & Hmin).
  rewrite length_map in Hlt.
  replace (0 <? length used)%nat with true
    by (symmetry; apply Nat.ltb_lt; rewrite Hused; simpl; lia).
  unfold target_center_mask. rewrite Hk. cbn [mbind res_bind bind].
  rewrite length_map.
  eexists. split; [done|]. split; [|intros Hn; exfalso; apply Hn; by rewrite Hused].
  intros _ _. exists k. cbn [center_mask all_raw_spec].
  split; [done|]. split; [done|]. split; [by apply count_true_one_hot|].
  split; [done|]. intros Hnan.
  destruct Hmin as (m & Hm & Hleast).
  { apply Forall_fmap. exact Hnan. }
  rewrite list_lookup_fmap in Hm.
  destruct (used !! k) as [center|] eqn:Hcenter; [|done].
  injection Hm as <-. exists center. split; [done|].
  intros sp Hsp. apply Hleast. by apply list_elem_of_fmap_2.
Qed.

End SelectSpectraFacts.

(** Six spectra, three of them within 5 days of maximum: the one at phase
    1 is the centre. *)
Example center_mask_of_toy_supernova :
  (st ← select_target (fun sn => sn)
          (fun _ => F64.div (F64.of_Z 1) (F64.of_Z 2)) toy_in_range fst
          (fun sp _ _ => snd sp) (toy_settings 4 true)
          (selection_start (SP := spec_float * spec_float)) toy_supernova;
   Ok (center_mask st, length (all_raw_spec st)))
  = Ok ([false; true; false], 3%nat).
Proof. by vm_compute. Qed.

(** ** The rows of the phase-coefficient matrix *)

Lemma fold_res_app {A S : Type} (f : S -> A -> res S) (s : S) (l1 l2 : list A) :
  fold_res f s (l1 ++ l2) = (s' ← fold_res f s l1; fold_res f s' l2).
Proof.
  revert s. induction l1 as [|a l1 IH]; intros s; simpl; [done|].
  destruct (f s a) as [s1|e]; simpl; [apply IH|done].
Qed.

Lemma np_setitem_inv {A : Type} (a : list A) (i : Z) (v : A) (out : list A) :
  np_setitem a i v = Ok out ->
  exists k : nat,
    (k < length a)%nat /\ out = <[k:=v]> a
    /\ (0 <= i -> Z.of_nat k = i).
Proof.
  unfold np_setitem. intros Hset.
  destruct (i <? 0) eqn:Hneg.
  - destruct (_ && _) eqn:Hin; [|done]. injection Hset as <-.
    apply andb_prop in Hin as [H0 H1].
    exists (Z.to_nat (i + Z.of_nat (length a))). split; [lia|]. split; [done|lia].
  - destruct (_ && _) eqn:Hin; [|done]. injection Hset as <-.
    apply andb_prop in Hin as [H0 H1].
    exists (Z.to_nat i). split; [lia|]. split; [done|lia].
Qed.

Lemma count_nonzero_cons v row :
  count_nonzero (v :: row)
  = if F64.nonzero v then S (count_nonzero row) else count_nonzero row.
Proof.
  unfold count_nonzero. rewrite filter_cons.
  destruct (F64.nonzero v); case_decide; simpl; congruence.
Qed.

Lemma count_nonzero_insert (row : list spec_float) (k : nat) (v : spec_float) :
  (count_nonzero (<[k:=v]> row) <= S (count_nonzero row))%nat.
Proof.
  revert k. induction row as [|x row IH]; intros k; simpl; [unfold count_nonzero; simpl; lia|].
  destruct k as [|k]; simpl; rewrite !count_nonzero_cons.
  - destruct (F64.nonzero v), (F64.nonzero x); lia.
  - specialize (IH k). destruct (F64.nonzero x); lia.
Qed.

Lemma count_nonzero_zeros n : count_nonzero (replicate n F64.zero) = 0%nat.
Proof. induction n as [|n IH]; [done|]. simpl. by rewrite count_nonzero_cons. Qed.

Lemma floor_abs_nonneg (x : spec_float) (fb : Z) :
  F64.floor (F64.abs x) = Ok fb -> 0 <= fb.
Proof.
  destruct x as [s|s| |s m e]; simpl; try done.
  - intros [= <-]. lia.
  - intros [= <-]. destruct (0 <=? e) eqn:He.
    + apply Z.mul_nonneg_nonneg; [lia|]. apply Z.pow_nonneg. lia.
    + apply Z.div_pos; [lia|]. apply Z.pow_pos_nonneg; lia.
Qed.

(** The inner loop after [K] turns, when no turn wrote through a negative
    position. *)
Lemma fill_phase_row_turns (n : Z) (phase : spec_float) (fb : Z)
    (rem : spec_float) (K : nat) (row : list spec_float) :
  0 <= n ->
  fold_res
    (fun row j =>
       np_setitem row (phase_bin n phase j) (if j =? fb then rem else F64.one))
    (replicate (Z.to_nat n) F64.zero) (seqZ 0 (Z.of_nat K)) = Ok row ->
  length row = Z.to_nat n
  /\ (count_nonzero row <= K)%nat
  /\ ((forall j, 0 <= j < Z.of_nat K -> 0 <= phase_bin n phase j) ->
      forall c : nat, (c < Z.to_nat n)%nat ->
        row !! c
        = Some (if (0 <=? column_offset n phase c)
                   && (column_offset n phase c <? Z.of_nat K)
                then (if column_offset n phase c =? fb then rem else F64.one)
                else F64.zero)).
Proof.
  intros Hn. revert row. induction K as [|K IH]; intros row Hrun.
  - simpl in Hrun. injection Hrun as <-.
    rewrite length_replicate, count_nonzero_zeros.
    split; [done|]. split; [lia|]. intros _ c Hc.
    rewrite lookup_replicate_2 by done.
    destruct (0 <=? column_offset n phase c) eqn:E; [|done].
    replace (column_offset n phase c <? Z.of_nat 0) with false
      by (symmetry; apply Z.ltb_ge; apply Z.leb_le in E; lia).
    done.
  - rewrite seqZ_S, fold_res_app in Hrun.
    destruct (fold_res _ _ (seqZ 0 (Z.of_nat K))) as [row0|e] eqn:Hprev;
      [|done].
    cbn [mbind res_bind bind fold_res] in Hrun.
    destruct (IH row0 eq_refl) as (Hlen & Hcount & Hrows).
    replace (0 + Z.of_nat K) with (Z.of_nat K) in Hrun by lia.
    destruct (np_setitem row0 _ _) as [row1|e] eqn:Hset; [|done].
    cbn [mbind res_bind bind] in Hrun. injection Hrun as <-.
    apply np_setitem_inv in Hset as (k & Hk & -> & Hcol).
    split; [by rewrite length_insert|].
    split.
    { pose proof (count_nonzero_insert row0 k
                    (if Z.of_nat K =? fb then rem else F64.one)). lia. }
    intros Hpos c Hc.
    specialize (Hcol (Hpos (Z.of_nat K) ltac:(lia))).
    specialize (Hrows (fun j Hj => Hpos j ltac:(lia)) c Hc).
    assert (Hoff : Z.of_nat c = phase_bin n phase (column_offset n phase c)).
    { unfold phase_bin, column_offset. destruct (F64.gtb phase F64.zero); lia. }
    assert (Hoff' : column_offset n phase (Z.to_nat (phase_bin n phase (Z.of_nat K)))
                    = Z.of_nat K).
    { unfold phase_bin, column_offset in *.
      destruct (F64.gtb phase F64.zero); lia. }
    destruct (decide (c = k)) as [->|Hne].
    + rewrite list_lookup_insert_eq by lia.
      replace k with (Z.to_nat (phase_bin n phase (Z.of_nat K))) by lia.
      rewrite Hoff'.
      replace (0 <=? Z.of_nat K) with true by (symmetry; apply Z.leb_le; lia).
      replace (Z.of_nat K <? Z.of_nat (S K)) with true
        by (symmetry; apply Z.ltb_lt; lia).
      done.
    + rewrite list_lookup_insert_ne by done. rewrite Hrows.
      assert (Hnk : column_offset n phase c <> Z.of_nat K).
      { intros Heq. apply Hne. rewrite Heq in Hoff. lia. }
      f_equal.
      destruct (0 <=? column_offset n phase c) eqn:H0; [|done]. simpl.
      destruct (column_offset n phase c <? Z.of_nat K) eqn:H1.
      * replace (column_offset n phase c <? Z.of_nat (S K)) with true
          by (symmetry; apply Z.ltb_lt; apply Z.ltb_lt in H1; lia).
        done.
      * replace (column_offset n phase c <? Z.of_nat (S K)) with false
          by (symmetry; apply Z.ltb_ge; apply Z.ltb_ge in H1; lia).
        done.
Qed.

(** The row that is built for one spectrum, from its computed
    [full_bins]. *)
Lemma phase_coefficient_row_support (n : Z) (range : pynum) (phase : spec_float)
    (fb : Z) (row : list spec_float) :
  0 <= n ->
  full_bins n range phase = Ok fb ->
  phase_coefficient_row n range phase (replicate (Z.to_nat n) F64.zero)
  = Ok row ->
  0 <= fb
  /\ length row = Z.to_nat n
  /\ Z.of_nat (count_nonzero row) <= fb + 1
  /\ (F64.gtb phase F64.zero = true \/ fb < n `div` 2 ->
      forall c : nat, (c < Z.to_nat n)%nat ->
        row !! c
        = Some (weight_at fb (remainder n range phase fb)
                  (column_offset n phase c))).
Proof.
  intros Hn Hfb Hrow.
  assert (H0 : 0 <= fb) by (by eapply floor_abs_nonneg).
  unfold phase_coefficient_row in Hrow. rewrite Hfb in Hrow.
  cbn [mbind res_bind bind] in Hrow. unfold fill_phase_row in Hrow.
  replace (fb + 1) with (Z.of_nat (Z.to_nat (fb + 1))) in Hrow by lia.
  destruct (fill_phase_row_turns n phase fb (remainder n range phase fb)
              (Z.to_nat (fb + 1)) row Hn Hrow) as (Hlen & Hcount & Hrows).
  split; [done|]. split; [done|]. split; [lia|].
  intros Hside c Hc. rewrite Hrows; [| |done].
  - f_equal. unfold weight_at.
    destruct (column_offset n phase c <? 0) eqn:Hneg.
    { replace (0 <=? column_offset n phase c) with false
        by (symmetry; apply Z.leb_gt; apply Z.ltb_lt in Hneg; lia).
      done. }
    replace (0 <=? column_offset n phase c) with true
      by (symmetry; apply Z.leb_le; apply Z.ltb_ge in Hneg; lia).
    simpl.
    destruct (column_offset n phase c <? fb) eqn:Hlt.
    { replace (column_offset n phase c <? Z.of_nat (Z.to_nat (fb + 1)))
        with true by (symmetry; apply Z.ltb_lt; apply Z.ltb_lt in Hlt; lia).
      replace (column_offset n phase c =? fb) with false
        by (symmetry; apply Z.eqb_neq; apply Z.ltb_lt in Hlt; lia).
      done. }
    destruct (column_offset n phase c =? fb) eqn:Heq.
    { replace (column_offset n phase c <? Z.of_nat (Z.to_nat (fb + 1)))
        with true by (symmetry; apply Z.ltb_lt; apply Z.eqb_eq in Heq; lia).
      done. }
    replace (column_offset n phase c <? Z.of_nat (Z.to_nat (fb + 1)))
      with false
      by (symmetry; apply Z.ltb_ge; apply Z.ltb_ge in Hlt;
          apply Z.eqb_neq in Heq; lia).
    done.
  - intros j Hj. unfold phase_bin.
    destruct (F64.gtb phase F64.zero) eqn:Hpos.
    + assert (0 <= n `div` 2) by (apply Z.div_pos; lia). lia.
    + destruct Hside as [?|Hlt]; [done|]. lia.
Qed.

(** The loop over the spectra writes row [i] in turn [i] only, from the
    zero row. *)
Lemma fill_phase_coefficients_rows (n : Z) (range : pynum)
    (phases : list spec_float) (zeros m : list (list spec_float)) :
  (forall i row, zeros !! i = Some row ->
                 row = replicate (Z.to_nat n) F64.zero) ->
  fill_phase_coefficients n range phases zeros = Ok m ->
  length m = length zeros
  /\ (forall i phase, phases !! i = Some phase ->
        exists row,
          m !! i = Some row
          /\ phase_coefficient_row n range phase
               (replicate (Z.to_nat n) F64.zero) = Ok row)
  /\ (forall i, (length phases <= i)%nat -> m !! i = zeros !! i).
Proof.
  intros Hzero. revert m. unfold fill_phase_coefficients.
  induction phases as [|ph l IH] using rev_ind; intros m Hrun.
  - simpl in Hrun. injection Hrun as <-. by repeat split.
  - rewrite imap_app, fold_res_app in Hrun.
    destruct (fold_res _ zeros (imap _ l)) as [m0|e] eqn:Hprev; [|done].
    cbn [mbind res_bind bind] in Hrun.
    destruct (IH m0 eq_refl) as (Hlen & Hrows & Hrest).
    simpl in Hrun. rewrite Nat.add_0_r in Hrun.
    destruct (full_bins n range ph) as [fb|e] eqn:Hfb; [|done].
    cbn [mbind res_bind bind] in Hrun. unfold Np.item in Hrun.
    destruct (m0 !! length l) as [row|] eqn:Hrow; [|done].
    cbn [mbind res_bind bind] in Hrun.
    destruct (fill_phase_row n ph fb _ row) as [row'|e] eqn:Hfill; [|done].
    cbn [mbind res_bind bind] in Hrun. injection Hrun as <-.
    assert (Hz : row = replicate (Z.to_nat n) F64.zero).
    { apply (Hzero (length l)). by rewrite <- Hrest, Hrow by lia. }
    subst row.
    split; [by rewrite length_insert|]. split.
    + intros i phase Hi.
      destruct (decide (i = length l)) as [->|Hne].
      * rewrite lookup_app_r, Nat.sub_diag in Hi by lia.
        injection Hi as <-. exists row'.
        split; [apply list_lookup_insert_eq; by eapply lookup_lt_Some|].
        unfold phase_coefficient_row. by rewrite Hfb.
      * rewrite list_lookup_insert_ne by done. apply Hrows.
        rewrite lookup_app_l in Hi; [done|].
        apply lookup_lt_Some in Hi. rewrite length_app in Hi. simpl in Hi.
        lia.
    + intros i Hi. rewrite length_app in Hi. simpl in Hi.
      rewrite list_lookup_insert_ne by lia. apply Hrest. lia.
Qed.

(** Positions inside the row are written as they are. *)
Lemma np_setitem_in_range {A : Type} (a : list A) (i : Z) (v : A) :
  0 <= i < Z.of_nat (length a) ->
  np_setitem a i v = Ok (<[Z.to_nat i:=v]> a).
Proof.
  intros Hi. unfold np_setitem.
  replace (i <? 0) with false by (symmetry; apply Z.ltb_ge; lia).
  replace (0 <=? i) with true by (symmetry; apply Z.leb_le; lia).
  by replace (i <? Z.of_nat (length a)) with true
    by (symmetry; apply Z.ltb_lt; lia).
Qed.

(** The inner loop returns when it stays on its side of the centre. *)
Lemma fill_phase_row_returns (n : Z) (phase : spec_float) (fb : Z)
    (rem : spec_float) (row : list spec_float) :
  0 <= fb < n `div` 2 ->
  length row = Z.to_nat n ->
  exists row', fill_phase_row n phase fb rem row = Ok row'.
Proof.
  intros Hfb Hlen. unfold fill_phase_row.
  assert (Hhalf : 2 * (n `div` 2) <= n)
    by (apply Z.mul_div_le; lia).
  assert (Hturns : forall K : nat,
            Z.of_nat K <= fb + 1 ->
            exists row',
              fold_res
                (fun row j =>
                   np_setitem row (phase_bin n phase j)
                     (if j =? fb then rem else F64.one))
                row (seqZ 0 (Z.of_nat K)) = Ok row'
              /\ length row' = length row).
  { induction K as [|K IH]; intros HK.
    - exists row. by split.
    - destruct IH as (row0 & Hprev & Hlen0); [lia|].
      rewrite seqZ_S, fold_res_app, Hprev.
      cbn [mbind res_bind bind fold_res].
      replace (0 + Z.of_nat K) with (Z.of_nat K) by lia.
      rewrite np_setitem_in_range.
      + eexists. split; [done|]. by rewrite length_insert.
      + rewrite Hlen0, Hlen. unfold phase_bin.
        destruct (F64.gtb phase F64.zero); lia. }
  destruct (Hturns (Z.to_nat (fb + 1))) as (row' & Hrun & _); [lia|].
  replace (Z.of_nat (Z.to_nat (fb + 1))) with (fb + 1) in Hrun by lia.
  by exists row'.
Qed.

(** The loop over the spectra returns when every phase stays on its side
    of the centre and the matrix has a row for every phase. *)
Lemma fill_phase_coefficients_returns (n : Z) (range : pynum)
    (phases : list spec_float) (zeros : list (list spec_float)) :
  (length phases <= length zeros)%nat ->
  (forall i row, zeros !! i = Some row ->
                 row = replicate (Z.to_nat n) F64.zero) ->
  (forall phase, phase ∈ phases ->
     exists fb, full_bins n range phase = Ok fb /\ fb < n `div` 2) ->
  exists m, fill_phase_coefficients n range phases zeros = Ok m.
Proof.
  intros Hlen Hzero.
  induction phases as [|ph l IH] using rev_ind; intros Hbins.
  - by exists zeros.
  - rewrite length_app in Hlen. simpl in Hlen.
    destruct IH as (m0 & Hprev); [lia| |].
    { intros phase Hin. apply Hbins, elem_of_app. by left. }
    destruct (fill_phase_coefficients_rows n range l zeros m0 Hzero Hprev)
      as (_ & _ & Hrest).
    destruct (Hbins ph) as (fb & Hfb & Hlt);
      [apply elem_of_app; right; left|].
    destruct (lookup_lt_is_Some_2 zeros (length l)) as [row Hrow]; [lia|].
    pose proof (Hzero _ _ Hrow) as ->.
    destruct (fill_phase_row_returns n ph fb (remainder n range ph fb)
                (replicate (Z.to_nat n) F64.zero)) as (row' & Hfill).
    { split; [by eapply floor_abs_nonneg|done]. }
    { by rewrite length_replicate. }
    unfold fill_phase_coefficients in *.
    rewrite imap_app, fold_res_app, Hprev. cbn [mbind res_bind bind].
    simpl. rewrite Nat.add_0_r, Hfb. cbn [mbind res_bind bind].
    unfold Np.item. rewrite (Hrest (length l)), Hrow by lia.
    cbn [mbind res_bind bind]. rewrite Hfill. cbn [mbind res_bind bind].
    by eexists.
Qed.

(** C3, as the code has it.  The loop over the spectra starts from the
    zero matrix.  It returns when the matrix has a row for every phase and
    every [full_bins], the floor of [|n/2 * phase/phase_range|], is below
    [n // 2].  In the matrix it returns, the row of a spectrum holds at
    most [full_bins + 1] nonzero entries; when no column was reached through
    a negative position (a positive phase, or [full_bins < n // 2]) it
    holds 1.0 in the [full_bins] columns next to the centre on the side of
    the phase, the remainder in the following column and 0.0 elsewhere. *)
Theorem phase_row_support (n : Z) (range : pynum)
    (salt_phases : list spec_float) (num_spectra : Z)
    (zeros : list (list spec_float)) :
  np_zeros2 num_spectra n = Ok zeros ->
  ((length salt_phases <= Z.to_nat num_spectra)%nat ->
   (forall phase, phase ∈ salt_phases ->
      exists fb, full_bins n range phase = Ok fb /\ fb < n `div` 2) ->
   exists m, fill_phase_coefficients n range salt_phases zeros = Ok m)
  /\ forall m i phase,
       fill_phase_coefficients n range salt_phases zeros = Ok m ->
       salt_phases !! i = Some phase ->
       exists fb row,
         full_bins n range phase = Ok fb
         /\ m !! i = Some row
         /\ 0 <= fb
         /\ length row = Z.to_nat n
         /\ Z.of_nat (count_nonzero row) <= fb + 1
         /\ (F64.gtb phase F64.zero = true \/ fb < n `div` 2 ->
             forall c : nat, (c < Z.to_nat n)%nat ->
               row !! c
               = Some (weight_at fb (remainder n range phase fb)
                         (column_offset n phase c))).
Proof.
  intros Hzeros. unfold np_zeros2 in Hzeros.
  destruct ((num_spectra <? 0) || (n <? 0)) eqn:Hneg; [done|].
  injection Hzeros as <-. apply orb_false_elim in Hneg as [_ Hn].
  apply Z.ltb_ge in Hn.
  assert (Hzero : forall j row,
            replicate (Z.to_nat num_spectra)
              (replicate (Z.to_nat n) F64.zero) !! j = Some row ->
            row = replicate (Z.to_nat n) F64.zero).
  { intros j row Hj. by apply lookup_replicate in Hj as [-> _]. }
  split.
  - intros Hrows Hbins.
    apply fill_phase_coefficients_returns; [|done|done].
    by rewrite length_replicate.
  - intros m i phase Hrun Hphase.
    destruct (fill_phase_coefficients_rows n range salt_phases
                (replicate (Z.to_nat num_spectra)
                   (replicate (Z.to_nat n) F64.zero)) m Hzero Hrun)
      as (_ & Hrows & _).
    destruct (Hrows i phase Hphase) as (row & Hrow & Hbuilt).
    destruct (full_bins n range phase) as [fb|e] eqn:Hfb.
    + destruct (phase_coefficient_row_support n range phase fb row
                  Hn Hfb Hbuilt) as (H0 & Hlen & Hcount & Hshape).
      by exists fb, row.
    + unfold phase_coefficient_row in Hbuilt. by rewrite Hfb in Hbuilt.
Qed.

(** C3 as stated fails: with six phase coefficients and a phase range of
    5 days, a spectrum at phase 3.75 has three nonzero coefficients. *)
Lemma phase_row_three_nonzero :
  F64.leb (SFopp (F64.of_Z 5)) phase_3_75 = true
  /\ F64.leb phase_3_75 (F64.of_Z 5) = true
  /\ phase_coefficient_row 6 (PyFloat (F64.of_Z 5)) phase_3_75
       (replicate 6 F64.zero)
     = Ok [F64.zero; F64.zero; F64.zero; F64.one; F64.one;
           F64.div (F64.of_Z 1) (F64.of_Z 4)]
  /\ count_nonzero [F64.zero; F64.zero; F64.zero; F64.one; F64.one;
                    F64.div (F64.of_Z 1) (F64.of_Z 4)] = 3%nat.
Proof. by vm_compute. Qed.

Lemma phase_row_support_witness :
  np_zeros2 1 6 = Ok [replicate 6 F64.zero]
  /\ fill_phase_coefficients 6 (PyFloat (F64.of_Z 5)) [phase_3_75]
       [replicate 6 F64.zero]
     = Ok [[F64.zero; F64.zero; F64.zero; F64.one; F64.one;
            F64.div (F64.of_Z 1) (F64.of_Z 4)]]
  /\ exists fb row,
       full_bins 6 (PyFloat (F64.of_Z 5)) phase_3_75 = Ok fb
       /\ [[F64.zero; F64.zero; F64.zero; F64.one; F64.one;
            F64.div (F64.of_Z 1) (F64.of_Z 4)]] !! 0%nat = Some row
       /\ Z.of_nat (count_nonzero row) <= fb + 1.
Proof.
  assert (Hz : np_zeros2 1 6 = Ok [replicate 6 F64.zero]) by reflexivity.
  assert (Hm : fill_phase_coefficients 6 (PyFloat (F64.of_Z 5)) [phase_3_75]
                 [replicate 6 F64.zero]
               = Ok [[F64.zero; F64.zero; F64.zero; F64.one; F64.one;
                      F64.div (F64.of_Z 1) (F64.of_Z 4)]])
    by (by vm_compute).
  split; [exact Hz|]. split; [exact Hm|].
  destruct (phase_row_support 6 (PyFloat (F64.of_Z 5)) [phase_3_75] 1 _ Hz)
    as [_ Hrows].
  destruct (Hrows _ 0%nat phase_3_75 Hm eq_refl)
    as (fb & row & Hfb & Hrow & _ & _ & Hcount & _).
  exists fb, row. exact (conj Hfb (conj Hrow Hcount)).
Defined.

(** At the upper end of the range the loop writes one column too far. *)
Example phase_row_at_upper_end :
  phase_coefficient_row 4 (PyFloat (F64.of_Z 5)) (F64.of_Z 5)
    (replicate 4 F64.zero) = Raise IndexError
  /\ phase_coefficient_row 4 (PyFloat (F64.of_Z 5)) (F64.of_Z (-5))
       (replicate 4 F64.zero)
     = Ok [F64.one; F64.one; F64.zero; F64.zero].
Proof. by vm_compute. Qed.

(** ** The attributes that the stages assign *)

Lemma keeps_attrs_bind {A B : Type} (m : M A) (k : A -> M B) :
  keeps_attrs m -> (forall a, keeps_attrs (k a)) -> keeps_attrs (m ≫= k).
Proof.
  intros Hm Hk w. unfold mbind, M_bind. specialize (Hm w).
  destruct (m w) as [[a|e] w1]; simpl in *; [|done].
  by rewrite (Hk a w1).
Qed.

Lemma read_only_bind {A B : Type} (m : M A) (k : A -> M B) :
  read_only m -> (forall a, read_only (k a)) -> read_only (m ≫= k).
Proof.
  intros Hm Hk w. unfold mbind, M_bind. specialize (Hm w).
  destruct (m w) as [[a|e] w1]; simpl in *; [|done].
  by rewrite (Hk a w1).
Qed.

Lemma assigns_only_bind {A B : Type} names (m : M A) (k : A -> M B) :
  assigns_only names m -> (forall a, assigns_only names (k a)) ->
  assigns_only names (m ≫= k).
Proof.
  intros Hm Hk w name Hname. unfold mbind, M_bind.
  specialize (Hm w name Hname).
  destruct (m w) as [[a|e] w1]; simpl in *; [|done].
  by rewrite (Hk a w1 name Hname).
Qed.

Lemma read_only_keeps {A : Type} (m : M A) : read_only m -> keeps_attrs m.
Proof. intros Hm w. by rewrite Hm. Qed.

Lemma keeps_assigns_only {A : Type} names (m : M A) :
  keeps_attrs m -> assigns_only names m.
Proof. intros Hm w name _. by rewrite Hm. Qed.

Lemma assigns_only_setattr names name v :
  name ∈ names -> assigns_only names (setattr name v).
Proof.
  intros Hin w other Hother. cbn. apply lookup_insert_ne.
  intros ->. by apply Hother.
Qed.

(** The statements that read. *)
Lemma read_only_ret {A : Type} (a : A) : read_only (mret a).
Proof. done. Qed.

Lemma read_only_raise {A : Type} e : read_only (raise (A := A) e).
Proof. done. Qed.

Lemma read_only_lift {A : Type} (r : res A) : read_only (lift r).
Proof. done. Qed.

Lemma read_only_setting {A : Type} (key : settings -> A) :
  read_only (setting key).
Proof. done. Qed.

Lemma read_only_getattr name : read_only (getattr name).
Proof. intros w. unfold getattr. by destruct (attrs w !! name). Qed.

Lemma read_only_deref l : read_only (deref l).
Proof. intros w. unfold deref. by destruct (heap w !! l). Qed.

Lemma read_only_as_arr v : read_only (as_arr v).
Proof. by destruct v. Qed.

Lemma read_only_as_str v : read_only (as_str v).
Proof. by destruct v. Qed.

Lemma read_only_as_dict v : read_only (as_dict v).
Proof. by destruct v. Qed.

Lemma read_only_as_targets v : read_only (as_targets v).
Proof. by destruct v. Qed.

Lemma read_only_as_spectra v : read_only (as_spectra v).
Proof. by destruct v. Qed.

Lemma read_only_as_floats a : read_only (as_floats a).
Proof. by destruct a. Qed.

Lemma read_only_as_bools a : read_only (as_bools a).
Proof. by destruct a. Qed.

Lemma read_only_as_floats2 a : read_only (as_floats2 a).
Proof. by destruct a. Qed.

Lemma read_only_dict_get d key : read_only (dict_get d key).
Proof. unfold dict_get. by destruct (assoc key d). Qed.

Lemma read_only_getarr name : read_only (getarr name).
Proof.
  unfold getarr. apply read_only_bind; [apply read_only_getattr|intros v].
  apply read_only_bind; [apply read_only_as_arr|intros l].
  apply read_only_deref.
Qed.

Lemma read_only_freeze_result d : read_only (freeze_result d).
Proof. intros w. apply freeze_world_snd. Qed.

(** The statements that touch the heap, the cache or the optimizer. *)
Lemma keeps_attrs_alloc a : keeps_attrs (alloc a).
Proof. done. Qed.

Lemma keeps_attrs_store l a : keeps_attrs (store l a).
Proof. done. Qed.

Lemma keeps_attrs_thaw_result stored : keeps_attrs (thaw_result stored).
Proof.
  intros w. destruct (thaw_result_spec stored w) as (r & -> & _). done.
Qed.

Lemma keeps_attrs_load_stan_result hash : keeps_attrs (load_stan_result hash).
Proof.
  intros w. unfold load_stan_result.
  destruct (cache w !! hash) as [stored|]; [|done].
  pose proof (keeps_attrs_thaw_result stored w) as Hthaw.
  by destruct (thaw_result stored w) as [[r|e] w1].
Qed.

Lemma keeps_attrs_save_stan_result hash r : keeps_attrs (save_stan_result hash r).
Proof.
  unfold save_stan_result. apply keeps_attrs_bind.
  - apply read_only_keeps, read_only_freeze_result.
  - by intros stored w.
Qed.

Lemma keeps_attrs_run_optimizing `{Externals} path data :
  keeps_attrs (run_optimizing path data).
Proof.
  unfold run_optimizing. apply keeps_attrs_bind; [done|intros _].
  apply keeps_attrs_bind; [apply read_only_keeps, read_only_lift|intros v].
  apply keeps_attrs_thaw_result.
Qed.

Create HintDb footprint.

#[local] Hint Resolve read_only_ret read_only_raise read_only_lift
  read_only_setting read_only_getattr read_only_deref read_only_as_arr
  read_only_as_str read_only_as_dict read_only_as_targets
  read_only_as_spectra read_only_as_floats read_only_as_bools
  read_only_as_floats2 read_only_dict_get read_only_getarr
  read_only_freeze_result : footprint.

#[local] Hint Resolve keeps_attrs_alloc keeps_attrs_store
  keeps_attrs_thaw_result keeps_attrs_load_stan_result
  keeps_attrs_save_stan_result keeps_attrs_run_optimizing : footprint.

(** One statement after the other, through the branches. *)
Ltac read_only_steps :=
  repeat first
    [ progress intros
    | solve [auto with footprint]
    | apply read_only_bind
    | match goal with
      | |- read_only (match ?x with _ => _ end) => destruct x
      | |- read_only (let '(_, _) := ?x in _) => destruct x
      end ].

Ltac assigns_only_steps :=
  repeat first
    [ progress intros
    | solve [apply keeps_assigns_only; auto with footprint]
    | solve [apply keeps_assigns_only, read_only_keeps; auto with footprint]
    | solve [apply assigns_only_setattr; set_solver]
    | apply assigns_only_bind
    | match goal with
      | |- assigns_only _ (match ?x with _ => _ end) => destruct x
      | |- assigns_only _ (let '(_, _) := ?x in _) => destruct x
      end ].

(** The instance dictionaries that the methods can produce are the ones
    whose every attribute some method assigns. *)
Lemma reachable_keys (a : gmap string value) :
  reachable a <-> forall name, is_Some (a !! name) -> assignable name.
Proof.
  split.
  - induction 1 as [|a name v _ IH Hname]; intros other [x Hx].
    + by rewrite lookup_empty in Hx.
    + destruct (decide (other = name)) as [->|Hne]; [done|].
      rewrite lookup_insert_ne in Hx by done. apply IH. by eexists.
  - induction a as [|name v a Hfresh _ IH] using map_first_key_ind.
    + intros _. constructor.
    + intros Hkeys. constructor.
      * apply IH. intros other [x Hx]. apply Hkeys.
        destruct (decide (other = name)) as [->|Hne]; [congruence|].
        rewrite lookup_insert_ne by done. by eexists.
      * apply Hkeys. rewrite lookup_insert_eq. by eexists.
Qed.

Lemma assigns_only_reachable {A : Type} names (m : M A) (w : world) :
  assigns_only names m ->
  (forall name, name ∈ names -> assignable name) ->
  reachable (attrs w) -> reachable (attrs (snd (m w))).
Proof.
  intros Hm Hnames Hreach. apply reachable_keys. intros name Hsome.
  destruct (decide (name ∈ names)) as [Hin|Hout]; [by apply Hnames|].
  rewrite (Hm w name Hout) in Hsome.
  by apply (proj1 (reachable_keys (attrs w)) Hreach).
Qed.

Lemma assigned_names_assignable (method name : string) :
  name ∈ assigned_names method -> assignable name.
Proof.
  unfold assigned_names. intros Hin.
  destruct (assoc method assigned_by) as [names|] eqn:Hassoc;
    [|by apply elem_of_nil in Hin].
  exists method, names. split; [|done].
  clear Hin. revert Hassoc. generalize assigned_by.
  induction l as [|[k v] l IH]; simpl; [done|].
  destruct (String.eqb_spec k method) as [->|_].
  - intros [= ->]. left.
  - intros Hl. right. by apply IH.
Qed.

Section FootprintFacts.
Context `{Externals}.

(** [model_maximum_spectra] assigns the four attributes that the table
    lists for it and no other, whether it returns or raises, and so keeps
    the instance dictionary among the reachable ones. *)
Theorem model_maximum_spectra_footprint (use_cache : bool) :
  assigns_only (assigned_names "model_maximum_spectra")
    (model_maximum_spectra use_cache)
  /\ forall w, reachable (attrs w) ->
       reachable (attrs (snd (model_maximum_spectra use_cache w))).
Proof.
  assert (Hfoot : assigns_only (assigned_names "model_maximum_spectra")
                    (model_maximum_spectra use_cache)).
  { unfold model_maximum_spectra, assigned_names. cbn [assoc assigned_by].
    simpl. assigns_only_steps. }
  split; [exact Hfoot|]. intros w Hreach.
  apply (assigns_only_reachable _ _ w Hfoot); [|done].
  intros name. apply assigned_names_assignable.
Qed.

Lemma parse_rbtl_result_assigns (result : stan_result) :
  assigns_only (assigned_names "_parse_rbtl_result")
    (_parse_rbtl_result result).
Proof.
  unfold _parse_rbtl_result, discard_validation_magnitudes, assigned_names.
  cbn [assoc assigned_by]. simpl. assigns_only_steps.
Qed.

(** [read_between_the_lines] assigns its own two attributes and the six of
    [_parse_rbtl_result] and no other, whether it returns or raises; the
    blinding updates an array in place and assigns nothing. *)
Theorem read_between_the_lines_footprint (use_cache : bool) :
  assigns_only
    (assigned_names "read_between_the_lines"
     ++ assigned_names "_parse_rbtl_result")
    (read_between_the_lines use_cache)
  /\ forall w, reachable (attrs w) ->
       reachable (attrs (snd (read_between_the_lines use_cache w))).
Proof.
  assert (Hparse : forall result,
            assigns_only
              (assigned_names "read_between_the_lines"
               ++ assigned_names "_parse_rbtl_result")
              (_parse_rbtl_result result)).
  { intros result w name Hname. apply parse_rbtl_result_assigns.
    intros Hin. apply Hname, elem_of_app. by right. }
  assert (Hfoot : assigns_only
                    (assigned_names "read_between_the_lines"
                     ++ assigned_names "_parse_rbtl_result")
                    (read_between_the_lines use_cache)).
  { unfold read_between_the_lines.
    repeat first
      [ progress intros
      | apply Hparse
      | solve [apply keeps_assigns_only; auto with footprint]
      | solve [apply keeps_assigns_only, read_only_keeps; auto with footprint]
      | solve [apply assigns_only_setattr; unfold assigned_names; simpl;
               set_solver]
      | apply assigns_only_bind
      | match goal with
        | |- assigns_only _ (match ?x with _ => _ end) => destruct x
        end ]. }
  split; [exact Hfoot|]. intros w Hreach.
  apply (assigns_only_reachable _ _ w Hfoot); [|done].
  intros name Hin. apply elem_of_app in Hin as [Hin|Hin];
    by eapply assigned_names_assignable.
Qed.

Lemma read_only_attr_and a b : read_only (attr_and a b).
Proof. unfold attr_and. read_only_steps. Qed.

Lemma read_only_get_peculiar_velocity_uncertainty pv :
  read_only (get_peculiar_velocity_uncertainty pv).
Proof. unfold get_peculiar_velocity_uncertainty. read_only_steps. Qed.

Lemma read_only_get_mags kind full pv : read_only (get_mags kind full pv).
Proof.
  unfold get_mags.
  apply read_only_bind.
  - destruct (String.eqb kind "rbtl"); [|destruct (_ || _)];
      repeat first
        [ progress intros
        | apply read_only_attr_and
        | solve [auto with footprint]
        | apply read_only_bind
        | match goal with
          | |- read_only (if ?b then _ else _) => destruct b
          end ].
  - intros [[mags colors] mask].
    repeat first
      [ progress intros
      | apply read_only_get_peculiar_velocity_uncertainty
      | solve [auto with footprint]
      | apply read_only_bind ].
Qed.

(** [get_mags], [_calculate_gp_residuals] and [_calculate_gp_dispersion]
    leave the object, its arrays, the cache and the optimizer as they found
    them, whether they return or raise. *)
Theorem gp_readers_read_only (kind : string) (full phase : bool)
    (peculiar_velocity : pynum) (hyperparameters : list spec_float) :
  read_only (get_mags kind full peculiar_velocity)
  /\ read_only (_calculate_gp_residuals hyperparameters kind phase)
  /\ read_only (_calculate_gp_dispersion hyperparameters kind phase).
Proof.
  assert (Hres : read_only (_calculate_gp_residuals hyperparameters kind phase)).
  { unfold _calculate_gp_residuals.
    apply read_only_bind; [apply read_only_get_mags|intros sel].
    apply read_only_bind; [apply read_only_lift|intros [preds vars]].
    apply read_only_lift. }
  split; [apply read_only_get_mags|]. split; [exact Hres|].
  unfold _calculate_gp_dispersion.
  apply read_only_bind; [exact Hres|intros r]. apply read_only_ret.
Qed.

End FootprintFacts.
